(** * The execution engine of the backtester (simulator.py, models.py)

    A shallow embedding of [Simulator] and of the dataclasses it works on,
    followed by the properties of order placement, position accounting,
    bulk liquidation and the loss circuit breaker.  Around the engine, the
    lookups of the contract table (data_loader.py), the strike rounding and
    the smoothed indicators (indicators.py) and the per-bar callbacks of the
    two strategies (strategies/) are embedded as well; the band indicator,
    which needs a square root, the file loading and the command-line runner
    are not.

    Numbers.  Quantities, bar indices, tokens and order ids are Python
    [int]s: [Z].  Prices, cash and PnL are floating-point numbers: rationals
    extended with the two infinities and not-a-number, with the IEEE rules
    for the special values.  The engine is embedded with the exact
    operations on these numbers; its properties follow the operations of
    the code one by one and hold of the values before rounding.  Where a
    property is a decision between two computed numbers, it is stated on
    the arithmetic of doubles instead: the same operations, each followed
    by rounding to the nearest double ([round64], module [Binary64]).  The
    sign of zero is not modelled.

    Effects.  The methods of [Simulator] read and write the fields of
    [self] and may raise; they are written in a state-and-exception monad
    whose result always carries the state reached so far, as a Python
    exception leaves the object in the state it had when it was raised. *)

From Stdlib Require Import ZArith QArith Qcanon Qround Qabs Qpower List Sorted String
  Ascii DecimalString Bool Lia Lqa.
Import ListNotations.
Local Open Scope Z_scope.

(* ================================================================= *)
(** ** Floating-point values *)

Inductive float : Type :=
| NaN
| Inf (neg : bool)
| Fin (q : Qc).

(** A Python [int] used in float arithmetic. *)
Definition Zc (z : Z) : Qc := Q2Qc (inject_Z z).

Definition of_int (z : Z) : float := Fin (Zc z).

Definition is_zero (q : Qc) : bool :=
  match (q ?= 0)%Qc with Eq => true | _ => false end.

Definition is_neg (q : Qc) : bool :=
  match (q ?= 0)%Qc with Lt => true | _ => false end.

(** [np.isnan] *)
Definition isnan (x : float) : bool :=
  match x with NaN => true | _ => false end.

Definition fneg (x : float) : float :=
  match x with
  | NaN => NaN
  | Inf s => Inf (negb s)
  | Fin q => Fin (- q)%Qc
  end.

Definition fadd (x y : float) : float :=
  match x, y with
  | NaN, _ | _, NaN => NaN
  | Inf a, Inf b => if Bool.eqb a b then Inf a else NaN
  | Inf a, Fin _ => Inf a
  | Fin _, Inf b => Inf b
  | Fin p, Fin q => Fin (p + q)%Qc
  end.

Definition fsub (x y : float) : float := fadd x (fneg y).

Definition fmul (x y : float) : float :=
  match x, y with
  | NaN, _ | _, NaN => NaN
  | Inf a, Inf b => Inf (xorb a b)
  | Inf a, Fin q => if is_zero q then NaN else Inf (xorb a (is_neg q))
  | Fin p, Inf b => if is_zero p then NaN else Inf (xorb (is_neg p) b)
  | Fin p, Fin q => Fin (p * q)%Qc
  end.

(** numpy division: a zero divisor gives an infinity or not-a-number
    (with a warning), never an exception. *)
Definition fdiv (x y : float) : float :=
  match x, y with
  | NaN, _ | _, NaN => NaN
  | Inf _, Inf _ => NaN
  | Inf a, Fin q => Inf (xorb a (is_neg q))
  | Fin _, Inf _ => Fin 0%Qc
  | Fin p, Fin q =>
      if is_zero q then (if is_zero p then NaN else Inf (is_neg p))
      else Fin (p / q)%Qc
  end.

Definition fcompare (x y : float) : option comparison :=
  match x, y with
  | NaN, _ | _, NaN => None
  | Inf a, Inf b => Some (if a then (if b then Eq else Lt) else (if b then Gt else Eq))
  | Inf a, Fin _ => Some (if a then Lt else Gt)
  | Fin _, Inf b => Some (if b then Gt else Lt)
  | Fin p, Fin q => Some (p ?= q)%Qc
  end.

(** [x >= y]; false as soon as one side is not-a-number. *)
Definition fge (x y : float) : bool :=
  match fcompare x y with
  | Some Eq | Some Gt => true
  | _ => false
  end.

(** Boolean equality of values, to decide concrete equations. *)
Definition float_eqb (x y : float) : bool :=
  match x, y with
  | NaN, NaN => true
  | Inf a, Inf b => Bool.eqb a b
  | Fin p, Fin q => Qeq_bool p q
  | _, _ => false
  end.

(* ================================================================= *)
(** ** Strings *)

(** Strings are byte strings; a Python string of ASCII characters is its
    bytes, and on such strings [upper] is [str.upper], which maps a-z to
    A-Z and leaves every other ASCII character alone.  Python upper-cases
    other characters too, a few of them to ASCII letters. *)
Definition upper_ascii (c : ascii) : ascii :=
  let n := nat_of_ascii c in
  if ((97 <=? n) && (n <=? 122))%nat then ascii_of_nat (n - 32) else c.

Fixpoint upper (s : string) : string :=
  match s with
  | EmptyString => EmptyString
  | String c s' => String (upper_ascii c) (upper s')
  end.

(** The string has ASCII characters only: every byte is below 128. *)
Fixpoint is_ascii (s : string) : bool :=
  match s with
  | EmptyString => true
  | String c s' => (nat_of_ascii c <? 128)%nat && is_ascii s'
  end.

(* ================================================================= *)
(** ** Python containers *)

(** A [dict] with integer keys: the entries in insertion order.
    [setitem] keeps the place of a key that is present and appends a new
    one; [delitem] removes the key. *)
Module Dict.

Definition t (V : Type) : Type := list (Z * V).

Fixpoint get {V} (k : Z) (d : t V) : option V :=
  match d with
  | [] => None
  | (k', v) :: d' => if k =? k' then Some v else get k d'
  end.

Definition mem {V} (k : Z) (d : t V) : bool :=
  match get k d with Some _ => true | None => false end.

Fixpoint setitem {V} (k : Z) (v : V) (d : t V) : t V :=
  match d with
  | [] => [(k, v)]
  | (k', v') :: d' =>
      if k =? k' then (k, v) :: d' else (k', v') :: setitem k v d'
  end.

Definition delitem {V} (k : Z) (d : t V) : t V :=
  filter (fun kv => negb (k =? fst kv)) d.

Definition keys {V} (d : t V) : list Z := map fst d.

Definition items {V} (d : t V) : list (Z * V) := d.

(** The keys of a dict are pairwise distinct. *)
Definition wf {V} (d : t V) : Prop := NoDup (keys d).

End Dict.

(** [l[i]] for a Python sequence: a negative index counts from the end,
    an index outside [-len, len) is an [IndexError] ([None] here). *)
Definition getitem {A} (l : list A) (i : Z) : option A :=
  let n := Z.of_nat (List.length l) in
  if 0 <=? i then nth_error l (Z.to_nat i)
  else if - n <=? i then nth_error l (Z.to_nat (n + i))
  else None.

(* ================================================================= *)
(** ** models.py *)

(** Timestamps are the minutes of the session. *)
Definition timestamp : Type := Z.

Module Order.
Record t : Type := mk {
  order_id : Z;
  token : Z;
  symbol : string;
  side : string;
  quantity : Z;
  price : float;
  executed_price : option float;
  timestamp : Z;
  filled_time : option Z;
  status : string;
  order_type : string
}.
End Order.

Module Position.
Record t : Type := mk {
  token : Z;
  symbol : string;
  side : string;
  quantity : Z;
  entry_price : float;
  entry_time : timestamp;
  stop_loss : option float;
  target : option float;
  exit_price : option float;
  exit_time : option timestamp;
  realised_pnl : float;
  margin_required : float
}.

(** Attribute assignments. *)
Definition set_quantity (v : Z) (p : t) : t :=
  mk (token p) (symbol p) (side p) v (entry_price p) (entry_time p)
     (stop_loss p) (target p) (exit_price p) (exit_time p)
     (realised_pnl p) (margin_required p).

Definition set_entry_price (v : float) (p : t) : t :=
  mk (token p) (symbol p) (side p) (quantity p) v (entry_time p)
     (stop_loss p) (target p) (exit_price p) (exit_time p)
     (realised_pnl p) (margin_required p).

Definition set_exit_price (v : option float) (p : t) : t :=
  mk (token p) (symbol p) (side p) (quantity p) (entry_price p) (entry_time p)
     (stop_loss p) (target p) v (exit_time p)
     (realised_pnl p) (margin_required p).

Definition set_exit_time (v : option timestamp) (p : t) : t :=
  mk (token p) (symbol p) (side p) (quantity p) (entry_price p) (entry_time p)
     (stop_loss p) (target p) (exit_price p) v
     (realised_pnl p) (margin_required p).

Definition set_realised_pnl (v : float) (p : t) : t :=
  mk (token p) (symbol p) (side p) (quantity p) (entry_price p) (entry_time p)
     (stop_loss p) (target p) (exit_price p) (exit_time p)
     v (margin_required p).

(** The dataclass constructor with its defaults. *)
Definition new (token : Z) (symbol side : string) (quantity : Z)
    (entry_price : float) (entry_time : timestamp) : t :=
  mk token symbol side quantity entry_price entry_time
     None None None None (Fin 0%Qc) (Fin 0%Qc).

Definition is_open (p : t) : bool :=
  match exit_time p with None => true | Some _ => false end.

Definition update_pnl (p : t) (current_price : float) : float :=
  if String.eqb (upper (side p)) "LONG"
  then fmul (fsub current_price (entry_price p)) (of_int (quantity p))
  else fmul (fsub (entry_price p) current_price) (of_int (quantity p)).
End Position.

Module TradeLog.
Record t : Type := mk {
  instrument : string;
  side : string;
  entry_time : timestamp;
  exit_time : timestamp;
  entry_price : float;
  exit_price : option float;
  quantity : Z;
  pnl : float
}.
End TradeLog.

(* ================================================================= *)
(** ** simulator.py: the state of a [Simulator] *)

(** The [Close] column of one token's frame: the rows (minute, close) in
    index order.  The loader sorts every frame by its index. *)
Definition DataFrame : Type := list (timestamp * float).

(** [df.loc[:ts]] on a frame in index order, as the loader leaves every
    frame: the rows whose minute is at or before [ts].  (On a frame out of
    order pandas slices by position or raises; such frames are outside the
    model, see [sorted_frame].) *)
Definition loc_upto (ts : timestamp) (df : DataFrame) : DataFrame :=
  filter (fun row => fst row <=? ts) df.

(** [series.iloc[-1]]; [None] is the [IndexError] of an empty series. *)
Definition iloc_last (df : DataFrame) : option float :=
  match rev df with
  | [] => None
  | row :: _ => Some (snd row)
  end.

Record Simulator : Type := mkSimulator {
  market_data : Dict.t DataFrame;
  starting_cash : float;
  cash : float;
  slippage : float;
  max_daily_loss : option float;
  debug : bool;
  order_id_counter : Z;
  orders : list Order.t;
  positions : Dict.t Position.t;
  trade_log : list TradeLog.t;
  time_index : option (list timestamp);
  current_index : option Z
}.

(** Assignments to the attributes of [self]. *)
Definition set_cash (v : float) (s : Simulator) : Simulator :=
  mkSimulator (market_data s) (starting_cash s) v (slippage s)
    (max_daily_loss s) (debug s) (order_id_counter s) (orders s)
    (positions s) (trade_log s) (time_index s) (current_index s).

Definition set_order_id_counter (v : Z) (s : Simulator) : Simulator :=
  mkSimulator (market_data s) (starting_cash s) (cash s) (slippage s)
    (max_daily_loss s) (debug s) v (orders s)
    (positions s) (trade_log s) (time_index s) (current_index s).

Definition set_orders (v : list Order.t) (s : Simulator) : Simulator :=
  mkSimulator (market_data s) (starting_cash s) (cash s) (slippage s)
    (max_daily_loss s) (debug s) (order_id_counter s) v
    (positions s) (trade_log s) (time_index s) (current_index s).

Definition set_positions (v : Dict.t Position.t) (s : Simulator) : Simulator :=
  mkSimulator (market_data s) (starting_cash s) (cash s) (slippage s)
    (max_daily_loss s) (debug s) (order_id_counter s) (orders s)
    v (trade_log s) (time_index s) (current_index s).

Definition set_trade_log (v : list TradeLog.t) (s : Simulator) : Simulator :=
  mkSimulator (market_data s) (starting_cash s) (cash s) (slippage s)
    (max_daily_loss s) (debug s) (order_id_counter s) (orders s)
    (positions s) v (time_index s) (current_index s).

Definition set_time_index_fields (idx : list timestamp) (s : Simulator) : Simulator :=
  mkSimulator (market_data s) (starting_cash s) (cash s) (slippage s)
    (max_daily_loss s) (debug s) (order_id_counter s) (orders s)
    (positions s) (trade_log s) (Some idx) (Some 0).

(** [Simulator.__init__] *)
Definition init (data_by_token : Dict.t DataFrame) (starting_cash slippage : float)
    (max_daily_loss : option float) (debug : bool) : Simulator :=
  mkSimulator data_by_token starting_cash starting_cash slippage
    max_daily_loss debug 1 [] [] [] None None.

(* ================================================================= *)
(** ** The monad of the methods *)

Inductive value_error : Type :=
| BadSide                              (* side must be 'BUY' or 'SELL' *)
| NoPrice (token dt_index : Z).        (* No price available for token ... *)

Inductive exn : Type :=
| KeyError (key : Z)
| IndexError
| ValueError (why : value_error).

Inductive result (A : Type) : Type :=
| Ok (a : A)
| Raise (e : exn).
Arguments Ok {A} a.
Arguments Raise {A} e.

Definition M (A : Type) : Type := Simulator -> result A * Simulator.

Definition ret {A} (a : A) : M A := fun s => (Ok a, s).

Definition raise {A} (e : exn) : M A := fun s => (Raise e, s).

Definition bind {A B} (m : M A) (k : A -> M B) : M B :=
  fun s =>
    match m s with
    | (Ok a, s') => k a s'
    | (Raise e, s') => (Raise e, s')
    end.

(** Read an attribute of [self]. *)
Definition gets {A} (f : Simulator -> A) : M A := fun s => (Ok (f s), s).

(** Assign to attributes of [self]. *)
Definition modify (f : Simulator -> Simulator) : M unit := fun s => (Ok tt, f s).

Declare Scope sim_scope.
Delimit Scope sim_scope with sim.
Notation "x <- m ;; k" := (bind m (fun x => k))
  (at level 61, m at next level, right associativity) : sim_scope.
Notation "m ;; k" := (bind m (fun _ => k))
  (at level 61, right associativity) : sim_scope.
Local Open Scope sim_scope.

(** A [for] loop over a list, stopped by the first exception. *)
Fixpoint for_each {A} (l : list A) (body : A -> M unit) : M unit :=
  match l with
  | [] => ret tt
  | a :: l' => body a ;; for_each l' body
  end.

(* ================================================================= *)
(** ** simulator.py: the methods *)

Definition set_time_index (index : list timestamp) : M unit :=
  modify (set_time_index_fields index).

(** [self.time_index[dt_index]] *)
Definition time_at (dt_index : Z) : M timestamp :=
  idx <- gets time_index ;;
  match idx with
  | None => raise IndexError
  | Some l =>
      match getitem l dt_index with
      | None => raise IndexError
      | Some ts => ret ts
      end
  end.

Definition get_market_price (token dt_index : Z) : M float :=
  md <- gets market_data ;;
  if negb (Dict.mem token md) then raise (KeyError token) else
  idx <- gets time_index ;;
  if match idx with
     | None => true
     | Some l => dt_index >=? Z.of_nat (List.length l)
     end
  then raise IndexError else
  ts <- time_at dt_index ;;
  match Dict.get token md with
  | None => raise (KeyError token)
  | Some df =>
      ret (match iloc_last (loc_upto ts df) with
           | Some price => price
           | None => NaN      (* except Exception: price = np.nan *)
           end)
  end.

(** [pos] is the object held by the mapping: an assignment to one of its
    attributes is seen through [self.positions[token]]. *)
Definition store (token : Z) (pos : Position.t) : M unit :=
  modify (fun s => set_positions (Dict.setitem token pos (positions s)) s).

(** [del self.positions[token]] *)
Definition del_position (token : Z) : M unit :=
  ps <- gets positions ;;
  if Dict.mem token ps
  then modify (set_positions (Dict.delitem token ps))
  else raise (KeyError token).

Definition _record_trade (pos : Position.t) : M unit :=
  match Position.exit_time pos with
  | None => ret tt
  | Some exit_time =>
      let trade :=
        TradeLog.mk (Position.symbol pos) (Position.side pos)
          (Position.entry_time pos) exit_time
          (Position.entry_price pos) (Position.exit_price pos)
          (Position.quantity pos) (Position.realised_pnl pos) in
      modify (fun s => set_trade_log (trade_log s ++ [trade]) s)
  end.

(** The reducing branch shared in shape by the two sides; [pnl_of] is
    [(fill - entry) * quantity] for a long and [(entry - fill) * quantity]
    for a short. *)
Definition long_pnl (fill_price entry_price : float) (quantity : Z) : float :=
  fmul (fsub fill_price entry_price) (of_int quantity).

Definition short_pnl (fill_price entry_price : float) (quantity : Z) : float :=
  fmul (fsub entry_price fill_price) (of_int quantity).

Definition average_in (token : Z) (pos : Position.t) (fill_price : float)
    (quantity : Z) : M unit :=
  let total_qty := Position.quantity pos + quantity in
  let pos :=
    Position.set_entry_price
      (fdiv (fadd (fmul (Position.entry_price pos) (of_int (Position.quantity pos)))
                  (fmul fill_price (of_int quantity)))
            (of_int total_qty)) pos in
  store token pos ;;
  let pos := Position.set_quantity total_qty pos in
  store token pos.

Definition reduce (pnl_of : float -> float -> Z -> float) (token : Z)
    (pos : Position.t) (fill_price : float) (quantity dt_index : Z) : M unit :=
  let pos := Position.set_quantity (Position.quantity pos - quantity) pos in
  store token pos ;;
  let pnl := pnl_of fill_price (Position.entry_price pos) quantity in
  let pos := Position.set_realised_pnl (fadd (Position.realised_pnl pos) pnl) pos in
  store token pos ;;
  if Position.quantity pos =? 0 then
    let pos := Position.set_exit_price (Some fill_price) pos in
    store token pos ;;
    ts <- time_at dt_index ;;
    let pos := Position.set_exit_time (Some ts) pos in
    store token pos ;;
    _record_trade pos ;;
    del_position token
  else ret tt.

Definition place_order (token : Z) (symbol side : string)
    (quantity dt_index : Z) : M Order.t :=
  let side := upper side in
  if negb (String.eqb side "BUY" || String.eqb side "SELL")
  then raise (ValueError BadSide) else
  price <- get_market_price token dt_index ;;
  if isnan price then raise (ValueError (NoPrice token dt_index)) else
  slippage <- gets slippage ;;
  let slip := fmul slippage price in
  let fill_price :=
    if String.eqb side "BUY" then fadd price slip else fsub price slip in
  let cost := fmul fill_price (of_int quantity) in
  (if String.eqb side "BUY"
   then modify (fun s => set_cash (fsub (cash s) cost) s)
   else modify (fun s => set_cash (fadd (cash s) cost) s)) ;;
  order_id <- gets order_id_counter ;;
  timestamp <- time_at dt_index ;;
  filled_time <- time_at dt_index ;;
  let order :=
    Order.mk order_id token symbol side quantity price (Some fill_price)
      timestamp (Some filled_time) "FILLED" "MARKET" in
  modify (fun s => set_order_id_counter (order_id_counter s + 1) s) ;;
  modify (fun s => set_orders (orders s ++ [order]) s) ;;
  pos <- gets (fun s => Dict.get token (positions s)) ;;
  match pos with
  | None =>
      let new_side := (if String.eqb side "BUY" then "LONG" else "SHORT")%string in
      entry_time <- time_at dt_index ;;
      store token
        (Position.new token symbol new_side quantity fill_price entry_time)
  | Some pos =>
      if String.eqb (Position.side pos) "LONG" then
        if String.eqb side "BUY"
        then average_in token pos fill_price quantity
        else reduce long_pnl token pos fill_price quantity dt_index
      else
        if String.eqb side "SELL"
        then average_in token pos fill_price quantity
        else reduce short_pnl token pos fill_price quantity dt_index
  end ;;
  ret order.

Definition get_positions : M (Dict.t Position.t) := gets positions.

Definition square_off_all (dt_index : Z) : M unit :=
  tokens <- gets (fun s => Dict.keys (positions s)) ;;
  for_each tokens (fun token =>
    ps <- gets positions ;;
    match Dict.get token ps with
    | None => raise (KeyError token)
    | Some pos =>
        if String.eqb (Position.side pos) "LONG"
        then place_order token (Position.symbol pos) "SELL"
               (Position.quantity pos) dt_index ;; ret tt
        else place_order token (Position.symbol pos) "BUY"
               (Position.quantity pos) dt_index ;; ret tt
    end).

Fixpoint mark_to_market_loop (items : list (Z * Position.t)) (dt_index : Z)
    (total : float) : M float :=
  match items with
  | [] => ret total
  | (token, pos) :: rest =>
      price <- get_market_price token dt_index ;;
      let total :=
        if negb (isnan price)
        then fadd total (Position.update_pnl pos price)
        else total in
      mark_to_market_loop rest dt_index total
  end.

Definition mark_to_market (dt_index : Z) : M float :=
  items <- gets (fun s => Dict.items (positions s)) ;;
  mark_to_market_loop items dt_index (Fin 0%Qc).

Definition total_equity (dt_index : Z) : M float :=
  cash <- gets cash ;;
  mtm <- mark_to_market dt_index ;;
  ret (fadd cash mtm).

Definition check_max_loss (dt_index : Z) : M bool :=
  limit <- gets max_daily_loss ;;
  match limit with
  | None => ret false
  | Some max_daily_loss =>
      equity <- total_equity dt_index ;;
      starting_cash <- gets starting_cash ;;
      let loss := fsub starting_cash equity in
      ret (fge loss max_daily_loss)
  end.

(* ================================================================= *)
(** ** Pure readings of the oracle *)

(** The value of [self.time_index[dt_index]] as a function of the index. *)
Definition ts_at (idx : option (list timestamp)) (dt_index : Z) : result timestamp :=
  match idx with
  | None => Raise IndexError
  | Some l =>
      match getitem l dt_index with
      | None => Raise IndexError
      | Some ts => Ok ts
      end
  end.

(** The outcome of [get_market_price] as a function of the data it reads. *)
Definition price_at (md : Dict.t DataFrame) (idx : option (list timestamp))
    (token dt_index : Z) : result float :=
  if negb (Dict.mem token md) then Raise (KeyError token) else
  if match idx with
     | None => true
     | Some l => dt_index >=? Z.of_nat (List.length l)
     end
  then Raise IndexError else
  match ts_at idx dt_index with
  | Raise e => Raise e
  | Ok ts =>
      match Dict.get token md with
      | None => Raise (KeyError token)
      | Some df =>
          Ok (match iloc_last (loc_upto ts df) with
              | Some price => price
              | None => NaN
              end)
      end
  end.

(* ================================================================= *)
(** ** What a filled order does *)

(** The order side after validation. *)
Definition valid_side (sd : string) : bool :=
  String.eqb sd "BUY" || String.eqb sd "SELL".

(** The execution price of a fill: the observed price moved by the slippage. *)
Definition fill_price_of (slip_rate price : float) (sd : string) : float :=
  if String.eqb sd "BUY" then fadd price (fmul slip_rate price)
  else fsub price (fmul slip_rate price).

(** Does an order add to the position (BUY into LONG, SELL into the rest)? *)
Definition adds_to (pos : Position.t) (sd : string) : bool :=
  if String.eqb (Position.side pos) "LONG" then String.eqb sd "BUY"
  else String.eqb sd "SELL".

(** The order that reduces a position. *)
Definition closing_side (pos : Position.t) : string :=
  if String.eqb (Position.side pos) "LONG" then "SELL" else "BUY".

Definition pnl_of (pos : Position.t) : float -> float -> Z -> float :=
  if String.eqb (Position.side pos) "LONG" then long_pnl else short_pnl.

(** Realised PnL of reducing [pos] by [quantity] at [fill_price]. *)
Definition reduction_pnl (pos : Position.t) (fill_price : float) (quantity : Z) : float :=
  pnl_of pos fill_price (Position.entry_price pos) quantity.

Definition averaged (pos : Position.t) (fill_price : float) (quantity : Z) : Position.t :=
  Position.set_quantity (Position.quantity pos + quantity)
    (Position.set_entry_price
       (fdiv (fadd (fmul (Position.entry_price pos) (of_int (Position.quantity pos)))
                   (fmul fill_price (of_int quantity)))
             (of_int (Position.quantity pos + quantity))) pos).

Definition reduced (pos : Position.t) (fill_price : float) (quantity : Z) : Position.t :=
  Position.set_realised_pnl
    (fadd (Position.realised_pnl pos) (reduction_pnl pos fill_price quantity))
    (Position.set_quantity (Position.quantity pos - quantity) pos).

(** The record written when [pos] is closed by a last reduction. *)
Definition closing_trade (pos : Position.t) (fill_price : float) (quantity : Z)
    (ts : timestamp) : TradeLog.t :=
  TradeLog.mk (Position.symbol pos) (Position.side pos) (Position.entry_time pos) ts
    (Position.entry_price pos) (Some fill_price)
    (Position.quantity pos - quantity)
    (fadd (Position.realised_pnl pos) (reduction_pnl pos fill_price quantity)).

(** Cash, order id and order list after the fill. *)
Definition after_fill (sd : string) (cost : float) (order : Order.t)
    (s : Simulator) : Simulator :=
  set_orders (orders s ++ [order])
    (set_order_id_counter (order_id_counter s + 1)
       (set_cash (if String.eqb sd "BUY" then fsub (cash s) cost
                  else fadd (cash s) cost) s)).

(** The reconciliation of the fill against the position of the token. *)
Definition settle (token : Z) (symbol sd : string) (quantity : Z)
    (fill_price : float) (ts : timestamp) (s : Simulator) : Simulator :=
  match Dict.get token (positions s) with
  | None =>
      set_positions
        (Dict.setitem token
           (Position.new token symbol
              (if String.eqb sd "BUY" then "LONG" else "SHORT")
              quantity fill_price ts)
           (positions s)) s
  | Some pos =>
      if adds_to pos sd then
        set_positions
          (Dict.setitem token (averaged pos fill_price quantity) (positions s)) s
      else if Position.quantity pos - quantity =? 0 then
        set_positions (Dict.delitem token (positions s))
          (set_trade_log
             (trade_log s ++ [closing_trade pos fill_price quantity ts]) s)
      else
        set_positions
          (Dict.setitem token (reduced pos fill_price quantity) (positions s)) s
  end.

Definition order_of (s : Simulator) (token : Z) (symbol sd : string)
    (quantity : Z) (price : float) (ts : timestamp) : Order.t :=
  Order.mk (order_id_counter s) token symbol sd quantity price
    (Some (fill_price_of (slippage s) price sd)) ts (Some ts) "FILLED" "MARKET".

Definition filled (token : Z) (symbol sd : string) (quantity : Z)
    (price : float) (ts : timestamp) (s : Simulator) : Simulator :=
  let fill_price := fill_price_of (slippage s) price sd in
  settle token symbol sd quantity fill_price ts
    (after_fill sd (fmul fill_price (of_int quantity))
       (order_of s token symbol sd quantity price ts) s).

(* ================================================================= *)
(** ** Sequences of calls *)

(** The arguments of one [place_order] call on a given token. *)
Record request : Type := mkRequest {
  req_symbol : string;
  req_side : string;
  req_quantity : Z;
  req_index : Z
}.

(** Successive [place_order] calls on one token. *)
Definition place_orders (token : Z) (reqs : list request) : M unit :=
  for_each reqs (fun r =>
    place_order token (req_symbol r) (req_side r) (req_quantity r) (req_index r) ;;
    ret tt).

(** The calls a strategy or the session runner makes on the engine. *)
Inductive call : Type :=
| SetTimeIndex (index : list timestamp)
| PlaceOrder (token : Z) (symbol side : string) (quantity dt_index : Z)
| SquareOffAll (dt_index : Z)
| MarkToMarket (dt_index : Z)
| TotalEquity (dt_index : Z)
| CheckMaxLoss (dt_index : Z).

(** The state a call leaves, whether it returns or raises. *)
Definition run_call (c : call) (s : Simulator) : Simulator :=
  match c with
  | SetTimeIndex index => snd (set_time_index index s)
  | PlaceOrder token symbol side quantity dt_index =>
      snd (place_order token symbol side quantity dt_index s)
  | SquareOffAll dt_index => snd (square_off_all dt_index s)
  | MarkToMarket dt_index => snd (mark_to_market dt_index s)
  | TotalEquity dt_index => snd (total_equity dt_index s)
  | CheckMaxLoss dt_index => snd (check_max_loss dt_index s)
  end.

(** The states reached from a fresh engine by calls that pass [guard]. *)
Inductive reachable (guard : call -> Simulator -> bool) : Simulator -> Prop :=
| reach_init md sc sl limit dbg :
    reachable guard (init md sc sl limit dbg)
| reach_call s c :
    reachable guard s -> guard c s = true -> reachable guard (run_call c s).

Definition any_call (c : call) (s : Simulator) : bool := true.

(** Orders of positive quantity that do not reduce a position by more
    than it holds. *)
Definition within_position (c : call) (s : Simulator) : bool :=
  match c with
  | PlaceOrder token _ side quantity _ =>
      (0 <? quantity) &&
      match Dict.get token (positions s) with
      | None => true
      | Some pos =>
          adds_to pos (upper side) || (quantity <=? Position.quantity pos)
      end
  | _ => true
  end.

(** Every open position holds a positive quantity. *)
Definition positions_positive (s : Simulator) : Prop :=
  forall token pos,
    Dict.get token (positions s) = Some pos -> 0 < Position.quantity pos.


(* ================================================================= *)
(** ** Weighted averages *)

(** The execution price on finite values. *)
Definition exec_price (sl p : Qc) (sd : string) : Qc :=
  if String.eqb sd "BUY" then (p + sl * p)%Qc else (p - sl * p)%Qc.

(** Sum of price times quantity over fills (price, quantity). *)
Fixpoint notional (fills : list (Qc * Z)) : Qc :=
  match fills with
  | [] => 0%Qc
  | (f, q) :: rest => (f * Zc q + notional rest)%Qc
  end.

Fixpoint total_quantity (fills : list (Qc * Z)) : Z :=
  match fills with
  | [] => 0
  | (_, q) :: rest => q + total_quantity rest
  end.

Definition weighted_average (fills : list (Qc * Z)) : Qc :=
  (notional fills / Zc (total_quantity fills))%Qc.

(** The fills of requests paired with the price observed at their bar. *)
Definition fills_of (sl : Qc) (sd : string) (rp : list (request * Qc)) : list (Qc * Z) :=
  map (fun x => (exec_price sl (snd x) sd, req_quantity (fst x))) rp.

(* ================================================================= *)
(** ** A session with one token *)

(** Token 7 closes at 100 in minute 0 and at 110 in minute 1; its close of
    minute 2 is missing. *)
Definition scenario_data : Dict.t DataFrame :=
  [(7, [(0, of_int 100); (1, of_int 110); (2, NaN)])].

Definition fresh_engine : Simulator :=
  init scenario_data (of_int 1000000) (Fin 0%Qc) None false.

Definition scenario_engine : Simulator :=
  snd (set_time_index [0; 1; 2] fresh_engine).

(** After BUY 10 at bar 0. *)
Definition scenario_long : Simulator :=
  snd (place_order 7 "A" "BUY" 10 0 scenario_engine).

(** After a further SELL 15 at bar 1, five more than the position holds. *)
Definition scenario_oversold : Simulator :=
  snd (place_order 7 "A" "SELL" 15 1 scenario_long).

(* ================================================================= *)
(** ** Reductions of a position *)

(** The price a call observes at a bar; not-a-number when the lookup fails. *)
Definition observed (s : Simulator) (token dt_index : Z) : float :=
  match price_at (market_data s) (time_index s) token dt_index with
  | Ok price => price
  | Raise _ => NaN
  end.

(** A price is available for the token at the bar. *)
Definition priced (s : Simulator) (token dt_index : Z) : bool :=
  match price_at (market_data s) (time_index s) token dt_index with
  | Ok price => negb (isnan price)
  | Raise _ => false
  end.

(** The realised PnL of the reduction of [pos] that request [r] makes. *)
Definition realised_by (s : Simulator) (pos : Position.t) (token : Z)
    (r : request) : float :=
  reduction_pnl pos
    (fill_price_of (slippage s) (observed s token (req_index r)) (closing_side pos))
    (req_quantity r).

Fixpoint sum_quantities (reqs : list request) : Z :=
  match reqs with
  | [] => 0
  | r :: rest => req_quantity r + sum_quantities rest
  end.

(** An opposite-direction order of positive quantity with a price. *)
Definition reduces (s : Simulator) (token : Z) (pos : Position.t)
    (r : request) : Prop :=
  upper (req_side r) = closing_side pos /\
  0 < req_quantity r /\
  priced s token (req_index r) = true.

(** A same-direction order of positive quantity, paired with the finite
    price observed at its bar. *)
Definition adds (s : Simulator) (token : Z) (sd : string)
    (x : request * Qc) : Prop :=
  upper (req_side (fst x)) = sd /\
  0 < req_quantity (fst x) /\
  price_at (market_data s) (time_index s) token (req_index (fst x))
  = Ok (Fin (snd x)).

(** The position of [scenario_long]. *)
Definition scenario_position : Position.t :=
  Position.new 7 "A" "LONG" 10 (fill_price_of (Fin 0%Qc) (of_int 100) "BUY") 0.

(* ================================================================= *)
(** ** Bulk liquidation *)

(** The body of the loop of [square_off_all]. *)
Definition square_off_body (dt_index : Z) (token : Z) : M unit :=
  ps <- gets positions ;;
  match Dict.get token ps with
  | None => raise (KeyError token)
  | Some pos =>
      if String.eqb (Position.side pos) "LONG"
      then place_order token (Position.symbol pos) "SELL"
             (Position.quantity pos) dt_index ;; ret tt
      else place_order token (Position.symbol pos) "BUY"
             (Position.quantity pos) dt_index ;; ret tt
  end.

(** The order that flattens an entry of the mapping. *)
Definition flattening_order (kv : Z * Position.t) (o : Order.t) : Prop :=
  Order.token o = fst kv /\
  Order.side o = closing_side (snd kv) /\
  Order.quantity o = Position.quantity (snd kv).

(** The trade record of an entry of the mapping closed at the bar. *)
Definition flattening_trade (s : Simulator) (dt_index : Z)
    (kv : Z * Position.t) (t : TradeLog.t) : Prop :=
  TradeLog.instrument t = Position.symbol (snd kv) /\
  TradeLog.side t = Position.side (snd kv) /\
  TradeLog.pnl t =
    fadd (Position.realised_pnl (snd kv))
      (reduction_pnl (snd kv)
         (fill_price_of (slippage s) (observed s (fst kv) dt_index)
            (closing_side (snd kv)))
         (Position.quantity (snd kv))).

(* ================================================================= *)
(** ** Book-keeping of the engine *)

(** What [place_order] writes into an entry of the mapping and never
    changes afterwards while the entry is there. *)
Definition well_formed_entry (token : Z) (pos : Position.t) : Prop :=
  Position.token pos = token /\
  (Position.side pos = "LONG"%string \/ Position.side pos = "SHORT"%string) /\
  Position.exit_price pos = None /\
  Position.exit_time pos = None /\
  Position.stop_loss pos = None /\
  Position.target pos = None /\
  Position.margin_required pos = Fin 0%Qc.

Definition positions_well_formed (s : Simulator) : Prop :=
  Dict.wf (positions s) /\
  forall token pos,
    Dict.get token (positions s) = Some pos -> well_formed_entry token pos.

(** The ids of the orders are 1, 2, ... in the order of placement, and the
    counter is the next one. *)
Definition order_ids_consecutive (s : Simulator) : Prop :=
  order_id_counter s = 1 + Z.of_nat (List.length (orders s)) /\
  map Order.order_id (orders s)
  = map Z.of_nat (seq 1 (List.length (orders s))).

(** The shape of every order the engine records. *)
Definition filled_order (o : Order.t) : Prop :=
  Order.status o = "FILLED"%string /\
  Order.order_type o = "MARKET"%string /\
  (Order.side o = "BUY"%string \/ Order.side o = "SELL"%string) /\
  (exists fill_price, Order.executed_price o = Some fill_price) /\
  Order.filled_time o = Some (Order.timestamp o).

(** The cash after an order, from the cash before it. *)
Definition cash_flow (c : float) (o : Order.t) : float :=
  match Order.executed_price o with
  | None => c
  | Some fill_price =>
      if String.eqb (Order.side o) "BUY"
      then fsub c (fmul fill_price (of_int (Order.quantity o)))
      else fadd c (fmul fill_price (of_int (Order.quantity o)))
  end.

(** The configuration of the engine and its oracle. *)
Definition same_config (s0 s : Simulator) : Prop :=
  market_data s = market_data s0 /\
  starting_cash s = starting_cash s0 /\
  slippage s = slippage s0 /\
  max_daily_loss s = max_daily_loss s0 /\
  debug s = debug s0.

(** The order list and the trade log of [s] extend those of [s0]. *)
Definition extends_logs (s0 s : Simulator) : Prop :=
  (exists new_orders, orders s = orders s0 ++ new_orders) /\
  (exists new_trades, trade_log s = trade_log s0 ++ new_trades).

(** The condition a call puts on the order it places, if any. *)
Definition call_ok (ok : Z -> string -> Z -> Simulator -> Prop)
    (c : call) (s : Simulator) : Prop :=
  match c with
  | PlaceOrder token _ side quantity _ => ok token (upper side) quantity s
  | _ => True
  end.

Definition any_order (token : Z) (sd : string) (quantity : Z)
    (s : Simulator) : Prop := True.

(* ================================================================= *)
(** ** Finite values and the sign of an order *)


(** +1 for a BUY, -1 for a SELL. *)
Definition order_sign (sd : string) : Qc :=
  if String.eqb sd "BUY" then 1%Qc else (- (1))%Qc.

(* ================================================================= *)
(** ** models.py: stop and target *)

(** [x <= y] *)
Definition fle (x y : float) : bool := fge y x.

(** [Position.check_stop_target] *)
Definition check_stop_target (pos : Position.t) (current_price : float)
    : bool * bool :=
  match Position.stop_loss pos, Position.target pos with
  | None, None => (false, false)
  | _, _ =>
      if String.eqb (upper (Position.side pos)) "LONG" then
        (match Position.stop_loss pos with
         | Some stop_loss => fle current_price stop_loss
         | None => false
         end,
         match Position.target pos with
         | Some target => fge current_price target
         | None => false
         end)
      else
        (match Position.stop_loss pos with
         | Some stop_loss => fge current_price stop_loss
         | None => false
         end,
         match Position.target pos with
         | Some target => fle current_price target
         | None => false
         end)
  end.

(** The frame is in index order. *)
Definition sorted_frame (df : DataFrame) : Prop :=
  StronglySorted (fun a b => fst a <= fst b) df.

(** The engine [s] with the frame of [token] replaced by [df]. *)
Definition with_frame (token : Z) (df : DataFrame) (s : Simulator) : Simulator :=
  mkSimulator (Dict.setitem token df (market_data s)) (starting_cash s) (cash s)
    (slippage s) (max_daily_loss s) (debug s) (order_id_counter s) (orders s)
    (positions s) (trade_log s) (time_index s) (current_index s).

(* ================================================================= *)
(** ** indicators.py: strikes *)

(** The errors of [round] on a float that is no number: [ValueError] for
    not-a-number, [OverflowError] for an infinity.  Prices are numpy
    floats, as [get_market_price] returns them: dividing one by a step of 0
    gives not-a-number or an infinity, which [round] then refuses (a plain
    Python float would raise [ZeroDivisionError] at the division; in both
    readings a step of 0 ends in an error). *)
Inductive conversion_error : Type :=
| NaNToInteger
| InfinityToInteger.

(** [round(x)] without digits: to the nearest integer, halves to the even
    one. *)
Definition round_half_even (x : Q) : Z :=
  let f := Qfloor x in
  match (x - inject_Z f ?= 1 # 2)%Q with
  | Lt => f
  | Gt => f + 1
  | Eq => if Z.even f then f else f + 1
  end.

(** [nearest_strike] with the quotient [price / step] taken exactly; the
    quotient rounded to a double is in [Binary64.nearest_strike]. *)
Definition nearest_strike (price : float) (step : Z) : conversion_error + Z :=
  match fdiv price (of_int step) with
  | NaN => inl NaNToInteger
  | Inf _ => inl InfinityToInteger
  | Fin q => inr (round_half_even q * step)
  end.

(* ================================================================= *)
(** ** indicators.py: averages and momentum *)

(** [series.ewm(alpha=alpha, adjust=False).mean()] on a series without
    missing values, in exact arithmetic: the first value is kept, and each
    later one is [(1 - alpha) * previous + alpha * x]. *)
Fixpoint ewm_from (alpha prev : Qc) (xs : list Qc) : list Qc :=
  match xs with
  | [] => []
  | x :: rest =>
      let y := ((1 - alpha) * prev + alpha * x)%Qc in
      y :: ewm_from alpha y rest
  end.

Definition ewm_mean (alpha : Qc) (xs : list Qc) : list Qc :=
  match xs with
  | [] => []
  | x :: rest => x :: ewm_from alpha x rest
  end.

(** The errors of [rsi]: [1 / period] with period 0, and the [ValueError]
    of pandas for an alpha outside (0, 1]. *)
Inductive rsi_error : Type :=
| ZeroDivisionError
| AlphaOutOfRange.

(** [series.diff()] after its first, missing, value. *)
Fixpoint diff_from (prev : Qc) (xs : list Qc) : list Qc :=
  match xs with
  | [] => []
  | x :: rest => (x - prev)%Qc :: diff_from x rest
  end.

(** [delta.clip(lower=0)] *)
Definition gain (d : Qc) : Qc := if is_neg d then 0%Qc else d.

(** [-delta.clip(upper=0)] *)
Definition loss (d : Qc) : Qc := if is_neg d then (- d)%Qc else 0%Qc.

(** [100 - (100 / (1 + roll_up / roll_down))] *)
Definition rsi_value (roll_up roll_down : Qc) : float :=
  fsub (of_int 100)
    (fdiv (of_int 100) (fadd (of_int 1) (fdiv (Fin roll_up) (Fin roll_down)))).

Definition rsi (series : list Qc) (period : Z) : rsi_error + list float :=
  if period =? 0 then inl ZeroDivisionError
  else if period <? 0 then inl AlphaOutOfRange
  else
    inr (match series with
         | [] => []
         | x0 :: rest =>
             let delta := diff_from x0 rest in
             let alpha := (1 / Zc period)%Qc in
             let roll_up := ewm_mean alpha (map gain delta) in
             let roll_down := ewm_mean alpha (map loss delta) in
             NaN :: map (fun ud => rsi_value (fst ud) (snd ud))
                      (combine roll_up roll_down)
         end).

(** A value within bounds. *)
Definition between (lo hi x : Qc) : Prop := (lo <= x)%Qc /\ (x <= hi)%Qc.

(* ================================================================= *)
(** ** data_loader.py: the contract table *)

(** One row of the contract table, with the columns the lookups read.
    Timestamps count minutes from a midnight, so that the calendar day of
    [ts] is [ts / 1440] and its time of day is [ts mod 1440]. *)
Record contract : Type := mkContract {
  exchangeInstrumentID : Z;
  NameWithSeries : string;
  ExpiryDatetime : timestamp;
  Description : string
}.

(** [ts.date()] *)
Definition date_of (ts : timestamp) : Z := ts / 1440.

(** [ts.time()], in minutes after midnight. *)
Definition time_of (ts : timestamp) : Z := ts mod 1440.

(** [str(n)] *)
Definition str_of_int (n : Z) : string := NilZero.string_of_int (Z.to_int n).

(** [s.endswith(suffix)]: some tail of [s] is [suffix]. *)
Fixpoint ends_with (s suffix : string) : bool :=
  String.eqb s suffix
  || match s with
     | EmptyString => false
     | String _ rest => ends_with rest suffix
     end.

(** [min] of a column with first value [x] and further values [l]. *)
Fixpoint minimum (x : Z) (l : list Z) : Z :=
  match l with
  | [] => x
  | y :: rest => minimum (Z.min x y) rest
  end.

Definition get_symbol_from_token (contract_df : list contract) (token : Z)
  : option string :=
  match filter (fun row => exchangeInstrumentID row =? token) contract_df with
  | [] => None
  | row :: _ => Some (Description row)
  end.

Definition expiry_date (row : contract) : Z := date_of (ExpiryDatetime row).

Definition find_option_token (contract_df : list contract) (strike : Z)
    (option_type : string) (trade_date : timestamp) : option (Z * string) :=
  let idx_opts :=
    filter (fun row => String.eqb (NameWithSeries row) "NIFTY-OPTIDX") contract_df in
  let candidates :=
    filter (fun row => date_of trade_date <=? expiry_date row) idx_opts in
  match candidates with
  | [] => None
  | first :: others =>
      let nearest := minimum (expiry_date first) (map expiry_date others) in
      let same_expiry :=
        filter (fun row => expiry_date row =? nearest) candidates in
      let suffix := (str_of_int strike ++ upper option_type)%string in
      match filter (fun row => ends_with (Description row) suffix) same_expiry with
      | [] => None
      | row :: _ => Some (exchangeInstrumentID row, Description row)
      end
  end.

(** An index option of the table that has not expired on the day of
    [trade_date]. *)
Definition live_option (contract_df : list contract) (trade_date : timestamp)
    (row : contract) : Prop :=
  In row contract_df /\
  NameWithSeries row = "NIFTY-OPTIDX"%string /\
  date_of trade_date <= expiry_date row.

(** [row] expires no later than any live option. *)
Definition nearest_expiry (contract_df : list contract) (trade_date : timestamp)
    (row : contract) : Prop :=
  forall other,
    live_option contract_df trade_date other ->
    expiry_date row <= expiry_date other.

(** Instrument ids are not repeated in the table. *)
Definition unique_ids (contract_df : list contract) : Prop :=
  NoDup (map exchangeInstrumentID contract_df).

(** A small table: a future, and options of two expiries. *)
Definition scenario_contracts : list contract :=
  [ mkContract 1 "NIFTY-FUTIDX" 43200 "NIFTY FUT";
    mkContract 11 "NIFTY-OPTIDX" 10080 "NIFTY W2 26200CE";
    mkContract 12 "NIFTY-OPTIDX" 10080 "NIFTY W2 26200PE";
    mkContract 21 "NIFTY-OPTIDX" 20160 "NIFTY W3 26200CE";
    mkContract 22 "NIFTY-OPTIDX" 20160 "NIFTY W3 26250CE" ].

(* ================================================================= *)
(** ** strategies: the monad of the callbacks *)

(** [x < y] and [x > y]; false as soon as one side is not-a-number. *)
Definition flt (x y : float) : bool :=
  match fcompare x y with
  | Some Lt => true
  | _ => false
  end.

Definition fgt (x y : float) : bool := flt y x.

(** A callback of a strategy reads and writes the attributes of the
    strategy and, through [self.simulator], the engine.  It may raise the
    engine's exceptions and a few of its own. *)
Inductive strategy_exn : Type :=
| EngineError (e : exn)               (* KeyError, IndexError, ValueError *)
| TypeError                           (* None used as a sequence or a number *)
| RoundError (e : conversion_error)   (* round on a float that is no number *)
| AttributeError.                     (* an attribute that was never assigned *)

(** How a statement ends: control goes to the next statement, the callback
    returns, or an exception leaves it. *)
Inductive flow (A : Type) : Type :=
| Next (a : A)
| Return
| Throw (e : strategy_exn).
Arguments Next {A} a.
Arguments Return {A}.
Arguments Throw {A} e.

Definition Strat (St A : Type) : Type :=
  St -> Simulator -> flow A * St * Simulator.

Definition pure {St A} (a : A) : Strat St A := fun self s => (Next a, self, s).

Definition return_ {St A} : Strat St A := fun self s => (Return, self, s).

Definition throw {St A} (e : strategy_exn) : Strat St A :=
  fun self s => (Throw e, self, s).

Definition and_then {St A B} (m : Strat St A) (k : A -> Strat St B) : Strat St B :=
  fun self s =>
    match m self s with
    | (Next a, self', s') => k a self' s'
    | (Return, self', s') => (Return, self', s')
    | (Throw e, self', s') => (Throw e, self', s')
    end.

(** A call of a method of [self.simulator]. *)
Definition simulator {St A} (m : M A) : Strat St A :=
  fun self s =>
    match m s with
    | (Ok a, s') => (Next a, self, s')
    | (Raise e, s') => (Throw (EngineError e), self, s')
    end.

(** Read an attribute of the strategy. *)
Definition attr {St A} (f : St -> A) : Strat St A :=
  fun self s => (Next (f self), self, s).

(** Assign to an attribute of the strategy. *)
Definition assign {St} (f : St -> St) : Strat St unit :=
  fun self s => (Next tt, f self, s).

Declare Scope strat_scope.
Delimit Scope strat_scope with strat.
Notation "x <- m ;; k" := (and_then m (fun x => k))
  (at level 61, m at next level, right associativity) : strat_scope.
Notation "m ;; k" := (and_then m (fun _ => k))
  (at level 61, right associativity) : strat_scope.
Local Open Scope strat_scope.

(** [self.simulator.time_index[dt_index]], read without the engine's
    guards. *)
Definition bar_time {St} (dt_index : Z) : Strat St timestamp :=
  idx <- simulator (gets time_index) ;;
  match idx with
  | None => throw TypeError
  | Some l =>
      match getitem l dt_index with
      | Some ts => pure ts
      | None => throw (EngineError IndexError)
      end
  end.

(** [series.iloc[dt_index] if dt_index < len(series) else np.nan] *)
Definition value_at {St} (series : list float) (dt_index : Z) : Strat St float :=
  if dt_index <? Z.of_nat (List.length series) then
    match getitem series dt_index with
    | Some v => pure v
    | None => throw (EngineError IndexError)
    end
  else pure NaN.

(** [loader.get_symbol_from_token(token) or str(token)] *)
Definition symbol_or_token (contract_df : list contract) (token : Z) : string :=
  match get_symbol_from_token contract_df token with
  | Some description =>
      if String.eqb description "" then str_of_int token else description
  | None => str_of_int token
  end.

(** [self.simulator.positions.get(token)] *)
Definition position_of {St} (token : Z) : Strat St (option Position.t) :=
  simulator (gets (fun s => Dict.get token (positions s))).

(* ================================================================= *)
(** ** strategies/mean_reversion.py *)

(** The contract table of the loader is only read by the strategies; it is
    an argument of the callbacks that use it.  The bands and the
    oscillator are the series [on_start] has stored, whatever they are. *)
Module MeanReversion.

Record t : Type := mk {
  token : Z;
  ema_series : list float;
  middle_band : list float;
  upper_band : list float;
  lower_band : list float;
  rsi_series : list float;
  in_position : option string;
  entry_index : option Z;
  entry_price : option float
}.

Definition new (symbol_token : Z) : t :=
  mk symbol_token [] [] [] [] [] None None None.

Definition set_in_position (v : option string) (self : t) : t :=
  mk (token self) (ema_series self) (middle_band self) (upper_band self)
    (lower_band self) (rsi_series self) v (entry_index self) (entry_price self).

Definition set_entry_index (v : option Z) (self : t) : t :=
  mk (token self) (ema_series self) (middle_band self) (upper_band self)
    (lower_band self) (rsi_series self) (in_position self) v (entry_price self).

Definition set_entry_price (v : option float) (self : t) : t :=
  mk (token self) (ema_series self) (middle_band self) (upper_band self)
    (lower_band self) (rsi_series self) (in_position self) (entry_index self) v.

(** The branch [if self.in_position is None] of [on_bar]. *)
Definition enter (contract_df : list contract) (dt_index : Z)
    (price ema_val upper_val lower_val rsi_val : float) : Strat t unit :=
  tok <- attr token ;;
  if fle price lower_val && flt rsi_val (of_int 30) && fgt price ema_val then
    simulator (place_order tok (symbol_or_token contract_df tok) "BUY" 1 dt_index) ;;
    assign (set_in_position (Some "LONG"%string)) ;;
    assign (set_entry_index (Some dt_index)) ;;
    assign (set_entry_price (Some price))
  else if fge price upper_val && fgt rsi_val (of_int 70) && flt price ema_val then
    simulator (place_order tok (symbol_or_token contract_df tok) "SELL" 1 dt_index) ;;
    assign (set_in_position (Some "SHORT"%string)) ;;
    assign (set_entry_index (Some dt_index)) ;;
    assign (set_entry_price (Some price))
  else pure tt.

(** Its [else] branch, with [held] the value of [self.in_position]. *)
Definition manage (contract_df : list contract) (dt_index : Z) (held : string)
    (price ema_val rsi_val : float) : Strat t unit :=
  tok <- attr token ;;
  pos <- position_of tok ;;
  match pos with
  | None => assign (set_in_position None) ;; return_
  | Some pos =>
      if String.eqb held "LONG"
         && (flt price ema_val || fge rsi_val (of_int 50)) then
        simulator (place_order tok (symbol_or_token contract_df tok) "SELL"
                     (Position.quantity pos) dt_index) ;;
        assign (set_in_position None) ;;
        assign (set_entry_index None) ;;
        assign (set_entry_price None)
      else if String.eqb held "SHORT"
              && (fgt price ema_val || fle rsi_val (of_int 50)) then
        simulator (place_order tok (symbol_or_token contract_df tok) "BUY"
                     (Position.quantity pos) dt_index) ;;
        assign (set_in_position None) ;;
        assign (set_entry_index None) ;;
        assign (set_entry_price None)
      else pure tt
  end.

(** The last block of [on_bar]: square off at 15:15. *)
Definition square_off_at_close (contract_df : list contract) (dt_index : Z)
    (ts : timestamp) : Strat t unit :=
  held <- attr in_position ;;
  if (time_of ts =? 15 * 60 + 15)
     && match held with Some _ => true | None => false end then
    tok <- attr token ;;
    pos <- position_of tok ;;
    match pos with
    | Some pos =>
        let side :=
          (if String.eqb (Position.side pos) "LONG" then "SELL" else "BUY")%string in
        simulator (place_order tok (symbol_or_token contract_df tok) side
                     (Position.quantity pos) dt_index) ;;
        pure tt
    | None => pure tt
    end ;;
    assign (set_in_position None)
  else pure tt.

Definition on_bar (contract_df : list contract) (dt_index : Z) : Strat t unit :=
  ts <- bar_time dt_index ;;
  tok <- attr token ;;
  price <- simulator (get_market_price tok dt_index) ;;
  if isnan price then return_ else
  ema_val <- (series <- attr ema_series ;; value_at series dt_index) ;;
  upper_val <- (series <- attr upper_band ;; value_at series dt_index) ;;
  lower_val <- (series <- attr lower_band ;; value_at series dt_index) ;;
  rsi_val <- (series <- attr rsi_series ;; value_at series dt_index) ;;
  if existsb isnan [ema_val; upper_val; lower_val; rsi_val] then return_ else
  held <- attr in_position ;;
  match held with
  | None => enter contract_df dt_index price ema_val upper_val lower_val rsi_val
  | Some held => manage contract_df dt_index held price ema_val rsi_val
  end ;;
  square_off_at_close contract_df dt_index ts.

Definition on_finish (dt_index : Z) : Strat t unit :=
  simulator (square_off_all dt_index) ;;
  assign (set_in_position None) ;;
  assign (set_entry_index None) ;;
  assign (set_entry_price None).

End MeanReversion.

(** The strategy's flag agrees with the engine: no flag and no position of
    the token, or a flag that names the side of a position of one unit. *)
Definition tracks (self : MeanReversion.t) (s : Simulator) : Prop :=
  match MeanReversion.in_position self with
  | None => Dict.get (MeanReversion.token self) (positions s) = None
  | Some held =>
      (held = "LONG"%string \/ held = "SHORT"%string) /\
      exists pos,
        Dict.get (MeanReversion.token self) (positions s) = Some pos /\
        Position.side pos = held /\
        Position.quantity pos = 1
  end.

Local Close Scope strat_scope.

(** The bar has the timestamp [ts] and the token a price there. *)
Definition quoted (token dt_index : Z) (price : float) (ts : timestamp)
    (s : Simulator) : Prop :=
  ts_at (time_index s) dt_index = Ok ts /\
  price_at (market_data s) (time_index s) token dt_index = Ok price /\
  isnan price = false.

(** The value [value_at] reads; [None] is its [IndexError]. *)
Definition reading (series : list float) (dt_index : Z) : option float :=
  if dt_index <? Z.of_nat (List.length series) then getitem series dt_index
  else Some NaN.

(** A strategy on token 7 whose series give the long signal at bars 0 and
    1: the close touches the lower band, the oscillator reads 25 and the
    close is above the average. *)
Definition scenario_strategy : MeanReversion.t :=
  MeanReversion.mk 7
    [of_int 90; of_int 95; of_int 95]
    [of_int 110; of_int 120; of_int 120]
    [of_int 120; of_int 130; of_int 130]
    [of_int 100; of_int 110; of_int 110]
    [of_int 25; of_int 25; of_int 25]
    None None None.

(* ================================================================= *)
(** ** strategies/straddle.py *)

Local Open Scope strat_scope.

Module Straddle.

(** [stop_loss] and [target] are attributes only once an entry has
    assigned them. *)
Record t : Type := mk {
  index_token : Z;
  call_token : option Z;
  put_token : option Z;
  premium_collected : float;
  open_trades : bool;
  trade_date : option Z;
  stop_loss : option float;
  target : option float
}.

Definition new (index_token : Z) : t :=
  mk index_token None None (Fin 0%Qc) false None None None.

Definition set_call_token (v : option Z) (self : t) : t :=
  mk (index_token self) v (put_token self) (premium_collected self)
    (open_trades self) (trade_date self) (stop_loss self) (target self).

Definition set_put_token (v : option Z) (self : t) : t :=
  mk (index_token self) (call_token self) v (premium_collected self)
    (open_trades self) (trade_date self) (stop_loss self) (target self).

Definition set_premium_collected (v : float) (self : t) : t :=
  mk (index_token self) (call_token self) (put_token self) v
    (open_trades self) (trade_date self) (stop_loss self) (target self).

Definition set_open_trades (v : bool) (self : t) : t :=
  mk (index_token self) (call_token self) (put_token self)
    (premium_collected self) v (trade_date self) (stop_loss self) (target self).

Definition set_trade_date (v : option Z) (self : t) : t :=
  mk (index_token self) (call_token self) (put_token self)
    (premium_collected self) (open_trades self) v (stop_loss self) (target self).

Definition set_stop_loss (v : option float) (self : t) : t :=
  mk (index_token self) (call_token self) (put_token self)
    (premium_collected self) (open_trades self) (trade_date self) v (target self).

Definition set_target (v : option float) (self : t) : t :=
  mk (index_token self) (call_token self) (put_token self)
    (premium_collected self) (open_trades self) (trade_date self)
    (stop_loss self) v.

Definition on_start (dt_index : Z) : Strat t unit :=
  ts <- bar_time dt_index ;;
  assign (set_trade_date (Some (date_of ts))).

(** The block [# Enter straddle at 09:20] of [on_bar]; every path through
    it ends in [return] or in an exception. *)
Definition enter (contract_df : list contract) (dt_index : Z) (ts : timestamp)
    : Strat t unit :=
  index <- attr index_token ;;
  underlying <- simulator (get_market_price index dt_index) ;;
  if isnan underlying then return_ else
  strike <- match nearest_strike underlying 50 with
            | inr strike => pure strike
            | inl e => throw (RoundError e)
            end ;;
  let call_res := find_option_token contract_df strike "CE" ts in
  let put_res := find_option_token contract_df strike "PE" ts in
  match call_res, put_res with
  | Some (call_token, call_symbol), Some (put_token, put_symbol) =>
      assign (set_call_token (Some call_token)) ;;
      assign (set_put_token (Some put_token)) ;;
      call_order <-
        simulator (place_order call_token call_symbol "SELL" 1 dt_index) ;;
      put_order <-
        simulator (place_order put_token put_symbol "SELL" 1 dt_index) ;;
      premium <- match Order.executed_price call_order,
                       Order.executed_price put_order with
                 | Some call_price, Some put_price =>
                     pure (fadd call_price put_price)
                 | _, _ => throw TypeError
                 end ;;
      assign (set_premium_collected premium) ;;
      (* -0.25 * premium and 0.5 * premium *)
      assign (set_stop_loss (Some (fmul (Fin (Q2Qc (-1 # 4))) premium))) ;;
      assign (set_target (Some (fmul (Fin (Q2Qc (1 # 2))) premium))) ;;
      assign (set_open_trades true) ;;
      return_
  | _, _ => return_
  end.

(** [self.simulator.positions.get(token)] for an attribute that may still
    be [None], which is the key of no position. *)
Definition leg (token : option Z) : Strat t (option Position.t) :=
  match token with
  | Some k => position_of k
  | None => pure None
  end.

(** The block [# Manage exits]. *)
Definition manage (dt_index : Z) : Strat t unit :=
  opened <- attr open_trades ;;
  if opened then
    call_token <- attr call_token ;;
    put_token <- attr put_token ;;
    call_pos <- leg call_token ;;
    put_pos <- leg put_token ;;
    match call_token, call_pos, put_token, put_pos with
    | Some call_token, Some call_pos, Some put_token, Some put_pos =>
        call_price <- simulator (get_market_price call_token dt_index) ;;
        put_price <- simulator (get_market_price put_token dt_index) ;;
        let call_pnl := Position.update_pnl call_pos call_price in
        let put_pnl := Position.update_pnl put_pos put_price in
        let total_pnl :=
          fadd (fadd (fadd call_pnl put_pnl) (Position.realised_pnl call_pos))
            (Position.realised_pnl put_pos) in
        stop <- attr stop_loss ;;
        breach <- match stop with
                  | None => throw AttributeError
                  | Some stop =>
                      if fle total_pnl stop then pure true
                      else
                        target <- attr target ;;
                        match target with
                        | None => throw AttributeError
                        | Some target => pure (fge total_pnl target)
                        end
                  end ;;
        if breach : bool then
          simulator (square_off_all dt_index) ;;
          assign (set_open_trades false)
        else pure tt
    | _, _, _, _ => return_
    end
  else pure tt.

(** The block [# End of day square off], at 15:10. *)
Definition square_off_before_close (dt_index : Z) (ts : timestamp)
    : Strat t unit :=
  opened <- attr open_trades ;;
  if (time_of ts =? 15 * 60 + 10) && opened then
    simulator (square_off_all dt_index) ;;
    assign (set_open_trades false)
  else pure tt.

Definition on_bar (contract_df : list contract) (dt_index : Z) : Strat t unit :=
  ts <- bar_time dt_index ;;
  opened <- attr open_trades ;;
  (if (time_of ts =? 9 * 60 + 20) && negb opened
   then enter contract_df dt_index ts
   else pure tt) ;;
  manage dt_index ;;
  square_off_before_close dt_index ts.

Definition on_finish (dt_index : Z) : Strat t unit :=
  opened <- attr open_trades ;;
  if opened then
    simulator (square_off_all dt_index) ;;
    assign (set_open_trades false)
  else pure tt.

End Straddle.

Local Close Scope strat_scope.

(** A short position of one unit entered at [entry], with nothing
    realised yet. *)
Definition short_unit (pos : Position.t) (entry : Qc) : Prop :=
  Position.side pos = "SHORT"%string /\
  Position.quantity pos = 1 /\
  Position.entry_price pos = Fin entry /\
  Position.realised_pnl pos = Fin 0%Qc.

(** The strategy and the engine as an entry at the prices [c] and [p]
    leaves them: both legs short one unit, the premium [c + p] recorded,
    the stop at -0.25 and the target at 0.5 times the premium. *)
Definition straddle_open (self : Straddle.t) (s : Simulator)
    (call put : Z) (c p : Qc) : Prop :=
  Straddle.open_trades self = true /\
  Straddle.call_token self = Some call /\
  Straddle.put_token self = Some put /\
  Straddle.premium_collected self = Fin (c + p)%Qc /\
  Straddle.stop_loss self = Some (Fin (Q2Qc (-1 # 4) * (c + p))%Qc) /\
  Straddle.target self = Some (Fin (Q2Qc (1 # 2) * (c + p))%Qc) /\
  (exists pos, Dict.get call (positions s) = Some pos /\ short_unit pos c) /\
  (exists pos, Dict.get put (positions s) = Some pos /\ short_unit pos p).

(** An index at 26210 and the two options of strike 26200 of the nearest
    expiry, at 12 and 8 at 09:20 and at 16 and 10 a minute later. *)
Definition straddle_data : Dict.t DataFrame :=
  [(1, [(560, of_int 26210); (561, of_int 26215)]);
   (11, [(560, of_int 12); (561, of_int 16)]);
   (12, [(560, of_int 8); (561, of_int 10)])].

Definition straddle_engine : Simulator :=
  snd (set_time_index [560; 561]
         (init straddle_data (of_int 1000000) (Fin 0%Qc) None false)).

(* ================================================================= *)
(** ** Binary floating point *)

(** The numbers of the code are IEEE 754 doubles: each arithmetic
    operation returns the double nearest to the exact result, a tie going
    to the even mantissa and a magnitude of [2 ^ 1024 - 2 ^ 970] or more to
    an infinity.  [round64] is that rounding, so that an exact operation
    followed by [round64] is the operation of the code on doubles.  The
    sign of zero is not modelled. *)

(** [2 ^ k] for an exponent of either sign. *)
Definition pow2 (k : Z) : Q := Qpower 2 k.

(** The exponent of the last place of the double nearest to [q > 0]:
    [e - 52] when [2 ^ e <= q < 2 ^ (e + 1)], and [-1074] among the
    subnormal numbers. *)
Definition ulp_exponent (q : Q) : Z :=
  let e0 := Z.log2 (Qnum q) - Z.log2 (Zpos (Qden q)) in
  let e := if Qle_bool (pow2 e0) q then e0 else e0 - 1 in
  Z.max (e - 52) (-1074).

(** The double nearest to [q > 0]. *)
Definition round64_pos (q : Q) : float :=
  let u := ulp_exponent q in
  let v := (inject_Z (round_half_even (q / pow2 u)) * pow2 u)%Q in
  if Qle_bool (pow2 1024) v then Inf false else Fin (Q2Qc v).

Definition round64 (x : float) : float :=
  match x with
  | Fin q =>
      match (this q ?= 0)%Q with
      | Eq => x
      | Gt => round64_pos (this q)
      | Lt => fneg (round64_pos (- this q))
      end
  | _ => x
  end.

(** [x + y], [x - y], [x * y] and [x / y] on doubles. *)
Definition radd (x y : float) : float := round64 (fadd x y).

Definition rsub (x y : float) : float := round64 (fsub x y).

Definition rmul (x y : float) : float := round64 (fmul x y).

Definition rdiv (x y : float) : float := round64 (fdiv x y).

(** The double written as the decimal [n / d]. *)
Definition double (n : Z) (d : positive) : float := round64 (Fin (Q2Qc (n # d))).

(** The valuation methods with the arithmetic of doubles.  They are the
    methods of [Simulator] and [Position] again, each operation rounded;
    [get_market_price] computes nothing and is shared.  An [int] operand is
    converted to the nearest double first; the [OverflowError] of Python
    for an [int] beyond the doubles is not modelled. *)
Module Binary64.

Definition update_pnl (p : Position.t) (current_price : float) : float :=
  if String.eqb (upper (Position.side p)) "LONG"
  then rmul (rsub current_price (Position.entry_price p))
         (round64 (of_int (Position.quantity p)))
  else rmul (rsub (Position.entry_price p) current_price)
         (round64 (of_int (Position.quantity p))).

Fixpoint mark_to_market_loop (items : list (Z * Position.t)) (dt_index : Z)
    (total : float) : M float :=
  match items with
  | [] => ret total
  | (token, pos) :: rest =>
      price <- get_market_price token dt_index ;;
      let total :=
        if negb (isnan price)
        then radd total (update_pnl pos price)
        else total in
      mark_to_market_loop rest dt_index total
  end.

Definition mark_to_market (dt_index : Z) : M float :=
  items <- gets (fun s => Dict.items (positions s)) ;;
  mark_to_market_loop items dt_index (Fin 0%Qc).

Definition total_equity (dt_index : Z) : M float :=
  cash <- gets cash ;;
  mtm <- mark_to_market dt_index ;;
  ret (radd cash mtm).

Definition check_max_loss (dt_index : Z) : M bool :=
  limit <- gets max_daily_loss ;;
  match limit with
  | None => ret false
  | Some max_daily_loss =>
      equity <- total_equity dt_index ;;
      starting_cash <- gets starting_cash ;;
      let loss := rsub starting_cash equity in
      ret (fge loss max_daily_loss)
  end.

(** [indicators.nearest_strike]: the step is converted to a double, the
    quotient is rounded to a double, and [round] and the product that
    follow are on integers. *)
Definition nearest_strike (price : float) (step : Z) : conversion_error + Z :=
  match rdiv price (round64 (of_int step)) with
  | NaN => inl NaNToInteger
  | Inf _ => inl InfinityToInteger
  | Fin q => inr (round_half_even q * step)
  end.

(** [StraddleSellerStrategy.on_bar]: the stop and the target set at the
    entry, [-0.25] and [0.5] times the premium collected. *)
Definition straddle_levels (call_price put_price : float) : float * float :=
  let premium_collected := radd call_price put_price in
  (rmul (double (-25) 100) premium_collected,
   rmul (double 5 10) premium_collected).

(** [StraddleSellerStrategy.on_bar]: the [total_pnl] that the exit block
    compares with the levels. *)
Definition straddle_pnl (call_pos put_pos : Position.t)
    (call_price put_price : float) : float :=
  let call_pnl := update_pnl call_pos call_price in
  let put_pnl := update_pnl put_pos put_price in
  radd (radd (radd call_pnl put_pnl) (Position.realised_pnl call_pos))
       (Position.realised_pnl put_pos).

End Binary64.

(** [x] is at least [y], in the order of the real numbers extended with
    the two infinities; not-a-number is in no order with anything. *)
Definition at_least (x y : float) : Prop :=
  match x, y with
  | NaN, _ | _, NaN => False
  | Inf false, _ => True
  | _, Inf true => True
  | Inf true, _ => False
  | Fin _, Inf false => False
  | Fin p, Fin q => (q <= p)%Qc
  end.

(** A breaker of 778913.8 on an engine that started with 1,000,000, bought
    196 units at 1990.5 and sees them marked at 6.95. *)
Definition breaker_engine : Simulator :=
  snd (place_order 7 "A" "BUY" 196 0
         (snd (set_time_index [0; 1]
                 (init [(7, [(0, double 19905 10); (1, double 695 100)])]
                    (of_int 1000000) (Fin 0%Qc)
                    (Some (double 7789138 10)) false)))).

(* ================================================================= *)
(** ** Realised PnL of reductions *)

(** The realised PnL of a position entered at [entry] after reductions
    (fill price, quantity), from what it had [realised] before: each
    reduction in turn adds [(fill - entry) * quantity] for a long position
    and [(entry - fill) * quantity] for a short one. *)
Fixpoint realised_sum (long : bool) (entry : Qc) (fills : list (Qc * Z))
    (realised : Qc) : Qc :=
  match fills with
  | [] => realised
  | (f, q) :: rest =>
      realised_sum long entry rest
        (realised + (if long then f - entry else entry - f) * Zc q)%Qc
  end.

(** An opposite-direction order of positive quantity, paired with the
    finite price observed at its bar. *)
Definition closes (s : Simulator) (token : Z) (pos : Position.t)
    (x : request * Qc) : Prop :=
  upper (req_side (fst x)) = closing_side pos /\
  0 < req_quantity (fst x) /\
  price_at (market_data s) (time_index s) token (req_index (fst x))
  = Ok (Fin (snd x)).

(* ================================================================= *)
(** * Properties *)

(* ================================================================= *)
(** ** Facts about the containers *)

Module DictFacts.
Import Dict.

Lemma get_setitem_same {V} (k : Z) (v : V) (d : t V) :
  get k (setitem k v d) = Some v.
Proof.
  induction d as [|[k' v'] d IH]; simpl.
  - now rewrite Z.eqb_refl.
  - destruct (k =? k') eqn:E; simpl; rewrite ?Z.eqb_refl, ?E; auto.
Qed.

Lemma get_setitem_other {V} (k k' : Z) (v : V) (d : t V) :
  k <> k' -> get k' (setitem k v d) = get k' d.
Proof.
  intros Hne. induction d as [|[k0 v0] d IH]; simpl.
  - destruct (k' =? k) eqn:E; auto. apply Z.eqb_eq in E. congruence.
  - destruct (k =? k0) eqn:E; simpl.
    + apply Z.eqb_eq in E. subst k0.
      destruct (k' =? k) eqn:E'; auto. apply Z.eqb_eq in E'. congruence.
    + now rewrite IH.
Qed.

Lemma setitem_setitem {V} (k : Z) (v1 v2 : V) (d : t V) :
  setitem k v2 (setitem k v1 d) = setitem k v2 d.
Proof.
  induction d as [|[k' v'] d IH]; simpl.
  - now rewrite Z.eqb_refl.
  - destruct (k =? k') eqn:E; simpl; rewrite ?Z.eqb_refl, ?E; congruence.
Qed.

Lemma delitem_setitem {V} (k : Z) (v : V) (d : t V) :
  delitem k (setitem k v d) = delitem k d.
Proof.
  unfold delitem. induction d as [|[k' v'] d IH]; simpl.
  - now rewrite Z.eqb_refl.
  - destruct (k =? k') eqn:E; simpl; rewrite ?Z.eqb_refl, ?E; simpl; congruence.
Qed.

Lemma get_delitem_same {V} (k : Z) (d : t V) : get k (delitem k d) = None.
Proof.
  unfold delitem. induction d as [|[k' v'] d IH]; simpl; auto.
  destruct (k =? k') eqn:E; simpl; rewrite ?E; auto.
Qed.

Lemma get_delitem_other {V} (k k' : Z) (d : t V) :
  k <> k' -> get k' (delitem k d) = get k' d.
Proof.
  intros Hne. unfold delitem. induction d as [|[k0 v0] d IH]; simpl; auto.
  destruct (k =? k0) eqn:E; simpl.
  - apply Z.eqb_eq in E. subst k0.
    destruct (k' =? k) eqn:E'; auto. apply Z.eqb_eq in E'. congruence.
  - now rewrite IH.
Qed.

Lemma mem_setitem {V} (k : Z) (v : V) (d : t V) : mem k (setitem k v d) = true.
Proof. unfold mem. now rewrite get_setitem_same. Qed.

Lemma get_None_not_key {V} (k : Z) (d : t V) :
  get k d = None <-> ~ In k (keys d).
Proof.
  unfold keys. induction d as [|[k' v'] d IH]; simpl.
  - tauto.
  - destruct (k =? k') eqn:E.
    + apply Z.eqb_eq in E. split; [discriminate | intros H; exfalso; auto].
    + apply Z.eqb_neq in E. rewrite IH. split; intros H; [intros [H1|H1] | ]; auto.
Qed.

Lemma delitem_absent {V} (k : Z) (d : t V) :
  ~ In k (keys d) -> delitem k d = d.
Proof.
  unfold delitem, keys. induction d as [|[k' v'] d IH]; simpl; auto.
  intros H. destruct (k =? k') eqn:E.
  - apply Z.eqb_eq in E. exfalso; auto.
  - simpl. f_equal. apply IH. auto.
Qed.

(** Deleting the first key of a well-formed dict leaves the others. *)
Lemma delitem_head {V} (k : Z) (v : V) (d : t V) :
  wf ((k, v) :: d) -> delitem k ((k, v) :: d) = d.
Proof.
  unfold wf; simpl. intros H. inversion H; subst.
  unfold delitem at 1; simpl. rewrite Z.eqb_refl; simpl.
  now apply delitem_absent.
Qed.

Lemma keys_setitem_in {V} (k k' : Z) (v : V) (d : t V) :
  In k' (keys (setitem k v d)) <-> k' = k \/ In k' (keys d).
Proof.
  unfold keys. induction d as [|[k0 v0] d IH]; simpl.
  - intuition.
  - destruct (k =? k0) eqn:E; simpl.
    + apply Z.eqb_eq in E. subst. intuition.
    + rewrite IH. intuition.
Qed.

Lemma wf_setitem {V} (k : Z) (v : V) (d : t V) : wf d -> wf (setitem k v d).
Proof.
  unfold wf. induction d as [|[k0 v0] d IH]; simpl; intros H.
  - constructor; [simpl; tauto | constructor].
  - inversion H; subst. destruct (k =? k0) eqn:E; simpl.
    + apply Z.eqb_eq in E. subst. now constructor.
    + apply Z.eqb_neq in E. constructor; auto.
      intros Hin. apply (keys_setitem_in k k0 v d) in Hin.
      destruct Hin; [congruence | auto].
Qed.

Lemma wf_delitem {V} (k : Z) (d : t V) : wf d -> wf (delitem k d).
Proof.
  unfold wf, delitem, keys. induction d as [|[k0 v0] d IH]; simpl; intros H; auto.
  inversion H; subst. destruct (k =? k0); simpl; auto.
  constructor; auto. intros Hin. apply in_map_iff in Hin.
  destruct Hin as [[k1 v1] [E Hin]]. simpl in E. subst k1.
  apply filter_In in Hin. destruct Hin as [Hin _].
  apply H2. apply in_map_iff. now exists (k0, v1).
Qed.

End DictFacts.

(* ================================================================= *)
(** ** Facts about the numbers *)

Lemma float_eqb_eq (x y : float) : float_eqb x y = true -> x = y.
Proof.
  destruct x as [|a|p], y as [|b|q]; simpl; try discriminate; auto.
  - intros H. apply Bool.eqb_prop in H. now subst.
  - intros H. apply Qeq_bool_eq in H. f_equal. now apply Qc_is_canon.
Qed.

Lemma Zc_add (a b : Z) : Zc (a + b) = (Zc a + Zc b)%Qc.
Proof.
  unfold Zc. apply Qc_is_canon. unfold Qcplus, Q2Qc. cbn [this].
  rewrite !Qred_correct. rewrite inject_Z_plus. reflexivity.
Qed.

Lemma Zc_nonzero (a : Z) : a <> 0 -> Zc a <> 0%Qc.
Proof.
  intros Ha H. apply Ha. unfold Zc in H.
  apply Q2Qc_eq_iff in H. unfold Qeq in H. simpl in H. lia.
Qed.

Lemma is_zero_false (q : Qc) : q <> 0%Qc -> is_zero q = false.
Proof.
  intros H. unfold is_zero. destruct (q ?= 0)%Qc eqn:E; auto.
  exfalso. apply H. now apply Qceq_alt.
Qed.

(** [fge] on finite values is the order of the rationals. *)
Lemma fge_Fin (a b : Qc) : fge (Fin a) (Fin b) = true <-> (b <= a)%Qc.
Proof.
  unfold fge, fcompare. rewrite Qcle_alt. unfold Qccompare.
  rewrite <- (Qcompare_antisym a b).
  destruct (a ?= b)%Q; simpl; split; congruence.
Qed.

Lemma fge_NaN_l (y : float) : fge NaN y = false.
Proof. reflexivity. Qed.

Lemma fge_NaN_r (x : float) : fge x NaN = false.
Proof. destruct x; reflexivity. Qed.

(* ================================================================= *)
(** ** The oracle and the fill, as functions *)

Lemma time_at_eq (dt_index : Z) (s : Simulator) :
  time_at dt_index s = (ts_at (time_index s) dt_index, s).
Proof.
  unfold time_at, ts_at, bind, gets.
  destruct (time_index s) as [l|]; [ | reflexivity].
  destruct (getitem l dt_index); reflexivity.
Qed.

Lemma get_market_price_eq (token dt_index : Z) (s : Simulator) :
  get_market_price token dt_index s
  = (price_at (market_data s) (time_index s) token dt_index, s).
Proof.
  unfold get_market_price, price_at, bind, gets.
  destruct (negb (Dict.mem token (market_data s))); [reflexivity | ].
  destruct (match time_index s with
            | Some l => dt_index >=? Z.of_nat (List.length l)
            | None => true
            end); [reflexivity | ].
  rewrite time_at_eq. destruct (ts_at (time_index s) dt_index); [ | reflexivity].
  destruct (Dict.get token (market_data s)); reflexivity.
Qed.

(** A price that was read means the bar has a timestamp. *)
Lemma price_at_ts md idx token dt_index price :
  price_at md idx token dt_index = Ok price ->
  exists ts, ts_at idx dt_index = Ok ts.
Proof.
  unfold price_at. destruct (negb (Dict.mem token md)); [discriminate | ].
  destruct (match idx with
            | Some l => dt_index >=? Z.of_nat (List.length l)
            | None => true
            end); [discriminate | ].
  destruct (ts_at idx dt_index) as [ts|]; [ | discriminate].
  intros _. now exists ts.
Qed.

Lemma reduce_eq pnl token pos fill_price quantity dt_index ts s :
  ts_at (time_index s) dt_index = Ok ts ->
  Dict.get token (positions s) = Some pos ->
  pnl = pnl_of pos ->
  reduce pnl token pos fill_price quantity dt_index s
  = (Ok tt,
     if Position.quantity pos - quantity =? 0 then
       set_positions (Dict.delitem token (positions s))
         (set_trade_log
            (trade_log s ++ [closing_trade pos fill_price quantity ts]) s)
     else
       set_positions
         (Dict.setitem token (reduced pos fill_price quantity) (positions s)) s).
Proof.
  intros Hts Hget ->. destruct s; simpl in *.
  unfold reduce, bind, store, modify; simpl.
  destruct (Position.quantity pos - quantity =? 0) eqn:E.
  - rewrite time_at_eq; simpl. rewrite Hts.
    unfold _record_trade; simpl. unfold modify, del_position, bind, gets; simpl.
    rewrite !DictFacts.setitem_setitem, DictFacts.mem_setitem. unfold modify.
    unfold set_positions, set_trade_log; simpl.
    rewrite DictFacts.delitem_setitem. reflexivity.
  - unfold ret, set_positions; simpl.
    rewrite !DictFacts.setitem_setitem. reflexivity.
Qed.

Lemma average_in_eq token pos fill_price quantity s :
  average_in token pos fill_price quantity s
  = (Ok tt,
     set_positions
       (Dict.setitem token (averaged pos fill_price quantity) (positions s)) s).
Proof.
  destruct s; unfold average_in, bind, store, modify, set_positions; simpl.
  rewrite DictFacts.setitem_setitem. reflexivity.
Qed.

(** A valid side with a price at the bar: the order is filled, and the
    state moves to [filled]. *)
Lemma place_order_filled token symbol side quantity dt_index price s :
  valid_side (upper side) = true ->
  price_at (market_data s) (time_index s) token dt_index = Ok price ->
  isnan price = false ->
  exists ts,
    ts_at (time_index s) dt_index = Ok ts /\
    place_order token symbol side quantity dt_index s
    = (Ok (order_of s token symbol (upper side) quantity price ts),
       filled token symbol (upper side) quantity price ts s).
Proof.
  intros Hside Hprice Hnan.
  destruct (price_at_ts _ _ _ _ _ Hprice) as [ts Hts].
  exists ts. split; [exact Hts | ].
  unfold place_order. unfold valid_side in Hside. rewrite Hside. cbn [negb].
  unfold bind at 1. rewrite get_market_price_eq, Hprice, Hnan.
  unfold filled, settle, after_fill, order_of, fill_price_of, adds_to.
  set (sd := upper side) in *.
  destruct (String.eqb sd "BUY") eqn:Eb.
  - unfold bind, gets, modify; simpl.
    rewrite !time_at_eq; simpl. rewrite Hts.
    destruct (Dict.get token (positions s)) as [pos|] eqn:Hget.
    + destruct (String.eqb (Position.side pos) "LONG") eqn:El.
      * rewrite average_in_eq. reflexivity.
      * assert (Es : String.eqb sd "SELL" = false).
        { apply String.eqb_eq in Eb. rewrite Eb. reflexivity. }
        rewrite Es.
        rewrite (reduce_eq short_pnl token pos _ quantity dt_index ts); auto.
        unfold pnl_of. now rewrite El.
    + rewrite time_at_eq; simpl. rewrite Hts. reflexivity.
  - unfold bind, gets, modify; simpl.
    rewrite !time_at_eq; simpl. rewrite Hts.
    assert (Es : String.eqb sd "SELL" = true).
    { exact Hside. }
    destruct (Dict.get token (positions s)) as [pos|] eqn:Hget.
    + destruct (String.eqb (Position.side pos) "LONG") eqn:El.
      * rewrite (reduce_eq long_pnl token pos _ quantity dt_index ts); auto.
        unfold pnl_of. now rewrite El.
      * rewrite Es. rewrite average_in_eq. reflexivity.
    + rewrite time_at_eq; simpl. rewrite Hts. reflexivity.
Qed.


(** Frame of a fill: the oracle and the configuration are not touched. *)
Lemma filled_frame token symbol sd quantity price ts s :
  let s' := filled token symbol sd quantity price ts s in
  market_data s' = market_data s /\ time_index s' = time_index s /\
  slippage s' = slippage s /\ starting_cash s' = starting_cash s /\
  max_daily_loss s' = max_daily_loss s.
Proof.
  destruct s. unfold filled, settle, after_fill; simpl.
  destruct (Dict.get token positions0) as [pos|]; simpl; [ | tauto].
  destruct (adds_to pos sd); simpl; [tauto | ].
  destruct (Position.quantity pos - quantity =? 0); simpl; tauto.
Qed.

(** [place_order] either raises before it has written anything, or fills. *)
Lemma place_order_cases token symbol side quantity dt_index s :
  (exists e,
     place_order token symbol side quantity dt_index s = (Raise e, s) /\
     ((valid_side (upper side) = false /\ e = ValueError BadSide) \/
      (valid_side (upper side) = true /\
       price_at (market_data s) (time_index s) token dt_index = Raise e) \/
      (valid_side (upper side) = true /\
       (exists price,
          price_at (market_data s) (time_index s) token dt_index = Ok price /\
          isnan price = true) /\
       e = ValueError (NoPrice token dt_index))))
  \/
  (exists price ts,
     valid_side (upper side) = true /\
     price_at (market_data s) (time_index s) token dt_index = Ok price /\
     isnan price = false /\
     ts_at (time_index s) dt_index = Ok ts /\
     place_order token symbol side quantity dt_index s
     = (Ok (order_of s token symbol (upper side) quantity price ts),
        filled token symbol (upper side) quantity price ts s)).
Proof.
  destruct (valid_side (upper side)) eqn:Hside.
  - destruct (price_at (market_data s) (time_index s) token dt_index)
      as [price|e] eqn:Hprice.
    + destruct (isnan price) eqn:Hnan.
      * left. exists (ValueError (NoPrice token dt_index)). split.
        -- unfold place_order. unfold valid_side in Hside. rewrite Hside.
           cbn [negb]. unfold bind at 1.
           rewrite get_market_price_eq, Hprice, Hnan. reflexivity.
        -- right. right. repeat split; eauto.
      * right.
        destruct (place_order_filled token symbol side quantity dt_index price s
                    Hside Hprice Hnan) as [ts [Hts Hrun]].
        exists price, ts. auto.
    + left. exists e. split.
      * unfold place_order. unfold valid_side in Hside. rewrite Hside.
        cbn [negb]. unfold bind at 1.
        rewrite get_market_price_eq, Hprice. reflexivity.
      * right. left. auto.
  - left. exists (ValueError BadSide). split.
    + unfold place_order. unfold valid_side in Hside. rewrite Hside. reflexivity.
    + left. auto.
Qed.

(* ================================================================= *)
(** ** Failure of [place_order] *)

(** C9.  [place_order] is atomic on failure: whenever the call raises,
    for an invalid side, a failed price lookup or a not-a-number price, the
    engine is exactly as before the call, and so are its cash, positions,
    orders, trade log and order-id counter. *)
Theorem place_order_atomic_on_failure token symbol side quantity dt_index s e s' :
  place_order token symbol side quantity dt_index s = (Raise e, s') ->
  s' = s /\
  cash s' = cash s /\ positions s' = positions s /\ orders s' = orders s /\
  trade_log s' = trade_log s /\ order_id_counter s' = order_id_counter s.
Proof.
  intros Hrun.
  assert (E : s' = s).
  { destruct (place_order_cases token symbol side quantity dt_index s)
      as [[e0 [Hr _]] | [price [ts [_ [_ [_ [_ Hr]]]]]]];
      rewrite Hr in Hrun; [ | discriminate].
    now inversion Hrun. }
  subst s'. repeat split.
Qed.

Lemma place_order_atomic_on_failure_witness :
  snd (place_order 7 "A" "BUY" 10 2 scenario_engine) = scenario_engine.
Proof.
  exact (proj1 (place_order_atomic_on_failure 7 "A" "BUY" 10 2 scenario_engine
                  (ValueError (NoPrice 7 2)) _ eq_refl)).
Defined.

(** C7, as the code has it.  The side is upper-cased first: a side of
    ASCII characters whose upper-cased form is neither BUY nor SELL is
    rejected with the [ValueError] of the side check, for every token,
    quantity and bar, and nothing is written. *)
Theorem place_order_rejects_invalid_side token symbol side quantity dt_index s :
  is_ascii side = true ->
  valid_side (upper side) = false ->
  place_order token symbol side quantity dt_index s
  = (Raise (ValueError BadSide), s).
Proof.
  intros _ Hside. unfold place_order. unfold valid_side in Hside.
  rewrite Hside. reflexivity.
Qed.

Lemma place_order_rejects_invalid_side_witness :
  place_order 7 "A" "HOLD" 10 0 scenario_engine
  = (Raise (ValueError BadSide), scenario_engine).
Proof.
  exact (place_order_rejects_invalid_side 7 "A" "HOLD" 10 0 scenario_engine
           eq_refl eq_refl).
Defined.

(** C7, as stated, fails: the side value "buy" is outside {BUY, SELL} and
    the order is filled. *)
Lemma lowercase_side_is_filled :
  ~ (forall side : string,
       side <> "BUY"%string -> side <> "SELL"%string ->
       forall token symbol quantity dt_index s,
       exists e,
         fst (place_order token symbol side quantity dt_index s) = Raise e).
Proof.
  intros H.
  destruct (H "buy"%string ltac:(discriminate) ltac:(discriminate)
              7 "A"%string 10 0 scenario_engine) as [e He].
  vm_compute in He. discriminate.
Qed.

(* ================================================================= *)
(** ** The price lookup *)

Lemma getitem_lt {A} (l : list A) (i : Z) (x : A) :
  getitem l i = Some x -> i < Z.of_nat (List.length l).
Proof.
  unfold getitem. destruct (0 <=? i) eqn:E.
  - intros H. apply Z.leb_le in E.
    assert (Hn : (Z.to_nat i < List.length l)%nat).
    { apply nth_error_Some. congruence. }
    lia.
  - intros _. apply Z.leb_gt in E. lia.
Qed.

Lemma iloc_last_None (df : DataFrame) : iloc_last df = None -> df = [].
Proof.
  unfold iloc_last. destruct (rev df) eqn:E; [ | discriminate].
  intros _. apply (f_equal (@rev _)) in E. now rewrite rev_involutive in E.
Qed.




(* ================================================================= *)
(** ** The queries *)

Lemma mark_to_market_loop_state items dt_index total s :
  snd (mark_to_market_loop items dt_index total s) = s.
Proof.
  revert total. induction items as [|[token pos] rest IH]; intros total; simpl.
  - reflexivity.
  - unfold bind at 1. rewrite get_market_price_eq.
    destruct (price_at (market_data s) (time_index s) token dt_index); simpl.
    + apply IH.
    + reflexivity.
Qed.

Lemma mark_to_market_state dt_index s : snd (mark_to_market dt_index s) = s.
Proof.
  unfold mark_to_market, bind, gets. apply mark_to_market_loop_state.
Qed.

Lemma total_equity_state dt_index s : snd (total_equity dt_index s) = s.
Proof.
  unfold total_equity, bind, gets.
  pose proof (mark_to_market_state dt_index s) as H.
  destruct (mark_to_market dt_index s) as [[v|e] s']; simpl in *; now subst.
Qed.

(** C10.  [mark_to_market] and [total_equity] are read-only: whether they
    return or raise, the engine after the call is the engine before it, so
    cash, the position mapping with every position's quantity, entry price
    and realised PnL, the order list and the trade log are unchanged. *)
Theorem queries_are_read_only dt_index s :
  snd (mark_to_market dt_index s) = s /\ snd (total_equity dt_index s) = s.
Proof.
  split; [apply mark_to_market_state | apply total_equity_state].
Qed.

(* ----------------------------------------------------------------- *)
(** *** The breaker on doubles *)

Lemma fge_at_least (x y : float) : fge x y = true <-> at_least x y.
Proof.
  destruct x as [|a|p], y as [|b|q];
    try (destruct a); try (destruct b);
    try (cbn; split; [discriminate | contradiction]);
    try (cbn; split; [intros _; exact I | reflexivity]).
  apply fge_Fin.
Qed.

Lemma mark_to_market_loop_state64 items dt_index total s :
  snd (Binary64.mark_to_market_loop items dt_index total s) = s.
Proof.
  revert total. induction items as [|[token pos] rest IH]; intros total; simpl.
  - reflexivity.
  - unfold bind at 1. rewrite get_market_price_eq.
    destruct (price_at (market_data s) (time_index s) token dt_index); simpl.
    + apply IH.
    + reflexivity.
Qed.

Lemma total_equity_state64 dt_index s :
  snd (Binary64.total_equity dt_index s) = s.
Proof.
  unfold Binary64.total_equity, Binary64.mark_to_market, bind, gets.
  pose proof (mark_to_market_loop_state64 (Dict.items (positions s)) dt_index
                (Fin 0%Qc) s) as H.
  destruct (Binary64.mark_to_market_loop (Dict.items (positions s)) dt_index
              (Fin 0%Qc) s) as [[v|e] s']; simpl in *; now subst.
Qed.

(** C6.  On doubles, [check_max_loss] returns false when no threshold is
    configured; with a threshold, when [total_equity] returns, it returns
    true exactly when the double nearest to starting cash less equity is
    at least the threshold, in the order of the numbers, and it raises
    what [total_equity] raises; the engine is unchanged in every case. *)
Theorem check_max_loss_decides dt_index s :
  match max_daily_loss s with
  | None => Binary64.check_max_loss dt_index s = (Ok false, s)
  | Some limit =>
      match fst (Binary64.total_equity dt_index s) with
      | Raise e => Binary64.check_max_loss dt_index s = (Raise e, s)
      | Ok equity =>
          exists tripped,
            Binary64.check_max_loss dt_index s = (Ok tripped, s) /\
            (tripped = true
             <-> at_least (round64 (fsub (starting_cash s) equity)) limit)
      end
  end.
Proof.
  unfold Binary64.check_max_loss, bind, gets.
  destruct (max_daily_loss s) as [limit|]; [ | reflexivity].
  pose proof (total_equity_state64 dt_index s) as H.
  destruct (Binary64.total_equity dt_index s) as [[equity|e] s'];
    simpl in *; subst s'; [ | reflexivity].
  eexists. split; [reflexivity | ]. apply fge_at_least.
Qed.

(** On [breaker_engine] the loss computed on doubles reaches the
    threshold and the breaker trips; computed exactly from the same
    doubles it stays below. *)
Example breaker_trips_on_doubles :
  Binary64.check_max_loss 1 breaker_engine = (Ok true, breaker_engine)
  /\ check_max_loss 1 breaker_engine = (Ok false, breaker_engine).
Proof. split; vm_compute; reflexivity. Qed.

(* ================================================================= *)
(** ** The fields of the engine after a fill *)

Section Filled.
Variables (token : Z) (symbol sd : string) (quantity : Z) (price : float)
  (ts : timestamp) (s : Simulator).

Let fill_price := fill_price_of (slippage s) price sd.
Let s' := filled token symbol sd quantity price ts s.

Lemma filled_cash :
  cash s' =
  if String.eqb sd "BUY" then fsub (cash s) (fmul fill_price (of_int quantity))
  else fadd (cash s) (fmul fill_price (of_int quantity)).
Proof.
  subst s' fill_price. destruct s. unfold filled, settle, after_fill; simpl.
  destruct (Dict.get token positions0) as [pos|]; simpl; [ | reflexivity].
  destruct (adds_to pos sd); simpl; [reflexivity | ].
  destruct (Position.quantity pos - quantity =? 0); reflexivity.
Qed.

Lemma filled_orders :
  orders s' = orders s ++ [order_of s token symbol sd quantity price ts] /\
  order_id_counter s' = order_id_counter s + 1.
Proof.
  subst s' fill_price. destruct s. unfold filled, settle, after_fill; simpl.
  destruct (Dict.get token positions0) as [pos|]; simpl; [ | tauto].
  destruct (adds_to pos sd); simpl; [tauto | ].
  destruct (Position.quantity pos - quantity =? 0); simpl; tauto.
Qed.

Lemma filled_open :
  Dict.get token (positions s) = None ->
  positions s' =
    Dict.setitem token
      (Position.new token symbol (if String.eqb sd "BUY" then "LONG" else "SHORT")
         quantity fill_price ts) (positions s) /\
  trade_log s' = trade_log s.
Proof.
  subst s' fill_price. destruct s. unfold filled, settle, after_fill; simpl.
  intros ->. simpl. tauto.
Qed.

Lemma filled_add pos :
  Dict.get token (positions s) = Some pos ->
  adds_to pos sd = true ->
  positions s' = Dict.setitem token (averaged pos fill_price quantity) (positions s) /\
  trade_log s' = trade_log s.
Proof.
  subst s' fill_price. destruct s. unfold filled, settle, after_fill; simpl.
  intros -> ->. simpl. tauto.
Qed.

Lemma filled_reduce pos :
  Dict.get token (positions s) = Some pos ->
  adds_to pos sd = false ->
  Position.quantity pos - quantity <> 0 ->
  positions s' = Dict.setitem token (reduced pos fill_price quantity) (positions s) /\
  trade_log s' = trade_log s.
Proof.
  subst s' fill_price. destruct s. unfold filled, settle, after_fill; simpl.
  intros -> -> Hq. apply Z.eqb_neq in Hq. rewrite Hq. simpl. tauto.
Qed.

Lemma filled_close pos :
  Dict.get token (positions s) = Some pos ->
  adds_to pos sd = false ->
  Position.quantity pos - quantity = 0 ->
  positions s' = Dict.delitem token (positions s) /\
  trade_log s' = trade_log s ++ [closing_trade pos fill_price quantity ts].
Proof.
  subst s' fill_price. destruct s. unfold filled, settle, after_fill; simpl.
  intros -> -> Hq. apply Z.eqb_eq in Hq. rewrite Hq. simpl. tauto.
Qed.

End Filled.

(* ================================================================= *)
(** ** The round trip of the specification *)

(** C1, with the amounts the code computes.  On a fresh engine with cash
    1,000,000 and zero slippage, BUY 10 of a token priced 100 leaves cash
    999,000 and the single open position LONG, quantity 10, entry 100; SELL
    10 of it at 110 then appends exactly one trade record with side LONG,
    entry 100, exit 110 and pnl 100, leaves cash 1,000,100 and no position
    for the token. *)
Theorem buy_then_sell_round_trip md idx limit dbg token symbol i j :
  price_at md (Some idx) token i = Ok (of_int 100) ->
  price_at md (Some idx) token j = Ok (of_int 110) ->
  let s0 := snd (set_time_index idx (init md (of_int 1000000) (Fin 0%Qc) limit dbg)) in
  let s1 := snd (place_order token symbol "BUY" 10 i s0) in
  let s2 := snd (place_order token symbol "SELL" 10 j s1) in
  cash s1 = of_int 999000 /\
  (exists pos,
     positions s1 = [(token, pos)] /\
     Position.side pos = "LONG"%string /\
     Position.quantity pos = 10 /\
     Position.entry_price pos = of_int 100) /\
  (exists trade,
     trade_log s2 = [trade] /\
     TradeLog.side trade = "LONG"%string /\
     TradeLog.entry_price trade = of_int 100 /\
     TradeLog.exit_price trade = Some (of_int 110) /\
     TradeLog.pnl trade = of_int 100) /\
  cash s2 = of_int 1000100 /\
  Dict.get token (positions s2) = None.
Proof.
  intros H1 H2 s0 s1 s2.
  destruct (place_order_filled token symbol "BUY" 10 i (of_int 100) s0
              eq_refl H1 eq_refl) as [ts1 [_ Hrun1]].
  assert (E1 : s1 = filled token symbol "BUY" 10 (of_int 100) ts1 s0).
  { subst s1. rewrite Hrun1. reflexivity. }
  clearbody s1. clear Hrun1.
  destruct (filled_frame token symbol "BUY" 10 (of_int 100) ts1 s0)
    as [Fmd [Fti [Fsl _]]].
  rewrite <- E1 in Fmd, Fti, Fsl.
  destruct (filled_open token symbol "BUY" 10 (of_int 100) ts1 s0 eq_refl)
    as [Hpos1 Hlog1].
  rewrite <- E1 in Hpos1, Hlog1.
  assert (Hcash1 : cash s1 = of_int 999000).
  { rewrite E1, filled_cash. apply float_eqb_eq. vm_compute. reflexivity. }
  set (pos := Position.new token symbol "LONG" 10
                (fill_price_of (slippage s0) (of_int 100) "BUY") ts1) in *.
  assert (Hp1 : positions s1 = [(token, pos)]) by exact Hpos1.
  assert (Hget1 : Dict.get token (positions s1) = Some pos).
  { rewrite Hp1. simpl. now rewrite Z.eqb_refl. }
  assert (H2' : price_at (market_data s1) (time_index s1) token j = Ok (of_int 110)).
  { rewrite Fmd, Fti. exact H2. }
  destruct (place_order_filled token symbol "SELL" 10 j (of_int 110) s1
              eq_refl H2' eq_refl) as [ts2 [_ Hrun2]].
  assert (E2 : s2 = filled token symbol "SELL" 10 (of_int 110) ts2 s1).
  { subst s2. rewrite Hrun2. reflexivity. }
  clearbody s2. clear Hrun2.
  destruct (filled_close token symbol "SELL" 10 (of_int 110) ts2 s1 pos
              Hget1 eq_refl eq_refl) as [Hpos2 Hlog2].
  rewrite <- E2 in Hpos2, Hlog2.
  split; [exact Hcash1 | ].
  split.
  { exists pos.
    split; [exact Hp1 | ]. split; [reflexivity | ]. split; [reflexivity | ].
    apply float_eqb_eq. vm_compute. reflexivity. }
  split.
  { eexists. split; [rewrite Hlog2, Hlog1; reflexivity | ].
    rewrite Fsl.
    split; [reflexivity | ].
    split; [apply float_eqb_eq; vm_compute; reflexivity | ].
    split; [unfold closing_trade; cbn [TradeLog.exit_price]; f_equal | ];
      apply float_eqb_eq; vm_compute; reflexivity. }
  split.
  { rewrite E2, filled_cash, Hcash1, Fsl.
    apply float_eqb_eq. vm_compute. reflexivity. }
  rewrite Hpos2. apply DictFacts.get_delitem_same.
Qed.

Lemma buy_then_sell_round_trip_witness :
  cash scenario_long = of_int 999000 /\
  cash (snd (place_order 7 "A" "SELL" 10 1 scenario_long)) = of_int 1000100.
Proof.
  pose proof (buy_then_sell_round_trip scenario_data [0; 1; 2] None false
                7 "A" 0 1 eq_refl eq_refl) as H.
  cbv zeta in H. destruct H as [Ha [_ [_ [Hb _]]]].
  split; [exact Ha | exact Hb].
Defined.

(** C1, as stated, fails on the amounts: after the BUY the cash is
    999,000, not 998,000. *)
Lemma cash_after_buy_is_not_998000 :
  cash scenario_long = of_int 999000 /\ cash scenario_long <> of_int 998000.
Proof.
  split.
  - apply float_eqb_eq. vm_compute. reflexivity.
  - intros H. apply (f_equal (fun x => float_eqb x (of_int 998000))) in H.
    vm_compute in H. discriminate.
Qed.

(** The record of a closed position carries the quantity left in the
    position, which is zero at that point. *)
Lemma closing_trade_quantity pos fill_price quantity ts :
  Position.quantity pos - quantity = 0 ->
  TradeLog.quantity (closing_trade pos fill_price quantity ts) = 0.
Proof. intros H. exact H. Qed.

(* ================================================================= *)
(** ** Positive quantities *)

Lemma adds_to_closing pos : adds_to pos (closing_side pos) = false.
Proof.
  unfold adds_to, closing_side.
  destruct (String.eqb (Position.side pos) "LONG"); reflexivity.
Qed.

Lemma valid_closing pos : valid_side (closing_side pos) = true.
Proof.
  unfold closing_side.
  destruct (String.eqb (Position.side pos) "LONG"); reflexivity.
Qed.

Lemma upper_closing pos : upper (closing_side pos) = closing_side pos.
Proof.
  unfold closing_side.
  destruct (String.eqb (Position.side pos) "LONG"); reflexivity.
Qed.

(** A fill within the position keeps every open quantity positive. *)
Lemma filled_positive token symbol sd quantity price ts s :
  positions_positive s ->
  0 < quantity ->
  (forall pos,
     Dict.get token (positions s) = Some pos ->
     adds_to pos sd = false -> quantity <= Position.quantity pos) ->
  positions_positive (filled token symbol sd quantity price ts s).
Proof.
  intros Hinv Hq Hle token' pos' Hget'.
  destruct (Dict.get token (positions s)) as [pos|] eqn:Hget.
  - destruct (adds_to pos sd) eqn:Hadd.
    + destruct (filled_add token symbol sd quantity price ts s pos Hget Hadd)
        as [Hp _]. rewrite Hp in Hget'.
      destruct (Z.eq_dec token token') as [<-|Hne].
      * rewrite DictFacts.get_setitem_same in Hget'. inversion Hget'; subst pos'.
        simpl. specialize (Hinv token pos Hget). lia.
      * rewrite DictFacts.get_setitem_other in Hget' by exact Hne. eauto.
    + specialize (Hle pos eq_refl Hadd).
      destruct (Z.eq_dec (Position.quantity pos - quantity) 0) as [Hz|Hnz].
      * destruct (filled_close token symbol sd quantity price ts s pos
                    Hget Hadd Hz) as [Hp _]. rewrite Hp in Hget'.
        destruct (Z.eq_dec token token') as [<-|Hne].
        -- rewrite DictFacts.get_delitem_same in Hget'. discriminate.
        -- rewrite DictFacts.get_delitem_other in Hget' by exact Hne. eauto.
      * destruct (filled_reduce token symbol sd quantity price ts s pos
                    Hget Hadd Hnz) as [Hp _]. rewrite Hp in Hget'.
        destruct (Z.eq_dec token token') as [<-|Hne].
        -- rewrite DictFacts.get_setitem_same in Hget'. inversion Hget'; subst pos'.
           simpl. lia.
        -- rewrite DictFacts.get_setitem_other in Hget' by exact Hne. eauto.
  - destruct (filled_open token symbol sd quantity price ts s Hget) as [Hp _].
    rewrite Hp in Hget'.
    destruct (Z.eq_dec token token') as [<-|Hne].
    + rewrite DictFacts.get_setitem_same in Hget'. inversion Hget'; subst pos'.
      simpl. exact Hq.
    + rewrite DictFacts.get_setitem_other in Hget' by exact Hne. eauto.
Qed.

Lemma place_order_positive token symbol side quantity dt_index s :
  positions_positive s ->
  within_position (PlaceOrder token symbol side quantity dt_index) s = true ->
  positions_positive (snd (place_order token symbol side quantity dt_index s)).
Proof.
  intros Hinv Hguard. simpl in Hguard.
  apply andb_true_iff in Hguard. destruct Hguard as [Hq Hle].
  apply Z.ltb_lt in Hq.
  destruct (place_order_cases token symbol side quantity dt_index s)
    as [[e [Hr _]] | [price [ts [_ [_ [_ [_ Hr]]]]]]]; rewrite Hr; simpl.
  - exact Hinv.
  - apply filled_positive; auto.
    intros pos Hget Hadd. rewrite Hget, Hadd in Hle. simpl in Hle.
    now apply Z.leb_le.
Qed.

(** The closing order of [square_off_all] is within the position. *)
Lemma closing_order_within token pos dt_index s :
  positions_positive s ->
  Dict.get token (positions s) = Some pos ->
  within_position
    (PlaceOrder token (Position.symbol pos) (closing_side pos)
       (Position.quantity pos) dt_index) s = true.
Proof.
  intros Hinv Hget. simpl. rewrite Hget.
  apply andb_true_iff. split.
  - apply Z.ltb_lt. eauto.
  - rewrite Z.leb_refl. apply orb_true_r.
Qed.

Lemma square_off_loop_positive tokens dt_index s :
  positions_positive s ->
  positions_positive
    (snd (for_each tokens (fun token =>
            ps <- gets positions ;;
            match Dict.get token ps with
            | None => raise (KeyError token)
            | Some pos =>
                if String.eqb (Position.side pos) "LONG"
                then place_order token (Position.symbol pos) "SELL"
                       (Position.quantity pos) dt_index ;; ret tt
                else place_order token (Position.symbol pos) "BUY"
                       (Position.quantity pos) dt_index ;; ret tt
            end) s)).
Proof.
  revert s. induction tokens as [|token rest IH]; intros s Hinv; simpl.
  - exact Hinv.
  - unfold bind at 1. unfold bind at 1. unfold gets at 1.
    destruct (Dict.get token (positions s)) as [pos|] eqn:Hget; [ | exact Hinv].
    pose proof (closing_order_within token pos dt_index s Hinv Hget) as Hg.
    pose proof (place_order_positive token (Position.symbol pos)
                  (closing_side pos) (Position.quantity pos) dt_index s Hinv Hg)
      as Hstep.
    unfold closing_side in Hstep.
    destruct (String.eqb (Position.side pos) "LONG"); unfold bind at 1;
      match type of Hstep with
      | positions_positive (snd ?run) =>
          destruct run as [[order|e] s1]; simpl in *
      end; auto.
Qed.

Lemma check_max_loss_state dt_index s : snd (check_max_loss dt_index s) = s.
Proof.
  unfold check_max_loss, bind, gets.
  destruct (max_daily_loss s) as [limit|]; [ | reflexivity].
  pose proof (total_equity_state dt_index s) as H.
  destruct (total_equity dt_index s) as [[v|e] s']; simpl in *; now subst.
Qed.

(** C2, as the code has it.  In every engine state reached by calls whose
    orders have a positive quantity and do not reduce a position by more
    than it holds, every position of the mapping has a strictly positive
    quantity. *)
Theorem positions_stay_positive s :
  reachable within_position s -> positions_positive s.
Proof.
  induction 1 as [md sc sl limit dbg | s c Hreach IH Hguard].
  - intros token pos Hget. discriminate Hget.
  - destruct c as [index | token symbol side quantity dt_index | dt_index
                  | dt_index | dt_index | dt_index]; simpl.
    + exact IH.
    + now apply place_order_positive.
    + unfold square_off_all, bind, gets; simpl.
      now apply square_off_loop_positive.
    + now rewrite mark_to_market_state.
    + now rewrite total_equity_state.
    + now rewrite check_max_loss_state.
Qed.

Lemma positions_stay_positive_witness : positions_positive scenario_long.
Proof.
  apply (positions_stay_positive scenario_long).
  apply (reach_call within_position scenario_engine (PlaceOrder 7 "A" "BUY" 10 0)).
  - apply (reach_call within_position fresh_engine (SetTimeIndex [0; 1; 2])).
    + apply reach_init.
    + reflexivity.
  - reflexivity.
Defined.

(** C2, as stated, fails: SELL 15 against a long position of 10 leaves the
    position in the mapping with quantity -5. *)
Lemma oversell_leaves_negative_quantity :
  reachable any_call scenario_oversold /\
  (exists pos,
     Dict.get 7 (positions scenario_oversold) = Some pos /\
     Position.quantity pos = -5) /\
  ~ positions_positive scenario_oversold.
Proof.
  assert (Hneg : exists pos,
             Dict.get 7 (positions scenario_oversold) = Some pos /\
             Position.quantity pos = -5).
  { eexists. split; [vm_compute; reflexivity | reflexivity]. }
  split; [ | split; [exact Hneg | ]].
  - apply (reach_call any_call scenario_long (PlaceOrder 7 "A" "SELL" 15 1));
      [ | reflexivity].
    apply (reach_call any_call scenario_engine (PlaceOrder 7 "A" "BUY" 10 0));
      [ | reflexivity].
    apply (reach_call any_call fresh_engine (SetTimeIndex [0; 1; 2]));
      [ | reflexivity].
    apply reach_init.
  - intros H. destruct Hneg as [pos [Hget Hq]].
    specialize (H 7 pos Hget). lia.
Qed.

(* ================================================================= *)
(** ** Closing a position by reductions *)

Lemma priced_inv s token dt_index :
  priced s token dt_index = true ->
  exists price,
    price_at (market_data s) (time_index s) token dt_index = Ok price /\
    isnan price = false /\
    observed s token dt_index = price.
Proof.
  unfold priced, observed.
  destruct (price_at (market_data s) (time_index s) token dt_index) as [price|];
    [ | discriminate].
  intros H. exists price. repeat split. now apply negb_true_iff.
Qed.

Lemma observed_frame s1 s token dt_index :
  market_data s1 = market_data s -> time_index s1 = time_index s ->
  observed s1 token dt_index = observed s token dt_index /\
  priced s1 token dt_index = priced s token dt_index.
Proof. unfold observed, priced. intros -> ->. split; reflexivity. Qed.

Lemma sum_quantities_pos reqs :
  Forall (fun r => 0 < req_quantity r) reqs -> reqs <> [] ->
  0 < sum_quantities reqs.
Proof.
  intros H. induction H as [|r rest Hr Hrest IH]; intros Hne; [congruence | ].
  simpl. destruct rest as [|r2 rest']; simpl in *; [lia | ].
  assert (0 < req_quantity r2 + sum_quantities rest') by (apply IH; discriminate).
  lia.
Qed.

Lemma place_orders_cons token r rest s :
  place_orders token (r :: rest) s =
  match place_order token (req_symbol r) (req_side r) (req_quantity r)
          (req_index r) s with
  | (Ok _, s1) => place_orders token rest s1
  | (Raise e, s1) => (Raise e, s1)
  end.
Proof.
  unfold place_orders; simpl. unfold bind.
  destruct (place_order token (req_symbol r) (req_side r) (req_quantity r)
              (req_index r) s) as [[order|e] s1]; reflexivity.
Qed.

(** Reductions that sum to the quantity of a position: the calls return,
    one trade record is appended with the PnL the code accumulated, and the
    token leaves the mapping. *)
Lemma place_orders_close token reqs s pos :
  Dict.get token (positions s) = Some pos ->
  reqs <> [] ->
  Forall (reduces s token pos) reqs ->
  sum_quantities reqs = Position.quantity pos ->
  exists s' trade,
    place_orders token reqs s = (Ok tt, s') /\
    trade_log s' = trade_log s ++ [trade] /\
    TradeLog.pnl trade =
      fold_left fadd (map (realised_by s pos token) reqs)
        (Position.realised_pnl pos) /\
    Dict.get token (positions s') = None.
Proof.
  revert s pos. induction reqs as [|r rest IH]; intros s pos Hget Hne Hall Hsum;
    [congruence | ].
  inversion Hall as [|r0 rest0 [Hside [Hq Hpr]] Hrest]; subst r0 rest0.
  destruct (priced_inv s token (req_index r) Hpr) as [price [Hprice [Hnan Hobs]]].
  assert (Hvalid : valid_side (upper (req_side r)) = true).
  { rewrite Hside. apply valid_closing. }
  destruct (place_order_filled token (req_symbol r) (req_side r) (req_quantity r)
              (req_index r) price s Hvalid Hprice Hnan) as [ts [_ Hrun]].
  rewrite Hside in Hrun.
  rewrite place_orders_cons, Hrun.
  set (s1 := filled token (req_symbol r) (closing_side pos) (req_quantity r)
               price ts s) in *.
  destruct (filled_frame token (req_symbol r) (closing_side pos) (req_quantity r)
              price ts s) as [Fmd [Fti [Fsl _]]].
  fold s1 in Fmd, Fti, Fsl.
  simpl in Hsum.
  assert (Hreal : realised_by s pos token r =
                  reduction_pnl pos
                    (fill_price_of (slippage s) price (closing_side pos))
                    (req_quantity r)).
  { unfold realised_by. now rewrite Hobs. }
  destruct rest as [|r2 rest'].
  - (* the last reduction closes the position *)
    simpl in Hsum.
    destruct (filled_close token (req_symbol r) (closing_side pos)
                (req_quantity r) price ts s pos Hget (adds_to_closing pos)
                ltac:(lia)) as [Hpos Hlog].
    fold s1 in Hpos, Hlog.
    exists s1. eexists. split; [reflexivity | ].
    split; [exact Hlog | ]. split.
    + simpl. now rewrite Hreal.
    + rewrite Hpos. apply DictFacts.get_delitem_same.
  - (* a partial reduction *)
    assert (Hpos_rest : 0 < sum_quantities (r2 :: rest')).
    { apply sum_quantities_pos; [ | discriminate].
      eapply Forall_impl; [ | exact Hrest]. intros a [_ [Ha _]]. exact Ha. }
    destruct (filled_reduce token (req_symbol r) (closing_side pos)
                (req_quantity r) price ts s pos Hget (adds_to_closing pos)
                ltac:(lia)) as [Hpos Hlog].
    fold s1 in Hpos, Hlog.
    set (pos1 := reduced pos (fill_price_of (slippage s) price (closing_side pos))
                   (req_quantity r)) in *.
    assert (Hget1 : Dict.get token (positions s1) = Some pos1).
    { rewrite Hpos. apply DictFacts.get_setitem_same. }
    assert (Hcs : closing_side pos1 = closing_side pos) by reflexivity.
    assert (Hall1 : Forall (reduces s1 token pos1) (r2 :: rest')).
    { eapply Forall_impl; [ | exact Hrest].
      intros a [Ha1 [Ha2 Ha3]]. unfold reduces. rewrite Hcs.
      destruct (observed_frame s1 s token (req_index a) Fmd Fti) as [_ Hp].
      rewrite Hp. auto. }
    assert (Hsum1 : sum_quantities (r2 :: rest') = Position.quantity pos1).
    { subst pos1. simpl Position.quantity. lia. }
    destruct (IH s1 pos1 Hget1 ltac:(discriminate) Hall1 Hsum1)
      as [s' [trade [Hrun' [Hlog' [Hpnl Hgone]]]]].
    exists s', trade. split; [exact Hrun' | ].
    split; [now rewrite Hlog', Hlog | ]. split; [ | exact Hgone].
    rewrite Hpnl.
    change (map (realised_by s pos token) (r :: r2 :: rest'))
      with (realised_by s pos token r :: map (realised_by s pos token) (r2 :: rest')).
    cbn [fold_left]. rewrite Hreal. f_equal.
    apply map_ext. intros a. unfold realised_by. rewrite Fsl, Hcs.
    destruct (observed_frame s1 s token (req_index a) Fmd Fti) as [Ho _].
    rewrite Ho. reflexivity.
Qed.

Lemma scenario_long_position :
  Dict.get 7 (positions scenario_long) = Some scenario_position.
Proof. vm_compute. reflexivity. Defined.


(* ================================================================= *)
(** ** Averaging in *)

Lemma fill_price_finite sl p sd :
  fill_price_of (Fin sl) (Fin p) sd = Fin (exec_price sl p sd).
Proof.
  unfold fill_price_of, exec_price. destruct (String.eqb sd "BUY"); reflexivity.
Qed.

(* ----------------------------------------------------------------- *)
(** *** What the reductions realise *)

Lemma closes_reduces s token pos x :
  closes s token pos x -> reduces s token pos (fst x).
Proof.
  intros [Hside [Hq Hprice]]. repeat split; auto.
  unfold priced. now rewrite Hprice.
Qed.

Lemma sum_quantities_fills sl sd rp :
  sum_quantities (map fst rp) = total_quantity (fills_of sl sd rp).
Proof.
  induction rp as [|[r p] rest IH]; simpl; [reflexivity | now rewrite IH].
Qed.

(** What one reduction realises, on finite values. *)
Lemma realised_by_finite s token pos sl e x :
  slippage s = Fin sl ->
  Position.entry_price pos = Fin e ->
  closes s token pos x ->
  realised_by s pos token (fst x)
  = Fin ((if String.eqb (Position.side pos) "LONG"
          then exec_price sl (snd x) (closing_side pos) - e
          else e - exec_price sl (snd x) (closing_side pos))
         * Zc (req_quantity (fst x)))%Qc.
Proof.
  intros Hsl He [_ [_ Hprice]].
  unfold realised_by, observed. rewrite Hprice, Hsl, fill_price_finite.
  unfold reduction_pnl, pnl_of. rewrite He.
  destruct (String.eqb (Position.side pos) "LONG"); reflexivity.
Qed.

Lemma fold_realised s token pos sl e rp :
  slippage s = Fin sl ->
  Position.entry_price pos = Fin e ->
  Forall (closes s token pos) rp ->
  forall r0,
    fold_left fadd (map (realised_by s pos token) (map fst rp)) (Fin r0)
    = Fin (realised_sum (String.eqb (Position.side pos) "LONG") e
             (fills_of sl (closing_side pos) rp) r0).
Proof.
  intros Hsl He Hall. induction Hall as [|[r p] rest Hx Hrest IH]; intros r0.
  - reflexivity.
  - cbn [map fold_left fst].
    pose proof (realised_by_finite s token pos sl e (r, p) Hsl He Hx) as Hr.
    cbn [fst snd] in Hr. rewrite Hr.
    cbn [fadd]. rewrite IH. reflexivity.
Qed.

(** C3.  A position with a finite entry price closed entirely by one or
    more opposite-direction orders of positive quantity whose quantities
    sum to its quantity, with a finite price at each call and a finite
    slippage rate: the calls return, exactly one trade record is appended,
    its pnl is what the position had realised before plus, for each
    reduction in turn, (fill - entry) * quantity for a long position and
    (entry - fill) * quantity for a short one, and the token leaves the
    mapping. *)
Theorem closing_emits_one_trade token rp s pos sl e r0 :
  Dict.get token (positions s) = Some pos ->
  slippage s = Fin sl ->
  Position.entry_price pos = Fin e ->
  Position.realised_pnl pos = Fin r0 ->
  rp <> [] ->
  Forall (closes s token pos) rp ->
  total_quantity (fills_of sl (closing_side pos) rp) = Position.quantity pos ->
  exists s' trade,
    place_orders token (map fst rp) s = (Ok tt, s') /\
    trade_log s' = trade_log s ++ [trade] /\
    TradeLog.pnl trade =
      Fin (realised_sum (String.eqb (Position.side pos) "LONG") e
             (fills_of sl (closing_side pos) rp) r0) /\
    Dict.get token (positions s') = None.
Proof.
  intros Hget Hsl He Hr Hne Hall Hsum.
  destruct (place_orders_close token (map fst rp) s pos Hget)
    as [s' [trade [Hrun [Hlog [Hpnl Hgone]]]]].
  - destruct rp; [congruence | discriminate].
  - apply Forall_map. eapply Forall_impl; [ | exact Hall].
    intros x. apply closes_reduces.
  - now rewrite (sum_quantities_fills sl (closing_side pos)).
  - exists s', trade. repeat split; auto.
    rewrite Hpnl, Hr. now apply fold_realised.
Qed.

Lemma closing_emits_one_trade_witness :
  exists s' trade,
    place_orders 7 [mkRequest "A" "SELL" 4 0; mkRequest "A" "sell" 6 1] scenario_long
    = (Ok tt, s') /\
    trade_log s' = trade_log scenario_long ++ [trade] /\
    TradeLog.pnl trade =
      Fin (realised_sum true (Zc 100) [(Zc 100, 4); (Zc 110, 6)] 0%Qc) /\
    Dict.get 7 (positions s') = None.
Proof.
  destruct (closing_emits_one_trade 7
              [(mkRequest "A" "SELL" 4 0, Zc 100); (mkRequest "A" "sell" 6 1, Zc 110)]
              scenario_long scenario_position 0%Qc (Zc 100) 0%Qc
              scenario_long_position)
    as [s' [trade [Hrun [Hlog [Hpnl Hgone]]]]].
  - reflexivity.
  - reflexivity.
  - reflexivity.
  - discriminate.
  - repeat constructor.
  - reflexivity.
  - exists s', trade. repeat split; auto.
Defined.

Lemma averaged_finite pos e f q :
  Position.entry_price pos = Fin e ->
  Position.quantity pos + q <> 0 ->
  Position.entry_price (averaged pos (Fin f) q)
  = Fin ((e * Zc (Position.quantity pos) + f * Zc q)
         / Zc (Position.quantity pos + q))%Qc.
Proof.
  intros He Hn. unfold averaged. simpl. rewrite He. unfold of_int. simpl.
  rewrite is_zero_false by now apply Zc_nonzero.
  reflexivity.
Qed.

Lemma adds_frame s1 s token sd x :
  market_data s1 = market_data s -> time_index s1 = time_index s ->
  adds s token sd x -> adds s1 token sd x.
Proof. unfold adds. intros -> ->. auto. Qed.

(** Same-direction fills into an existing position. *)
Lemma average_in_run token sd sl rp :
  valid_side sd = true ->
  forall s pos e,
    Dict.get token (positions s) = Some pos ->
    adds_to pos sd = true ->
    slippage s = Fin sl ->
    Position.entry_price pos = Fin e ->
    0 < Position.quantity pos ->
    Forall (adds s token sd) rp ->
    exists s' pos',
      place_orders token (map fst rp) s = (Ok tt, s') /\
      Dict.get token (positions s') = Some pos' /\
      Position.side pos' = Position.side pos /\
      Position.quantity pos' =
        Position.quantity pos + total_quantity (fills_of sl sd rp) /\
      Position.entry_price pos' =
        Fin ((e * Zc (Position.quantity pos) + notional (fills_of sl sd rp))
             / Zc (Position.quantity pos + total_quantity (fills_of sl sd rp)))%Qc.
Proof.
  intros Hvalid. induction rp as [|[r p] rest IH];
    intros s pos e Hget Hadd Hsl He HQ Hall.
  - exists s, pos. simpl. repeat split; auto; try lia.
    rewrite He, Z.add_0_r. f_equal.
    assert (Zc (Position.quantity pos) <> 0%Qc) by (apply Zc_nonzero; lia).
    field. assumption.
  - inversion Hall as [|x rest0 [Hside [Hq Hprice]] Hrest]; subst x rest0.
    simpl in Hside, Hq, Hprice.
    assert (Hv : valid_side (upper (req_side r)) = true) by now rewrite Hside.
    destruct (place_order_filled token (req_symbol r) (req_side r)
                (req_quantity r) (req_index r) (Fin p) s Hv Hprice eq_refl)
      as [ts [_ Hrun]].
    rewrite Hside in Hrun.
    change (map fst ((r, p) :: rest)) with (r :: map fst rest).
    rewrite place_orders_cons, Hrun.
    set (s1 := filled token (req_symbol r) sd (req_quantity r) (Fin p) ts s) in *.
    destruct (filled_frame token (req_symbol r) sd (req_quantity r) (Fin p) ts s)
      as [Fmd [Fti [Fsl _]]].
    fold s1 in Fmd, Fti, Fsl.
    destruct (filled_add token (req_symbol r) sd (req_quantity r) (Fin p) ts s
                pos Hget Hadd) as [Hpos _].
    fold s1 in Hpos. rewrite Hsl, fill_price_finite in Hpos.
    set (f := exec_price sl p sd) in *.
    set (pos1 := averaged pos (Fin f) (req_quantity r)) in *.
    assert (Hget1 : Dict.get token (positions s1) = Some pos1).
    { rewrite Hpos. apply DictFacts.get_setitem_same. }
    assert (He1 : Position.entry_price pos1 =
                  Fin ((e * Zc (Position.quantity pos) + f * Zc (req_quantity r))
                       / Zc (Position.quantity pos + req_quantity r))%Qc).
    { apply averaged_finite; [exact He | lia]. }
    assert (HQ1 : Position.quantity pos1 = Position.quantity pos + req_quantity r)
      by reflexivity.
    destruct (IH s1 pos1 _ Hget1 Hadd ltac:(congruence) He1 ltac:(lia))
      as [s' [pos' [Hrun' [Hget' [Hside' [Hq' He']]]]]].
    { eapply Forall_impl; [ | exact Hrest].
      intros a. now apply adds_frame. }
    exists s', pos'. split; [exact Hrun' | ]. split; [exact Hget' | ].
    split; [exact Hside' | ].
    simpl fills_of. fold (fills_of sl sd rest). fold f.
    simpl total_quantity. simpl notional.
    split; [rewrite Hq', HQ1; lia | ].
    rewrite He', HQ1. f_equal.
    rewrite Z.add_assoc.
    assert (Zc (Position.quantity pos + req_quantity r) <> 0%Qc)
      by (apply Zc_nonzero; lia).
    f_equal. field. assumption.
Qed.

(** C4.  A non-empty sequence of same-direction fills of positive
    quantity on a token without a position, all BUY or all SELL, with a
    finite price at each bar and a finite slippage rate: the calls return,
    the position is LONG for BUY and SHORT for SELL, its quantity is the
    sum of the fill quantities and its entry price is the quantity-weighted
    average of the executed fill prices, exactly, over the rationals. *)
Theorem same_direction_fills_average token sd sl rp s :
  sd = "BUY"%string \/ sd = "SELL"%string ->
  Dict.get token (positions s) = None ->
  slippage s = Fin sl ->
  rp <> [] ->
  Forall (adds s token sd) rp ->
  exists s' pos,
    place_orders token (map fst rp) s = (Ok tt, s') /\
    Dict.get token (positions s') = Some pos /\
    Position.side pos = (if String.eqb sd "BUY" then "LONG" else "SHORT")%string /\
    Position.quantity pos = total_quantity (fills_of sl sd rp) /\
    Position.entry_price pos = Fin (weighted_average (fills_of sl sd rp)).
Proof.
  intros Hsd Hget Hsl Hne Hall.
  assert (Hvalid : valid_side sd = true) by (destruct Hsd; subst; reflexivity).
  destruct rp as [|[r p] rest]; [congruence | ].
  inversion Hall as [|x rest0 [Hside [Hq Hprice]] Hrest]; subst x rest0.
  simpl in Hside, Hq, Hprice.
  assert (Hv : valid_side (upper (req_side r)) = true) by now rewrite Hside.
  destruct (place_order_filled token (req_symbol r) (req_side r)
              (req_quantity r) (req_index r) (Fin p) s Hv Hprice eq_refl)
    as [ts [_ Hrun]].
  rewrite Hside in Hrun.
  change (map fst ((r, p) :: rest)) with (r :: map fst rest).
  rewrite place_orders_cons, Hrun.
  set (s1 := filled token (req_symbol r) sd (req_quantity r) (Fin p) ts s) in *.
  destruct (filled_frame token (req_symbol r) sd (req_quantity r) (Fin p) ts s)
    as [Fmd [Fti [Fsl _]]].
  fold s1 in Fmd, Fti, Fsl.
  destruct (filled_open token (req_symbol r) sd (req_quantity r) (Fin p) ts s Hget)
    as [Hpos _].
  fold s1 in Hpos. rewrite Hsl, fill_price_finite in Hpos.
  set (f := exec_price sl p sd) in *.
  set (pos1 := Position.new token (req_symbol r)
                 (if String.eqb sd "BUY" then "LONG" else "SHORT")
                 (req_quantity r) (Fin f) ts) in *.
  assert (Hget1 : Dict.get token (positions s1) = Some pos1).
  { rewrite Hpos. apply DictFacts.get_setitem_same. }
  assert (Hadd1 : adds_to pos1 sd = true) by (destruct Hsd; subst; reflexivity).
  destruct (average_in_run token sd sl rest Hvalid s1 pos1 f Hget1 Hadd1
              ltac:(congruence) eq_refl Hq)
    as [s' [pos' [Hrun' [Hget' [Hside' [Hq' He']]]]]].
  { eapply Forall_impl; [ | exact Hrest]. intros a. now apply adds_frame. }
  exists s', pos'. split; [exact Hrun' | ]. split; [exact Hget' | ].
  split; [exact Hside' | ]. split; [exact Hq' | exact He'].
Qed.

Lemma same_direction_fills_average_witness :
  exists s' pos,
    place_orders 7 [mkRequest "A" "BUY" 10 0; mkRequest "A" "buy" 30 1]
      scenario_engine = (Ok tt, s') /\
    Dict.get 7 (positions s') = Some pos /\
    Position.quantity pos = 40.
Proof.
  destruct (same_direction_fills_average 7 "BUY" 0%Qc
              [(mkRequest "A" "BUY" 10 0, Zc 100); (mkRequest "A" "buy" 30 1, Zc 110)]
              scenario_engine)
    as [s' [pos [Hrun [Hget [_ [Hq _]]]]]].
  - left. reflexivity.
  - reflexivity.
  - reflexivity.
  - discriminate.
  - repeat constructor.
  - exists s', pos. auto.
Defined.

(* ================================================================= *)
(** ** Squaring off *)

Lemma square_off_all_eq dt_index s :
  square_off_all dt_index s
  = for_each (Dict.keys (positions s)) (square_off_body dt_index) s.
Proof. reflexivity. Qed.

(** One turn of the loop on an open token with a price. *)
Lemma square_off_body_run dt_index token pos s :
  Dict.get token (positions s) = Some pos ->
  priced s token dt_index = true ->
  exists ts,
    square_off_body dt_index token s
    = (Ok tt,
       filled token (Position.symbol pos) (closing_side pos)
         (Position.quantity pos) (observed s token dt_index) ts s).
Proof.
  intros Hget Hpr.
  destruct (priced_inv s token dt_index Hpr) as [price [Hprice [Hnan Hobs]]].
  rewrite Hobs.
  assert (Hv : valid_side (upper (closing_side pos)) = true).
  { rewrite upper_closing. apply valid_closing. }
  destruct (place_order_filled token (Position.symbol pos) (closing_side pos)
              (Position.quantity pos) dt_index price s Hv Hprice Hnan)
    as [ts [_ Hrun]].
  rewrite upper_closing in Hrun. exists ts.
  unfold square_off_body, bind, gets. rewrite Hget.
  unfold closing_side in *.
  destruct (String.eqb (Position.side pos) "LONG"); rewrite Hrun; reflexivity.
Qed.

Lemma square_off_loop_run dt_index d :
  forall s,
    positions s = d ->
    Dict.wf d ->
    (forall token, In token (Dict.keys d) -> priced s token dt_index = true) ->
    exists s' trades closing_orders,
      for_each (Dict.keys d) (square_off_body dt_index) s = (Ok tt, s') /\
      positions s' = [] /\
      trade_log s' = trade_log s ++ trades /\
      Forall2 (flattening_trade s dt_index) d trades /\
      orders s' = orders s ++ closing_orders /\
      Forall2 flattening_order d closing_orders.
Proof.
  induction d as [|[token pos] d' IH]; intros s Hd Hwf Hpr.
  - exists s, [], []. simpl. rewrite !app_nil_r. repeat split; auto; constructor.
  - assert (Hget : Dict.get token (positions s) = Some pos).
    { rewrite Hd. simpl. now rewrite Z.eqb_refl. }
    destruct (square_off_body_run dt_index token pos s Hget
                (Hpr token (or_introl eq_refl))) as [ts Hrun].
    set (price := observed s token dt_index) in *.
    set (s1 := filled token (Position.symbol pos) (closing_side pos)
                 (Position.quantity pos) price ts s) in *.
    destruct (filled_frame token (Position.symbol pos) (closing_side pos)
                (Position.quantity pos) price ts s) as [Fmd [Fti [Fsl _]]].
    fold s1 in Fmd, Fti, Fsl.
    destruct (filled_close token (Position.symbol pos) (closing_side pos)
                (Position.quantity pos) price ts s pos Hget
                (adds_to_closing pos) ltac:(lia)) as [Hpos Hlog].
    fold s1 in Hpos, Hlog.
    destruct (filled_orders token (Position.symbol pos) (closing_side pos)
                (Position.quantity pos) price ts s) as [Hord _].
    fold s1 in Hord.
    assert (Hd1 : positions s1 = d').
    { rewrite Hpos, Hd. now apply DictFacts.delitem_head. }
    assert (Hwf1 : Dict.wf d').
    { unfold Dict.wf in *. simpl in Hwf. now inversion Hwf. }
    assert (Hpr1 : forall token', In token' (Dict.keys d') ->
                                  priced s1 token' dt_index = true).
    { intros token' Hin.
      destruct (observed_frame s1 s token' dt_index Fmd Fti) as [_ Hp].
      rewrite Hp. apply Hpr. now right. }
    destruct (IH s1 Hd1 Hwf1 Hpr1)
      as [s' [trades [ords [Hloop [Hempty [Hlog' [Htr [Hord' Hfo]]]]]]]].
    exists s', (closing_trade pos (fill_price_of (slippage s) price (closing_side pos))
                  (Position.quantity pos) ts :: trades),
           (order_of s token (Position.symbol pos) (closing_side pos)
              (Position.quantity pos) price ts :: ords).
    split.
    { change (Dict.keys ((token, pos) :: d')) with (token :: Dict.keys d').
      cbn [for_each]. unfold bind at 1. rewrite Hrun. exact Hloop. }
    split; [exact Hempty | ].
    split; [rewrite Hlog', Hlog, <- app_assoc; reflexivity | ].
    split.
    { constructor.
      - repeat split.
      - eapply Forall2_impl; [ | exact Htr].
        intros kv t [Hi [Hs Hp]]. repeat split; auto.
        rewrite Hp, Fsl.
        destruct (observed_frame s1 s (fst kv) dt_index Fmd Fti) as [Ho _].
        now rewrite Ho. }
    split; [rewrite Hord', Hord, <- app_assoc; reflexivity | ].
    constructor; [repeat split | exact Hfo].
Qed.

(** C5, as the code has it.  When a price is available at the bar for
    every open token, [square_off_all] returns, leaves the mapping empty,
    and appends one trade record and one order per token that was open:
    the order sells the full quantity of a LONG and buys back the full
    quantity of the rest, through [place_order]. *)
Theorem square_off_all_flattens dt_index s :
  Dict.wf (positions s) ->
  (forall token, In token (Dict.keys (positions s)) ->
                 priced s token dt_index = true) ->
  exists s' trades closing_orders,
    square_off_all dt_index s = (Ok tt, s') /\
    positions s' = [] /\
    trade_log s' = trade_log s ++ trades /\
    Forall2 (flattening_trade s dt_index) (positions s) trades /\
    orders s' = orders s ++ closing_orders /\
    Forall2 flattening_order (positions s) closing_orders.
Proof.
  intros Hwf Hpr. rewrite square_off_all_eq.
  now apply square_off_loop_run.
Qed.

Lemma square_off_all_flattens_witness :
  exists s',
    square_off_all 1 scenario_long = (Ok tt, s') /\ positions s' = [] /\
    List.length (trade_log s') = 1%nat.
Proof.
  destruct (square_off_all_flattens 1 scenario_long)
    as [s' [trades [ords [Hrun [Hempty [Hlog [Htr _]]]]]]].
  - vm_compute. repeat constructor. intros [].
  - intros token Hin. vm_compute in Hin. destruct Hin as [<- | []]. reflexivity.
  - exists s'. split; [exact Hrun | ]. split; [exact Hempty | ].
    rewrite Hlog. apply Forall2_length in Htr.
    rewrite length_app, <- Htr. reflexivity.
Defined.

(** C5, as stated, fails: with the close of minute 2 missing, the closing
    order of [square_off_all] at bar 2 raises and the position stays open. *)
Lemma square_off_without_price_raises :
  square_off_all 2 scenario_long
  = (Raise (ValueError (NoPrice 7 2)), scenario_long) /\
  positions scenario_long <> [] /\
  ~ (forall s dt_index, positions (snd (square_off_all dt_index s)) = []).
Proof.
  assert (Hrun : square_off_all 2 scenario_long
                 = (Raise (ValueError (NoPrice 7 2)), scenario_long)).
  { vm_compute. reflexivity. }
  assert (Hopen : positions scenario_long <> []).
  { intros H. apply (f_equal (@List.length _)) in H. vm_compute in H. discriminate. }
  split; [exact Hrun | ]. split; [exact Hopen | ].
  intros H. specialize (H scenario_long 2). rewrite Hrun in H. exact (Hopen H).
Qed.

(* ================================================================= *)
(** ** Invariants of the engine, by the fills *)

Section Invariant.
Variable P : Simulator -> Prop.
Variable ok : Z -> string -> Z -> Simulator -> Prop.

Hypothesis P_time : forall index s, P s -> P (set_time_index_fields index s).

Hypothesis P_fill :
  forall token symbol sd quantity dt_index price ts s,
    P s ->
    valid_side sd = true ->
    price_at (market_data s) (time_index s) token dt_index = Ok price ->
    isnan price = false ->
    ok token sd quantity s ->
    P (filled token symbol sd quantity price ts s).

Hypothesis P_close :
  forall s token pos,
    P s -> Dict.get token (positions s) = Some pos ->
    ok token (closing_side pos) (Position.quantity pos) s.

Lemma place_order_keeps token symbol side quantity dt_index s :
  P s -> ok token (upper side) quantity s ->
  P (snd (place_order token symbol side quantity dt_index s)).
Proof.
  intros HP Hok.
  destruct (place_order_cases token symbol side quantity dt_index s)
    as [[e [Hr _]] | [price [ts [Hv [Hprice [Hnan [_ Hr]]]]]]]; rewrite Hr; simpl.
  - exact HP.
  - eapply P_fill; eauto.
Qed.

Lemma square_off_body_keeps dt_index token s :
  P s -> P (snd (square_off_body dt_index token s)).
Proof.
  intros HP. unfold square_off_body, bind, gets.
  destruct (Dict.get token (positions s)) as [pos|] eqn:Hget; [ | exact HP].
  pose proof (place_order_keeps token (Position.symbol pos) (closing_side pos)
                (Position.quantity pos) dt_index s HP) as Hstep.
  rewrite upper_closing in Hstep. specialize (Hstep (P_close s token pos HP Hget)).
  unfold closing_side in Hstep.
  destruct (String.eqb (Position.side pos) "LONG");
    match type of Hstep with
    | P (snd ?run) => destruct run as [[order|e] s1]; simpl in *
    end; exact Hstep.
Qed.

Lemma for_each_keeps {A} (body : A -> M unit) (l : list A) :
  (forall a s, P s -> P (snd (body a s))) ->
  forall s, P s -> P (snd (for_each l body s)).
Proof.
  intros Hbody. induction l as [|a l IH]; intros s HP; simpl.
  - exact HP.
  - unfold bind. specialize (Hbody a s HP).
    destruct (body a s) as [[[]|e] s1]; simpl in *; auto.
Qed.

Lemma square_off_all_keeps dt_index s :
  P s -> P (snd (square_off_all dt_index s)).
Proof.
  intros HP. rewrite square_off_all_eq.
  apply for_each_keeps; [ | exact HP].
  intros token s1. apply square_off_body_keeps.
Qed.

Lemma run_call_keeps c s : P s -> call_ok ok c s -> P (run_call c s).
Proof.
  intros HP Hok.
  destruct c as [index | token symbol side quantity dt_index | dt_index
                | dt_index | dt_index | dt_index]; simpl in *.
  - now apply P_time.
  - now apply place_order_keeps.
  - now apply square_off_all_keeps.
  - now rewrite mark_to_market_state.
  - now rewrite total_equity_state.
  - now rewrite check_max_loss_state.
Qed.

End Invariant.

(** An invariant of the fresh engine kept by every fill holds in every
    reachable state. *)
Lemma reachable_invariant (P : Simulator -> Prop) :
  (forall md sc sl limit dbg, P (init md sc sl limit dbg)) ->
  (forall index s, P s -> P (set_time_index_fields index s)) ->
  (forall token symbol sd quantity dt_index price ts s,
     P s ->
     valid_side sd = true ->
     price_at (market_data s) (time_index s) token dt_index = Ok price ->
     isnan price = false ->
     P (filled token symbol sd quantity price ts s)) ->
  forall s, reachable any_call s -> P s.
Proof.
  intros Hinit Htime Hfill s Hreach.
  induction Hreach as [md sc sl limit dbg | s c Hreach IH _].
  - apply Hinit.
  - apply (run_call_keeps P any_order); auto.
    + intros. eapply Hfill; eauto.
    + intros. exact I.
    + destruct c; exact I.
Qed.

(** The four outcomes of a fill on the mapping and the trade log. *)
Lemma filled_cases token symbol sd quantity price ts s :
  let fill_price := fill_price_of (slippage s) price sd in
  let s' := filled token symbol sd quantity price ts s in
  (Dict.get token (positions s) = None /\
   positions s' =
     Dict.setitem token
       (Position.new token symbol (if String.eqb sd "BUY" then "LONG" else "SHORT")
          quantity fill_price ts) (positions s) /\
   trade_log s' = trade_log s)
  \/
  (exists pos,
     Dict.get token (positions s) = Some pos /\ adds_to pos sd = true /\
     positions s' =
       Dict.setitem token (averaged pos fill_price quantity) (positions s) /\
     trade_log s' = trade_log s)
  \/
  (exists pos,
     Dict.get token (positions s) = Some pos /\ adds_to pos sd = false /\
     Position.quantity pos - quantity <> 0 /\
     positions s' =
       Dict.setitem token (reduced pos fill_price quantity) (positions s) /\
     trade_log s' = trade_log s)
  \/
  (exists pos,
     Dict.get token (positions s) = Some pos /\ adds_to pos sd = false /\
     Position.quantity pos - quantity = 0 /\
     positions s' = Dict.delitem token (positions s) /\
     trade_log s' = trade_log s ++ [closing_trade pos fill_price quantity ts]).
Proof.
  intros fill_price s'. subst fill_price s'.
  destruct (Dict.get token (positions s)) as [pos|] eqn:Hget.
  - right. destruct (adds_to pos sd) eqn:Hadd.
    + left. exists pos.
      destruct (filled_add token symbol sd quantity price ts s pos Hget Hadd).
      auto.
    + right. destruct (Z.eq_dec (Position.quantity pos - quantity) 0) as [Hz|Hnz].
      * right. exists pos.
        destruct (filled_close token symbol sd quantity price ts s pos Hget Hadd Hz).
        auto.
      * left. exists pos.
        destruct (filled_reduce token symbol sd quantity price ts s pos Hget Hadd Hnz).
        auto.
  - left. destruct (filled_open token symbol sd quantity price ts s Hget). auto.
Qed.

(** X1.  Order ids are consecutive: in every reachable state the orders
    carry the ids 1, 2, ..., n in the order they were placed, and the
    counter holds n + 1. *)
Theorem order_ids_are_consecutive s :
  reachable any_call s -> order_ids_consecutive s.
Proof.
  apply reachable_invariant.
  - intros. split; reflexivity.
  - intros index s0 H. exact H.
  - intros token symbol sd quantity dt_index price ts s0 [Hc Hids] _ _ _.
    destruct (filled_orders token symbol sd quantity price ts s0) as [Ho Hn].
    unfold order_ids_consecutive. rewrite Ho, Hn, length_app. simpl List.length.
    split; [lia | ].
    rewrite map_app, Hids. rewrite Nat.add_1_r, seq_S, map_app. simpl.
    rewrite Hc. do 3 f_equal. lia.
Qed.

Lemma order_ids_are_consecutive_witness : order_ids_consecutive scenario_oversold.
Proof.
  apply (order_ids_are_consecutive scenario_oversold).
  apply (reach_call any_call scenario_long (PlaceOrder 7 "A" "SELL" 15 1));
    [ | reflexivity].
  apply (reach_call any_call scenario_engine (PlaceOrder 7 "A" "BUY" 10 0));
    [ | reflexivity].
  apply (reach_call any_call fresh_engine (SetTimeIndex [0; 1; 2]));
    [ | reflexivity].
  apply reach_init.
Defined.

Lemma order_of_filled s token symbol sd quantity price ts :
  valid_side sd = true ->
  filled_order (order_of s token symbol sd quantity price ts).
Proof.
  intros Hv. unfold filled_order, order_of; simpl.
  repeat split; eauto.
  unfold valid_side in Hv. apply orb_true_iff in Hv.
  destruct Hv as [H|H]; apply String.eqb_eq in H; auto.
Qed.

(** X2.  Every order the engine records is a filled market order: status
    FILLED, type MARKET, side BUY or SELL in upper case, an executed price,
    and a fill time equal to its timestamp. *)
Theorem recorded_orders_are_filled s :
  reachable any_call s -> Forall filled_order (orders s).
Proof.
  apply reachable_invariant with (P := fun s => Forall filled_order (orders s)).
  - intros. constructor.
  - intros index s0 H. exact H.
  - intros token symbol sd quantity dt_index price ts s0 H Hv _ _.
    destruct (filled_orders token symbol sd quantity price ts s0) as [Ho _].
    rewrite Ho. apply Forall_app. split; [exact H | ].
    constructor; [now apply order_of_filled | constructor].
Qed.

Lemma recorded_orders_are_filled_witness : Forall filled_order (orders scenario_long).
Proof.
  apply (recorded_orders_are_filled scenario_long).
  apply (reach_call any_call scenario_engine (PlaceOrder 7 "A" "BUY" 10 0));
    [ | reflexivity].
  apply (reach_call any_call fresh_engine (SetTimeIndex [0; 1; 2]));
    [ | reflexivity].
  apply reach_init.
Defined.

Lemma well_formed_entry_kept token pos pos' :
  well_formed_entry token pos ->
  Position.token pos' = Position.token pos ->
  Position.side pos' = Position.side pos ->
  Position.exit_price pos' = Position.exit_price pos ->
  Position.exit_time pos' = Position.exit_time pos ->
  Position.stop_loss pos' = Position.stop_loss pos ->
  Position.target pos' = Position.target pos ->
  Position.margin_required pos' = Position.margin_required pos ->
  well_formed_entry token pos'.
Proof.
  unfold well_formed_entry. intros H -> -> -> -> -> -> ->. exact H.
Qed.

Lemma positions_well_formed_setitem token pos s s' :
  positions_well_formed s ->
  positions s' = Dict.setitem token pos (positions s) ->
  well_formed_entry token pos ->
  positions_well_formed s'.
Proof.
  intros [Hwf Hall] Hp Hnew. unfold positions_well_formed. rewrite Hp. split.
  - now apply DictFacts.wf_setitem.
  - intros token' pos' Hget.
    destruct (Z.eq_dec token token') as [<-|Hne].
    + rewrite DictFacts.get_setitem_same in Hget. now inversion Hget; subst.
    + rewrite DictFacts.get_setitem_other in Hget by exact Hne. auto.
Qed.

Lemma reachable_well_formed s :
  reachable any_call s -> positions_well_formed s.
Proof.
  apply reachable_invariant.
  - intros. split; [constructor | intros token pos H; discriminate H].
  - intros index s0 H. exact H.
  - intros token symbol sd quantity dt_index price ts s0 H Hv _ _.
    destruct (filled_cases token symbol sd quantity price ts s0)
      as [[Hget [Hp _]] | [[pos [Hget [_ [Hp _]]]] | [[pos [Hget [_ [_ [Hp _]]]]]
         | [pos [Hget [_ [_ [Hp _]]]]]]]].
    + eapply positions_well_formed_setitem; eauto.
      unfold well_formed_entry; simpl. repeat split; auto.
      destruct (String.eqb sd "BUY"); auto.
    + eapply positions_well_formed_setitem; eauto.
      apply (well_formed_entry_kept token pos); try reflexivity.
      destruct H as [_ H]. auto.
    + eapply positions_well_formed_setitem; eauto.
      apply (well_formed_entry_kept token pos); try reflexivity.
      destruct H as [_ H]. auto.
    + destruct H as [Hwf Hall]. unfold positions_well_formed. rewrite Hp. split.
      * now apply DictFacts.wf_delitem.
      * intros token' pos' Hget'.
        destruct (Z.eq_dec token token') as [<-|Hne].
        -- rewrite DictFacts.get_delitem_same in Hget'. discriminate.
        -- rewrite DictFacts.get_delitem_other in Hget' by exact Hne. auto.
Qed.

(** X3.  In every reachable state the mapping holds at most one entry per
    token, and every entry is an open position as [place_order] wrote it:
    its token is its key, its side is LONG or SHORT, it has no exit price
    or exit time, no stop loss or target, and no margin. *)
Theorem mapping_holds_open_positions s :
  reachable any_call s -> positions_well_formed s.
Proof. apply reachable_well_formed. Qed.

Lemma mapping_holds_open_positions_witness : positions_well_formed scenario_oversold.
Proof.
  apply (mapping_holds_open_positions scenario_oversold).
  apply (reach_call any_call scenario_long (PlaceOrder 7 "A" "SELL" 15 1));
    [ | reflexivity].
  apply (reach_call any_call scenario_engine (PlaceOrder 7 "A" "BUY" 10 0));
    [ | reflexivity].
  apply (reach_call any_call fresh_engine (SetTimeIndex [0; 1; 2]));
    [ | reflexivity].
  apply reach_init.
Defined.

(** X4.  Every trade record of a reachable state carries quantity 0 and an
    exit price: the record copies the quantity left in the position once
    the last reduction has been subtracted. *)
Theorem trade_records_carry_zero_quantity s :
  reachable any_call s ->
  Forall (fun t => TradeLog.quantity t = 0 /\
                   exists p, TradeLog.exit_price t = Some p) (trade_log s).
Proof.
  apply reachable_invariant
    with (P := fun s => Forall (fun t => TradeLog.quantity t = 0 /\
                                         exists p, TradeLog.exit_price t = Some p)
                          (trade_log s)).
  - intros. constructor.
  - intros index s0 H. exact H.
  - intros token symbol sd quantity dt_index price ts s0 H Hv _ _.
    destruct (filled_cases token symbol sd quantity price ts s0)
      as [[_ [_ Hl]] | [[pos [_ [_ [_ Hl]]]] | [[pos [_ [_ [_ [_ Hl]]]]]
         | [pos [_ [_ [Hz [_ Hl]]]]]]]]; rewrite Hl; auto.
    apply Forall_app. split; [exact H | ].
    constructor; [ | constructor]. split; [exact Hz | simpl; eauto].
Qed.

Lemma trade_records_carry_zero_quantity_witness :
  Forall (fun t => TradeLog.quantity t = 0 /\
                   exists p, TradeLog.exit_price t = Some p)
    (trade_log (run_call (PlaceOrder 7 "A" "SELL" 10 1) scenario_long)).
Proof.
  apply (trade_records_carry_zero_quantity
           (run_call (PlaceOrder 7 "A" "SELL" 10 1) scenario_long)).
  apply (reach_call any_call scenario_long (PlaceOrder 7 "A" "SELL" 10 1));
    [ | reflexivity].
  apply (reach_call any_call scenario_engine (PlaceOrder 7 "A" "BUY" 10 0));
    [ | reflexivity].
  apply (reach_call any_call fresh_engine (SetTimeIndex [0; 1; 2]));
    [ | reflexivity].
  apply reach_init.
Defined.

(** X5.  Cash is the starting cash moved by every recorded order in turn:
    a BUY subtracts executed price times quantity, a SELL adds it. *)
Theorem cash_follows_the_orders s :
  reachable any_call s ->
  cash s = fold_left cash_flow (orders s) (starting_cash s).
Proof.
  apply reachable_invariant
    with (P := fun s => cash s = fold_left cash_flow (orders s) (starting_cash s)).
  - intros. reflexivity.
  - intros index s0 H. exact H.
  - intros token symbol sd quantity dt_index price ts s0 H Hv _ _.
    destruct (filled_orders token symbol sd quantity price ts s0) as [Ho _].
    destruct (filled_frame token symbol sd quantity price ts s0)
      as [_ [_ [_ [Hsc _]]]].
    rewrite Ho, Hsc, fold_left_app, <- H, filled_cash. reflexivity.
Qed.

Lemma cash_follows_the_orders_witness :
  cash scenario_long
  = fold_left cash_flow (orders scenario_long) (starting_cash scenario_long).
Proof.
  apply (cash_follows_the_orders scenario_long).
  apply (reach_call any_call scenario_engine (PlaceOrder 7 "A" "BUY" 10 0));
    [ | reflexivity].
  apply (reach_call any_call fresh_engine (SetTimeIndex [0; 1; 2]));
    [ | reflexivity].
  apply reach_init.
Defined.

(** The frame of a call: configuration kept, logs extended. *)
Lemma run_call_frame c s :
  same_config s (run_call c s) /\ extends_logs s (run_call c s).
Proof.
  apply (run_call_keeps (fun s' => same_config s s' /\ extends_logs s s') any_order).
  - intros index s0 H. exact H.
  - intros token symbol sd quantity dt_index price ts s0
      [[H1 [H2 [H3 [H4 H5]]]] [[no Ho] [nt Ht]]] _ _ _ _.
    destruct (filled_frame token symbol sd quantity price ts s0)
      as [F1 [_ [F3 [F2 F4]]]].
    split.
    + unfold same_config. rewrite F1, F2, F3, F4.
      repeat split; auto.
      destruct s0. unfold filled, settle, after_fill; simpl.
      destruct (Dict.get token positions0) as [pos|]; simpl; auto.
      destruct (adds_to pos sd); simpl; auto.
      destruct (Position.quantity pos - quantity =? 0); simpl; auto.
    + split.
      * destruct (filled_orders token symbol sd quantity price ts s0) as [Hn _].
        rewrite Hn, Ho, <- app_assoc. eauto.
      * destruct (filled_cases token symbol sd quantity price ts s0)
          as [[_ [_ Hl]] | [[pos [_ [_ [_ Hl]]]] | [[pos [_ [_ [_ [_ Hl]]]]]
             | [pos [_ [_ [_ [_ Hl]]]]]]]]; rewrite Hl, Ht; eauto.
        rewrite <- app_assoc. eauto.
  - intros. exact I.
  - split; [repeat split | split; exists []; now rewrite app_nil_r].
  - destruct c; exact I.
Qed.

(** X6.  No call changes the configuration or the market data, and the
    order list and the trade log only grow: after any call, returning or
    raising, market data, starting cash, slippage, loss threshold and debug
    flag are as before, and the old order list and trade log are prefixes
    of the new ones. *)
Theorem calls_keep_config_and_append c s :
  same_config s (run_call c s) /\ extends_logs s (run_call c s).
Proof. apply run_call_frame. Qed.

(* ================================================================= *)
(** ** Stop and target levels *)

(** X8.  The stop and target levels of engine positions are dead: in
    every reachable state, [check_stop_target] on any position of the
    mapping reports neither a stop nor a target hit, at every price,
    because [place_order] never sets the levels. *)
Theorem engine_positions_never_hit_levels s token pos price :
  reachable any_call s ->
  Dict.get token (positions s) = Some pos ->
  check_stop_target pos price = (false, false).
Proof.
  intros Hreach Hget.
  destruct (reachable_well_formed s Hreach) as [_ Hall].
  destruct (Hall token pos Hget) as [_ [_ [_ [_ [Hs [Ht _]]]]]].
  unfold check_stop_target. now rewrite Hs, Ht.
Qed.

Lemma engine_positions_never_hit_levels_witness :
  check_stop_target scenario_position (of_int 1) = (false, false).
Proof.
  apply (engine_positions_never_hit_levels scenario_long 7 scenario_position).
  - apply (reach_call any_call scenario_engine (PlaceOrder 7 "A" "BUY" 10 0));
      [ | reflexivity].
    apply (reach_call any_call fresh_engine (SetTimeIndex [0; 1; 2]));
      [ | reflexivity].
    apply reach_init.
  - exact scenario_long_position.
Defined.

Lemma fge_fle_exclusive a b x :
  (a < b)%Qc -> fle x (Fin a) = true -> fge x (Fin b) = true -> False.
Proof.
  intros Hab Hle Hge. unfold fle in Hle.
  destruct x as [| neg |q]; try discriminate.
  - destruct neg; discriminate.
  - apply fge_Fin in Hle. apply fge_Fin in Hge.
    apply (Qclt_not_le a b Hab). eapply Qcle_trans; eauto.
Qed.

(** X9.  Stop and target are exclusive when the levels are ordered: for a
    long position with finite stop below target, and for any other position
    with finite target below stop, no price hits both; and a not-a-number
    price hits neither, whatever the levels are and whether or not they are
    set. *)
Theorem stop_and_target_are_exclusive pos :
  (forall a b,
     Position.stop_loss pos = Some (Fin a) ->
     Position.target pos = Some (Fin b) ->
     (if String.eqb (upper (Position.side pos)) "LONG"
      then (a < b)%Qc else (b < a)%Qc) ->
     forall price, check_stop_target pos price <> (true, true)) /\
  check_stop_target pos NaN = (false, false).
Proof.
  split.
  - intros a b Hs Ht Hord price. unfold check_stop_target. rewrite Hs, Ht.
    destruct (String.eqb (upper (Position.side pos)) "LONG");
      intros H; apply pair_equal_spec in H; destruct H as [H1 H2].
    + exact (fge_fle_exclusive a b price Hord H1 H2).
    + exact (fge_fle_exclusive b a price Hord H2 H1).
  - unfold check_stop_target, fle.
    destruct (Position.stop_loss pos) as [stop_loss|],
             (Position.target pos) as [target|],
             (String.eqb (upper (Position.side pos)) "LONG");
      rewrite ?fge_NaN_l, ?fge_NaN_r; reflexivity.
Qed.

Lemma stop_and_target_are_exclusive_witness :
  check_stop_target
    (Position.mk 7 "A" "LONG" 1 (of_int 100) 0 (Some (Fin 0%Qc)) (Some (Fin 1%Qc))
       None None (Fin 0%Qc) (Fin 0%Qc)) (of_int 1) <> (true, true) /\
  check_stop_target
    (Position.mk 7 "A" "LONG" 1 (of_int 100) 0 (Some NaN) None
       None None (Fin 0%Qc) (Fin 0%Qc)) NaN = (false, false).
Proof.
  split.
  - apply (proj1 (stop_and_target_are_exclusive
                    (Position.mk 7 "A" "LONG" 1 (of_int 100) 0 (Some (Fin 0%Qc))
                       (Some (Fin 1%Qc)) None None (Fin 0%Qc) (Fin 0%Qc)))
             0%Qc 1%Qc); reflexivity.
  - apply (proj2 (stop_and_target_are_exclusive
                    (Position.mk 7 "A" "LONG" 1 (of_int 100) 0 (Some NaN) None
                       None None (Fin 0%Qc) (Fin 0%Qc)))).
Defined.

(* ================================================================= *)
(** ** Equity *)

Lemma fadd_zero_r (x : float) : fadd x (Fin 0%Qc) = x.
Proof.
  destruct x as [| neg |q]; simpl; try reflexivity.
  apply (f_equal Fin). ring.
Qed.

(** X10.  A flat engine is worth its cash: with no open position,
    [mark_to_market] returns zero and [total_equity] returns the cash, at
    every bar index and even before a time index is set; on a fresh engine
    that is the starting cash. *)
Theorem flat_equity_is_cash dt_index s :
  positions s = [] ->
  mark_to_market dt_index s = (Ok (Fin 0%Qc), s) /\
  total_equity dt_index s = (Ok (cash s), s).
Proof.
  intros Hflat.
  assert (Hm : mark_to_market dt_index s = (Ok (Fin 0%Qc), s)).
  { unfold mark_to_market, bind, gets. rewrite Hflat. reflexivity. }
  split; [exact Hm | ].
  unfold total_equity, bind, gets. rewrite Hm. unfold ret.
  now rewrite fadd_zero_r.
Qed.

Lemma flat_equity_is_cash_witness :
  total_equity 5 fresh_engine = (Ok (starting_cash fresh_engine), fresh_engine).
Proof.
  exact (proj2 (flat_equity_is_cash 5 fresh_engine eq_refl)).
Defined.

Lemma valid_side_cases sd :
  valid_side sd = true -> sd = "BUY"%string \/ sd = "SELL"%string.
Proof.
  unfold valid_side. intros H. apply orb_true_iff in H.
  destruct H as [H|H]; apply String.eqb_eq in H; auto.
Qed.

Lemma filled_cash_finite token symbol sd quantity p ts s c sl :
  cash s = Fin c -> slippage s = Fin sl ->
  cash (filled token symbol sd quantity (Fin p) ts s)
  = Fin (c - order_sign sd * exec_price sl p sd * Zc quantity)%Qc.
Proof.
  intros Hc Hsl. rewrite filled_cash, Hc, Hsl, fill_price_finite.
  unfold order_sign. destruct (String.eqb sd "BUY"); simpl;
    apply (f_equal Fin); ring.
Qed.

Lemma exec_price_no_slippage p sd : exec_price 0%Qc p sd = p.
Proof. unfold exec_price. destruct (String.eqb sd "BUY"); ring. Qed.

Lemma price_at_frame s1 s token dt_index :
  market_data s1 = market_data s -> time_index s1 = time_index s ->
  price_at (market_data s1) (time_index s1) token dt_index
  = price_at (market_data s) (time_index s) token dt_index.
Proof. intros -> ->. reflexivity. Qed.

(** Equity right after a position is opened on a flat engine. *)
Lemma equity_after_opening token symbol side quantity dt_index s c p :
  positions s = [] ->
  cash s = Fin c ->
  slippage s = Fin 0%Qc ->
  valid_side (upper side) = true ->
  price_at (market_data s) (time_index s) token dt_index = Ok (Fin p) ->
  let s' := snd (place_order token symbol side quantity dt_index s) in
  total_equity dt_index s'
  = (Ok (Fin (c - order_sign (upper side) * p * Zc quantity)%Qc), s').
Proof.
  intros Hflat Hc Hsl Hv Hprice s'.
  destruct (place_order_filled token symbol side quantity dt_index (Fin p) s
              Hv Hprice eq_refl) as [ts [_ Hrun]].
  set (sd := upper side) in *.
  assert (E : s' = filled token symbol sd quantity (Fin p) ts s).
  { subst s'. now rewrite Hrun. }
  clearbody s'. clear Hrun.
  destruct (filled_frame token symbol sd quantity (Fin p) ts s)
    as [Fmd [Fti _]].
  assert (Hget : Dict.get token (positions s) = None) by now rewrite Hflat.
  destruct (filled_open token symbol sd quantity (Fin p) ts s Hget) as [Hpos _].
  pose proof (filled_cash_finite token symbol sd quantity p ts s c 0%Qc Hc Hsl)
    as Hcash.
  rewrite <- E in Fmd, Fti, Hpos, Hcash.
  rewrite Hflat, Hsl, fill_price_finite, exec_price_no_slippage in Hpos.
  rewrite exec_price_no_slippage in Hcash.
  simpl in Hpos.
  unfold total_equity, mark_to_market, bind, gets. rewrite Hcash, Hpos.
  unfold Dict.items. simpl mark_to_market_loop. unfold bind.
  rewrite get_market_price_eq, (price_at_frame s' s token dt_index Fmd Fti), Hprice.
  unfold ret. simpl isnan. cbn [negb]. do 2 f_equal.
  unfold Position.update_pnl, order_sign.
  destruct (valid_side_cases sd Hv) as [Hs|Hs]; rewrite Hs; simpl;
    apply (f_equal Fin); ring.
Qed.

(** X11.  Equity is cash plus unrealised PnL, not the value of holdings:
    on a flat engine with zero slippage, right after a BUY of quantity q at
    price p [total_equity] at that bar is the previous cash less p times q,
    and right after a SELL it is the previous cash plus p times q. *)
Theorem opening_moves_equity_by_the_cost token symbol side quantity dt_index s c p :
  positions s = [] ->
  cash s = Fin c ->
  slippage s = Fin 0%Qc ->
  valid_side (upper side) = true ->
  price_at (market_data s) (time_index s) token dt_index = Ok (Fin p) ->
  let s' := snd (place_order token symbol side quantity dt_index s) in
  total_equity dt_index s'
  = (Ok (Fin (c - order_sign (upper side) * p * Zc quantity)%Qc), s').
Proof. apply equity_after_opening. Qed.

Lemma opening_moves_equity_by_the_cost_witness :
  total_equity 0 scenario_long
  = (Ok (Fin (Zc 1000000 - order_sign "BUY" * Zc 100 * Zc 10)%Qc), scenario_long).
Proof.
  exact (opening_moves_equity_by_the_cost 7 "A" "BUY" 10 0 scenario_engine
           (Zc 1000000) (Zc 100) eq_refl eq_refl eq_refl eq_refl eq_refl).
Defined.

(** X13.  Closing at the mark realises the mark: with zero slippage, an
    order of the full quantity on the closing side of a LONG or SHORT
    position, at a bar where the price is p, appends one trade record whose
    pnl is the position's realised PnL plus [update_pnl] of the position at
    p, and removes the token from the mapping. *)
Theorem closing_at_the_mark_realises_it token symbol dt_index s pos p :
  Dict.get token (positions s) = Some pos ->
  Position.side pos = "LONG"%string \/ Position.side pos = "SHORT"%string ->
  slippage s = Fin 0%Qc ->
  price_at (market_data s) (time_index s) token dt_index = Ok (Fin p) ->
  let s' := snd (place_order token symbol (closing_side pos)
                   (Position.quantity pos) dt_index s) in
  exists trade,
    trade_log s' = trade_log s ++ [trade] /\
    TradeLog.pnl trade
    = fadd (Position.realised_pnl pos) (Position.update_pnl pos (Fin p)) /\
    Dict.get token (positions s') = None.
Proof.
  intros Hget Hside Hsl Hprice s'.
  assert (Hv : valid_side (upper (closing_side pos)) = true).
  { rewrite upper_closing. apply valid_closing. }
  destruct (place_order_filled token symbol (closing_side pos)
              (Position.quantity pos) dt_index (Fin p) s Hv Hprice eq_refl)
    as [ts [_ Hrun]].
  rewrite upper_closing in Hrun.
  assert (E : s' = filled token symbol (closing_side pos) (Position.quantity pos)
                     (Fin p) ts s).
  { subst s'. now rewrite Hrun. }
  clearbody s'. clear Hrun.
  destruct (filled_close token symbol (closing_side pos) (Position.quantity pos)
              (Fin p) ts s pos Hget (adds_to_closing pos) ltac:(lia))
    as [Hpos Hlog].
  rewrite <- E in Hpos, Hlog.
  rewrite Hsl, fill_price_finite, exec_price_no_slippage in Hlog.
  eexists. split; [exact Hlog | ]. split.
  - unfold closing_trade. cbn [TradeLog.pnl]. f_equal.
    unfold reduction_pnl, pnl_of, Position.update_pnl, long_pnl, short_pnl.
    destruct Hside as [Hs|Hs]; rewrite Hs; reflexivity.
  - rewrite Hpos. apply DictFacts.get_delitem_same.
Qed.

Lemma closing_at_the_mark_realises_it_witness :
  exists trade,
    trade_log (snd (place_order 7 "A" (closing_side scenario_position)
                      (Position.quantity scenario_position) 1 scenario_long))
    = trade_log scenario_long ++ [trade].
Proof.
  destruct (closing_at_the_mark_realises_it 7 "A" 1 scenario_long
              scenario_position (Zc 110) scenario_long_position
              (or_introl eq_refl) eq_refl eq_refl) as [trade [H _]].
  exists trade. exact H.
Defined.

(* ================================================================= *)
(** ** The price oracle *)

Lemma ts_at_in_range idx dt_index ts :
  ts_at idx dt_index = Ok ts ->
  match idx with
  | Some l => dt_index >=? Z.of_nat (List.length l)
  | None => true
  end = false.
Proof.
  unfold ts_at. destruct idx as [l|]; [ | discriminate].
  destruct (getitem l dt_index) as [t|] eqn:Hget; [ | discriminate].
  intros _. apply getitem_lt in Hget.
  rewrite Z.geb_leb. apply Z.leb_gt. lia.
Qed.

(** The lookup for a token with a frame at a bar with a timestamp. *)
Lemma price_at_known md idx token dt_index df ts :
  Dict.get token md = Some df ->
  ts_at idx dt_index = Ok ts ->
  price_at md idx token dt_index
  = Ok (match iloc_last (loc_upto ts df) with
        | Some price => price
        | None => NaN
        end).
Proof.
  intros Hdf Hts. unfold price_at, Dict.mem.
  rewrite Hdf, (ts_at_in_range idx dt_index ts Hts), Hts. reflexivity.
Qed.

Lemma sorted_filter {A} (R : A -> A -> Prop) (f : A -> bool) (l : list A) :
  StronglySorted R l -> StronglySorted R (filter f l).
Proof.
  induction 1 as [|a l Hs IH Hall]; simpl; [constructor | ].
  destruct (f a); [ | exact IH].
  constructor; [exact IH | ].
  rewrite Forall_forall in *. intros x Hx. apply filter_In in Hx.
  apply Hall. tauto.
Qed.

Lemma sorted_last {A} (R : A -> A -> Prop) (l : list A) :
  StronglySorted R l ->
  forall a rest, rev l = a :: rest ->
  forall x, In x l -> x = a \/ R x a.
Proof.
  induction 1 as [|h t Hs IH Hall]; intros a rest Hrev x Hin; [contradiction | ].
  simpl in Hrev. destruct (rev t) as [|b rest'] eqn:Et.
  - simpl in Hrev. inversion Hrev; subst a rest.
    apply (f_equal (@rev _)) in Et. rewrite rev_involutive in Et. subst t.
    destruct Hin as [<-|[]]. now left.
  - simpl in Hrev. inversion Hrev; subst b rest.
    assert (Hat : In a t) by (apply in_rev; rewrite Et; now left).
    destruct Hin as [<-|Hin].
    + right. rewrite Forall_forall in Hall. now apply Hall.
    + now apply (IH a rest').
Qed.

(** X14.  The price is the most recent close: for a token whose frame is
    in index order and has a row at or before the bar's timestamp,
    [get_market_price] returns the close of a row at or before the
    timestamp that no other such row is later than. *)
Theorem get_market_price_is_latest_close token dt_index s df ts row :
  Dict.get token (market_data s) = Some df ->
  sorted_frame df ->
  ts_at (time_index s) dt_index = Ok ts ->
  In row df -> fst row <= ts ->
  exists latest,
    In latest df /\ fst latest <= ts /\
    (forall row', In row' df -> fst row' <= ts -> fst row' <= fst latest) /\
    get_market_price token dt_index s = (Ok (snd latest), s).
Proof.
  intros Hdf Hsorted Hts Hin Hle.
  rewrite get_market_price_eq, (price_at_known _ _ _ _ df ts Hdf Hts).
  assert (Hrow : In row (loc_upto ts df)).
  { apply filter_In. split; [exact Hin | now apply Z.leb_le]. }
  unfold iloc_last.
  destruct (rev (loc_upto ts df)) as [|latest rest] eqn:Erev.
  - apply (f_equal (@rev _)) in Erev. rewrite rev_involutive in Erev.
    rewrite Erev in Hrow. contradiction.
  - assert (Hl : In latest (loc_upto ts df)) by (apply in_rev; rewrite Erev; now left).
    apply filter_In in Hl. destruct Hl as [Hl1 Hl2]. apply Z.leb_le in Hl2.
    exists latest. repeat split; auto.
    intros row' Hin' Hle'.
    assert (Hr' : In row' (loc_upto ts df)).
    { apply filter_In. split; [exact Hin' | now apply Z.leb_le]. }
    destruct (sorted_last _ _ (sorted_filter _ (fun r => fst r <=? ts) df Hsorted)
                latest rest Erev row' Hr') as [->|H]; [lia | exact H].
Qed.

Lemma get_market_price_is_latest_close_witness :
  exists latest,
    In latest [(0, of_int 100); (1, of_int 110); (2, NaN)] /\
    get_market_price 7 1 scenario_engine = (Ok (snd latest), scenario_engine).
Proof.
  destruct (get_market_price_is_latest_close 7 1 scenario_engine
              [(0, of_int 100); (1, of_int 110); (2, NaN)] 1 (0, of_int 100))
    as [latest [H1 [_ [_ H2]]]].
  - reflexivity.
  - repeat constructor; simpl; lia.
  - reflexivity.
  - now left.
  - simpl. lia.
  - exists latest. split; assumption.
Defined.

Lemma loc_upto_future ts (df future : DataFrame) :
  (forall row, In row future -> ts < fst row) ->
  loc_upto ts (df ++ future) = loc_upto ts df.
Proof.
  intros Hfut. unfold loc_upto. rewrite filter_app.
  match goal with |- _ ++ ?x = _ => assert (E : x = []) end.
  { induction future as [|r future IH]; simpl; [reflexivity | ].
    assert (Hr : ts < fst r) by (apply Hfut; now left).
    match goal with |- (if ?c then _ else _) = _ => destruct c eqn:Ec end.
    - apply Z.leb_le in Ec. unfold timestamp in *. lia.
    - apply IH. intros row Hrow. apply Hfut. now right. }
  rewrite E. apply app_nil_r.
Qed.

(** X15.  No look-ahead: rows later than the bar's timestamp do not change
    the price.  Appending to the frame of a token rows whose minutes are
    after the timestamp of the bar, the extended frame being in index
    order, leaves what [get_market_price] returns at that bar unchanged. *)
Theorem get_market_price_ignores_the_future token dt_index s df future ts :
  Dict.get token (market_data s) = Some df ->
  sorted_frame (df ++ future) ->
  ts_at (time_index s) dt_index = Ok ts ->
  (forall row, In row future -> ts < fst row) ->
  fst (get_market_price token dt_index (with_frame token (df ++ future) s))
  = fst (get_market_price token dt_index s).
Proof.
  intros Hdf _ Hts Hfut. rewrite !get_market_price_eq.
  cbn [fst with_frame market_data time_index].
  pose proof (price_at_known _ (time_index s) token dt_index _ ts
                (DictFacts.get_setitem_same token (df ++ future) (market_data s))
                Hts) as H1.
  etransitivity; [exact H1 | ].
  rewrite (price_at_known _ _ _ _ df ts Hdf Hts).
  now rewrite loc_upto_future.
Qed.

Lemma get_market_price_ignores_the_future_witness :
  fst (get_market_price 7 0
         (with_frame 7 ([(0, of_int 100)] ++ [(1, of_int 110); (2, NaN)])
            (with_frame 7 [(0, of_int 100)] scenario_engine)))
  = fst (get_market_price 7 0 (with_frame 7 [(0, of_int 100)] scenario_engine)).
Proof.
  apply (get_market_price_ignores_the_future 7 0
           (with_frame 7 [(0, of_int 100)] scenario_engine)
           [(0, of_int 100)] [(1, of_int 110); (2, NaN)] 0).
  - reflexivity.
  - repeat constructor; simpl; lia.
  - reflexivity.
  - intros row [<-|[<-|[]]]; simpl; lia.
Defined.

(** X16.  A negative bar index counts from the end: for a time index of
    length n and a bar index i with -n <= i < 0, [get_market_price] at i
    returns what it returns at n + i, so bar -1 reads the last bar of the
    session. *)
Theorem negative_bar_index_wraps token dt_index s l :
  time_index s = Some l ->
  - Z.of_nat (List.length l) <= dt_index < 0 ->
  get_market_price token dt_index s
  = get_market_price token (Z.of_nat (List.length l) + dt_index) s.
Proof.
  intros Hidx [Hlo Hhi]. rewrite !get_market_price_eq. f_equal.
  unfold price_at, ts_at. rewrite Hidx.
  destruct (negb (Dict.mem token (market_data s))); [reflexivity | ].
  replace (dt_index >=? Z.of_nat (List.length l)) with false
    by (symmetry; rewrite Z.geb_leb; apply Z.leb_gt; lia).
  replace (Z.of_nat (List.length l) + dt_index >=? Z.of_nat (List.length l))
    with false by (symmetry; rewrite Z.geb_leb; apply Z.leb_gt; lia).
  unfold getitem.
  replace (0 <=? dt_index) with false by (symmetry; apply Z.leb_gt; lia).
  replace (- Z.of_nat (List.length l) <=? dt_index) with true
    by (symmetry; apply Z.leb_le; lia).
  replace (0 <=? Z.of_nat (List.length l) + dt_index) with true
    by (symmetry; apply Z.leb_le; lia).
  reflexivity.
Qed.

Lemma negative_bar_index_wraps_witness :
  get_market_price 7 (-1) scenario_engine = get_market_price 7 (3 + -1) scenario_engine.
Proof.
  apply (negative_bar_index_wraps 7 (-1) scenario_engine [0; 1; 2]).
  - reflexivity.
  - simpl. lia.
Defined.

(** X17.  Bars outside the time index: for a token of the market data,
    [get_market_price] raises [IndexError], and leaves the engine as it
    is, when no time index is set, when the bar index is at least its
    length, and when it is below minus its length. *)
Theorem get_market_price_out_of_range token dt_index s :
  Dict.mem token (market_data s) = true ->
  match time_index s with
  | None => True
  | Some l =>
      Z.of_nat (List.length l) <= dt_index \/ dt_index < - Z.of_nat (List.length l)
  end ->
  get_market_price token dt_index s = (Raise IndexError, s).
Proof.
  intros Hmem Hout. rewrite get_market_price_eq. f_equal.
  unfold price_at, ts_at. rewrite Hmem. cbn [negb].
  destruct (time_index s) as [l|]; [ | reflexivity].
  destruct (dt_index >=? Z.of_nat (List.length l)) eqn:E; [reflexivity | ].
  rewrite Z.geb_leb in E. apply Z.leb_gt in E.
  destruct Hout as [H|H]; [lia | ].
  unfold getitem.
  replace (0 <=? dt_index) with false by (symmetry; apply Z.leb_gt; lia).
  replace (- Z.of_nat (List.length l) <=? dt_index) with false
    by (symmetry; apply Z.leb_gt; lia).
  reflexivity.
Qed.

Lemma get_market_price_out_of_range_witness :
  get_market_price 7 3 scenario_engine = (Raise IndexError, scenario_engine).
Proof.
  apply (get_market_price_out_of_range 7 3 scenario_engine).
  - reflexivity.
  - left. simpl. lia.
Defined.

(* ================================================================= *)
(** ** Strikes *)

Lemma round_half_even_near (x : Q) :
  (inject_Z (round_half_even x) - (1 # 2) <= x)%Q /\
  (x <= inject_Z (round_half_even x) + (1 # 2))%Q.
Proof.
  unfold round_half_even.
  pose proof (Qfloor_le x) as Hlo. pose proof (Qlt_floor x) as Hhi.
  rewrite inject_Z_plus in Hhi. change (inject_Z 1) with 1%Q in Hhi.
  destruct (x - inject_Z (Qfloor x) ?= 1 # 2)%Q eqn:E.
  - apply Qeq_alt in E.
    destruct (Z.even (Qfloor x)); rewrite ?inject_Z_plus;
      change (inject_Z 1) with 1%Q; split; lra.
  - apply Qlt_alt in E. split; lra.
  - apply Qgt_alt in E. rewrite inject_Z_plus.
    change (inject_Z 1) with 1%Q. split; lra.
Qed.

Lemma Qfloor_between (x : Q) (k : Z) :
  (inject_Z k <= x)%Q -> (x < inject_Z k + 1)%Q -> Qfloor x = k.
Proof.
  intros Hlo Hhi.
  pose proof (Qfloor_le x) as Flo. pose proof (Qlt_floor x) as Fhi.
  assert (H1 : (inject_Z (Qfloor x) < inject_Z (k + 1))%Q)
    by (rewrite inject_Z_plus; change (inject_Z 1) with 1%Q; lra).
  assert (H2 : (inject_Z k < inject_Z (Qfloor x + 1))%Q) by lra.
  rewrite <- Zlt_Qlt in H1, H2. lia.
Qed.

Lemma this_div_Zc (p : Qc) (step : Z) :
  (this (p / Zc step)%Qc == this p / inject_Z step)%Q.
Proof.
  unfold Qcdiv, Qcmult, Qcinv, Zc, Q2Qc. cbn [this].
  rewrite !Qred_correct. reflexivity.
Qed.

Lemma nearest_strike_finite (p : Qc) (step : Z) :
  step <> 0 ->
  nearest_strike (Fin p) step
  = inr (round_half_even (this (p / Zc step)%Qc) * step).
Proof.
  intros Hstep. unfold nearest_strike, of_int, fdiv.
  now rewrite (is_zero_false (Zc step) (Zc_nonzero step Hstep)).
Qed.

(** The rounded quotient is at least as close as any other integer. *)
Lemma round_half_even_nearest (x : Q) (m : Z) :
  (Qabs (x - inject_Z (round_half_even x)) <= Qabs (x - inject_Z m))%Q.
Proof.
  destruct (round_half_even_near x) as [Hlo Hhi].
  set (k := round_half_even x) in *.
  destruct (Z.eq_dec m k) as [->|Hne]; [apply Qle_refl | ].
  assert (Hk : (Qabs (x - inject_Z k) <= 1 # 2)%Q).
  { apply Qabs_case; intros; lra. }
  assert (Hm : (1 # 2 <= Qabs (x - inject_Z m))%Q).
  { destruct (Z_lt_le_dec m k) as [Hlt|Hge].
    - assert (H : (inject_Z m + 1 <= inject_Z k)%Q).
      { change 1%Q with (inject_Z 1). rewrite <- (inject_Z_plus m 1).
        rewrite <- Zle_Qle. lia. }
      apply Qabs_case; intros; lra.
    - assert (H : (inject_Z k + 1 <= inject_Z m)%Q).
      { change 1%Q with (inject_Z 1). rewrite <- (inject_Z_plus k 1).
        rewrite <- Zle_Qle. lia. }
      apply Qabs_case; intros; lra. }
  lra.
Qed.

(** With the exact quotient, the strike is a nearest multiple of the
    step. *)
Lemma nearest_multiple (p : Qc) (step : Z) :
  0 < step ->
  exists k,
    nearest_strike (Fin p) step = inr (k * step) /\
    forall m : Z,
      (Qabs (p - inject_Z (k * step)) <= Qabs (p - inject_Z (m * step)))%Q.
Proof.
  intros Hstep.
  exists (round_half_even (this (p / Zc step)%Qc)).
  split; [apply nearest_strike_finite; lia | ].
  intros m.
  pose proof (this_div_Zc p step) as Hx.
  set (x := this (p / Zc step)%Qc) in *.
  pose proof (round_half_even_nearest x m) as Hnear.
  set (k := round_half_even x) in *.
  assert (Hs : (0 < inject_Z step)%Q).
  { change 0%Q with (inject_Z 0). rewrite <- Zlt_Qlt. exact Hstep. }
  assert (Hp : (this p == x * inject_Z step)%Q).
  { rewrite Hx. field. lra. }
  assert (Hd : forall j : Z,
             (Qabs (p - inject_Z (j * step))
              == Qabs (x - inject_Z j) * inject_Z step)%Q).
  { intros j. rewrite inject_Z_mult, Hp.
    setoid_replace (x * inject_Z step - inject_Z j * inject_Z step)%Q
      with ((x - inject_Z j) * inject_Z step)%Q by ring.
    rewrite Qabs_Qmult. rewrite (Qabs_pos (inject_Z step)) by lra. reflexivity. }
  rewrite (Hd k), (Hd m).
  apply Qmult_le_compat_r; [exact Hnear | lra].
Qed.

(** X19.  Halves go to the even multiple: a finite price exactly halfway
    between k * step and (k + 1) * step is rounded to k * step when k is
    even and to (k + 1) * step when k is odd (25 gives 0 and 75 gives 100
    for step 50). *)
Theorem nearest_strike_ties_to_even (p : Qc) (step k : Z) :
  0 < step ->
  (this p == inject_Z ((2 * k + 1) * step) / 2)%Q ->
  nearest_strike (Fin p) step
  = inr ((if Z.even k then k else k + 1) * step).
Proof.
  intros Hstep Hp.
  rewrite nearest_strike_finite by lia. f_equal. f_equal.
  pose proof (this_div_Zc p step) as Hx.
  set (x := this (p / Zc step)%Qc) in *.
  assert (Hs : (0 < inject_Z step)%Q).
  { change 0%Q with (inject_Z 0). rewrite <- Zlt_Qlt. exact Hstep. }
  assert (Hxk : (x == inject_Z k + (1 # 2))%Q).
  { rewrite Hx, Hp, inject_Z_mult, inject_Z_plus, inject_Z_mult.
    change (inject_Z 2) with 2%Q. change (inject_Z 1) with 1%Q. field. lra. }
  unfold round_half_even.
  assert (Hf : Qfloor x = k) by (apply Qfloor_between; lra).
  rewrite Hf.
  assert (E : (x - inject_Z k ?= 1 # 2)%Q = Eq) by (apply Qeq_alt; lra).
  now rewrite E.
Qed.

Lemma nearest_strike_ties_to_even_witness :
  nearest_strike (of_int 75) 50 = inr ((if Z.even 1 then 1 else 1 + 1) * 50).
Proof.
  apply (nearest_strike_ties_to_even (Zc 75) 50 1); reflexivity.
Defined.


(* ================================================================= *)
(** ** Averages and momentum *)

Lemma this_plus (a b : Qc) : (this (a + b)%Qc == this a + this b)%Q.
Proof. unfold Qcplus, Q2Qc. cbn [this]. apply Qred_correct. Qed.

Lemma this_mult (a b : Qc) : (this (a * b)%Qc == this a * this b)%Q.
Proof. unfold Qcmult, Q2Qc. cbn [this]. apply Qred_correct. Qed.

Lemma this_opp (a : Qc) : (this (- a)%Qc == - this a)%Q.
Proof. unfold Qcopp, Q2Qc. cbn [this]. apply Qred_correct. Qed.

Lemma this_minus (a b : Qc) : (this (a - b)%Qc == this a - this b)%Q.
Proof. unfold Qcminus. rewrite this_plus, this_opp. reflexivity. Qed.

Lemma this_div (a b : Qc) : (this (a / b)%Qc == this a / this b)%Q.
Proof.
  unfold Qcdiv, Qcmult, Qcinv, Q2Qc. cbn [this].
  rewrite !Qred_correct. reflexivity.
Qed.

Lemma this_Zc (z : Z) : (this (Zc z) == inject_Z z)%Q.
Proof. unfold Zc, Q2Qc. cbn [this]. apply Qred_correct. Qed.

Lemma ewm_from_length alpha prev xs :
  List.length (ewm_from alpha prev xs) = List.length xs.
Proof.
  revert prev. induction xs as [|x rest IH]; intros prev; simpl; auto.
Qed.

Lemma ewm_mean_length alpha xs :
  List.length (ewm_mean alpha xs) = List.length xs.
Proof.
  destruct xs as [|x rest]; simpl; [reflexivity | ].
  now rewrite ewm_from_length.
Qed.

Lemma inject_Z_pos (z : Z) : 0 < z -> (0 < inject_Z z)%Q.
Proof. intros H. change 0%Q with (inject_Z 0). now rewrite <- Zlt_Qlt. Qed.

Lemma is_neg_true (q : Qc) : is_neg q = true -> (q < 0)%Qc.
Proof.
  unfold is_neg. destruct (q ?= 0)%Qc eqn:E; try discriminate.
  intros _. now apply Qclt_alt.
Qed.

Lemma is_neg_false (q : Qc) : is_neg q = false -> (0 <= q)%Qc.
Proof.
  unfold is_neg. destruct (q ?= 0)%Qc eqn:E; try discriminate; intros _.
  - apply Qceq_alt in E. subst q. apply Qcle_refl.
  - apply Qclt_le_weak. now apply Qcgt_alt.
Qed.

Lemma nonneg_not_neg (q : Qc) : (0 <= q)%Qc -> is_neg q = false.
Proof.
  intros H. destruct (is_neg q) eqn:E; [ | reflexivity].
  apply is_neg_true in E. exfalso. exact (Qclt_not_le _ _ E H).
Qed.

Lemma is_zero_true (q : Qc) : is_zero q = true -> q = 0%Qc.
Proof.
  unfold is_zero. destruct (q ?= 0)%Qc eqn:E; try discriminate.
  intros _. now apply Qceq_alt.
Qed.

Lemma gain_nonneg (d : Qc) : (0 <= gain d)%Qc.
Proof.
  unfold gain. destruct (is_neg d) eqn:E.
  - apply Qcle_refl.
  - now apply is_neg_false.
Qed.

Lemma loss_nonneg (d : Qc) : (0 <= loss d)%Qc.
Proof.
  unfold loss. destruct (is_neg d) eqn:E.
  - apply is_neg_true in E. unfold Qclt, Qcle in *. rewrite this_opp.
    change (this 0%Qc) with 0%Q in *. lra.
  - apply Qcle_refl.
Qed.

Lemma convex_nonneg (alpha prev x : Qc) :
  (0 <= alpha)%Qc -> (alpha <= 1)%Qc -> (0 <= prev)%Qc -> (0 <= x)%Qc ->
  (0 <= (1 - alpha) * prev + alpha * x)%Qc.
Proof.
  unfold Qcle. intros H H0 H1 H2.
  rewrite this_plus, !this_mult, this_minus.
  change (this 1%Qc) with 1%Q in *. change (this 0%Qc) with 0%Q in *.
  assert (H5 : (0 <= (1 - alpha) * prev)%Q) by (apply Qmult_le_0_compat; lra).
  assert (H6 : (0 <= alpha * x)%Q) by (apply Qmult_le_0_compat; lra).
  lra.
Qed.

Lemma ewm_mean_nonneg alpha xs :
  (0 <= alpha)%Qc -> (alpha <= 1)%Qc ->
  Forall (fun x => (0 <= x)%Qc) xs ->
  Forall (fun x => (0 <= x)%Qc) (ewm_mean alpha xs).
Proof.
  intros Ha0 Ha1 Hall. destruct xs as [|x rest]; simpl; [constructor | ].
  inversion Hall as [|x0 l Hx Hrest]; subst. constructor; [exact Hx | ].
  clear Hall. revert x Hx. induction rest as [|y rest IH]; intros x Hx; simpl.
  - constructor.
  - inversion Hrest; subst.
    assert (Hy : (0 <= (1 - alpha) * x + alpha * y)%Qc)
      by now apply convex_nonneg.
    constructor; [exact Hy | now apply IH].
Qed.

Lemma rsi_alpha_range (period : Z) :
  1 <= period ->
  (0 <= 1 / Zc period)%Qc /\ (1 / Zc period <= 1)%Qc.
Proof.
  intros Hp. unfold Qcle. rewrite this_div, this_Zc.
  change (this 1%Qc) with 1%Q. change (this 0%Qc) with 0%Q.
  assert (Hq : (1 <= inject_Z period)%Q).
  { change 1%Q with (inject_Z 1). now rewrite <- Zle_Qle. }
  split.
  - apply Qle_shift_div_l; lra.
  - apply Qle_shift_div_r; lra.
Qed.

(** One value of the oscillator, from non-negative smoothed gain and loss. *)
Lemma rsi_value_range (u d : Qc) :
  (0 <= u)%Qc -> (0 <= d)%Qc ->
  rsi_value u d = NaN \/
  exists q, rsi_value u d = Fin q /\ between 0%Qc (Zc 100) q.
Proof.
  intros Hu Hd. unfold rsi_value, of_int.
  change (fdiv (Fin u) (Fin d))
    with (if is_zero d then (if is_zero u then NaN else Inf (is_neg u))
          else Fin (u / d)%Qc).
  destruct (is_zero d) eqn:Ed.
  - destruct (is_zero u) eqn:Eu.
    + left. reflexivity.
    + right. rewrite (nonneg_not_neg u Hu). simpl.
      eexists. split; [reflexivity | ].
      split; unfold Qcle; vm_compute; discriminate.
  - right.
    assert (Hdpos : (0 < this d)%Q).
    { unfold Qcle in Hd. change (this 0%Qc) with 0%Q in Hd.
      destruct (Qlt_le_dec 0 (this d)) as [H|H]; [exact H | ].
      exfalso. assert (E : d = 0%Qc).
      { apply Qc_is_canon. change (this 0%Qc) with 0%Q. lra. }
      subst d. discriminate Ed. }
    assert (Hrs : (0 <= this u / this d)%Q).
    { unfold Qcle in Hu. change (this 0%Qc) with 0%Q in Hu.
      apply Qle_shift_div_l; lra. }
    set (t := (Zc 1 + u / d)%Qc).
    assert (Ht : (this t == 1 + this u / this d)%Q).
    { subst t. rewrite this_plus, this_div, this_Zc. reflexivity. }
    assert (Htz : is_zero t = false).
    { apply is_zero_false. intros E. rewrite E in Ht.
      change (this 0%Qc) with 0%Q in Ht. lra. }
    cbn [fadd fdiv]. fold t. rewrite Htz. cbn [fsub fneg fadd].
    eexists. split; [reflexivity | ].
    unfold between, Qcle.
    rewrite this_plus, this_opp, this_div, this_Zc, Ht.
    change (this 0%Qc) with 0%Q. change (inject_Z 100) with 100%Q.
    assert (H1 : (100 / (1 + this u / this d) <= 100)%Q)
      by (apply Qle_shift_div_r; lra).
    assert (H2 : (0 <= 100 / (1 + this u / this d))%Q)
      by (apply Qle_shift_div_l; lra).
    split; lra.
Qed.

(** X22.  The oscillator stays on its scale: for a period of at least 1
    [rsi] returns a series of the length of its input, whose first value,
    when the input is not empty, is missing (not-a-number), and whose every
    value is either not-a-number or between 0 and 100. *)
Theorem rsi_stays_on_its_scale (series : list Qc) (period : Z) :
  1 <= period ->
  exists vs,
    rsi series period = inr vs /\
    List.length vs = List.length series /\
    (series <> [] -> hd_error vs = Some NaN) /\
    Forall (fun v => v = NaN \/ exists q, v = Fin q /\ between 0%Qc (Zc 100) q) vs.
Proof.
  intros Hp. unfold rsi.
  replace (period =? 0) with false by (symmetry; apply Z.eqb_neq; lia).
  replace (period <? 0) with false by (symmetry; apply Z.ltb_ge; lia).
  eexists. split; [reflexivity | ].
  destruct series as [|x0 rest];
    [split; [reflexivity | split; [congruence | constructor]] | ].
  destruct (rsi_alpha_range period Hp) as [Ha0 Ha1].
  set (alpha := (1 / Zc period)%Qc) in *.
  set (delta := diff_from x0 rest).
  assert (Hlen : List.length delta = List.length rest).
  { subst delta. revert x0. induction rest as [|x rest IH]; intros x0; simpl; auto. }
  split; [ | split; [reflexivity | ]].
  - simpl. rewrite length_map, length_combine, !ewm_mean_length, !length_map.
    rewrite Nat.min_id. now rewrite Hlen.
  - constructor; [now left | ].
    assert (Hup : Forall (fun x => (0 <= x)%Qc) (ewm_mean alpha (map gain delta))).
    { apply ewm_mean_nonneg; auto. apply Forall_map. apply Forall_forall.
      intros d _. apply gain_nonneg. }
    assert (Hdown : Forall (fun x => (0 <= x)%Qc) (ewm_mean alpha (map loss delta))).
    { apply ewm_mean_nonneg; auto. apply Forall_map. apply Forall_forall.
      intros d _. apply loss_nonneg. }
    apply Forall_map. apply Forall_forall. intros [u d] Hin.
    pose proof (in_combine_l _ _ _ _ Hin) as Hu.
    pose proof (in_combine_r _ _ _ _ Hin) as Hd.
    rewrite Forall_forall in Hup, Hdown.
    apply rsi_value_range; simpl; auto.
Qed.

Lemma rsi_stays_on_its_scale_witness :
  exists vs,
    rsi [Zc 100; Zc 110; Zc 90] 14 = inr vs /\ List.length vs = 3%nat /\
    hd_error vs = Some NaN.
Proof.
  destruct (rsi_stays_on_its_scale [Zc 100; Zc 110; Zc 90] 14 ltac:(lia))
    as [vs [H1 [H2 [H3 _]]]].
  exists vs. repeat split; try assumption. apply H3. discriminate.
Defined.

(* ================================================================= *)
(** ** The contract table *)

Lemma ends_with_iff (s suffix : string) :
  ends_with s suffix = true <-> exists pre, s = (pre ++ suffix)%string.
Proof.
  induction s as [|c s IH]; cbn [ends_with].
  - rewrite orb_false_r. split.
    + intros H. apply String.eqb_eq in H. subst. now exists EmptyString.
    + intros [pre H]. destruct pre; simpl in H; [ | discriminate].
      subst. apply String.eqb_refl.
  - rewrite orb_true_iff, IH. split.
    + intros [H | [pre H]].
      * apply String.eqb_eq in H. rewrite <- H. now exists EmptyString.
      * exists (String c pre). simpl. now rewrite H.
    + intros [pre H]. destruct pre as [|c' pre]; simpl in H.
      * left. rewrite <- H. apply String.eqb_refl.
      * right. exists pre. congruence.
Qed.

Lemma minimum_le (l : list Z) (x : Z) :
  minimum x l <= x /\ Forall (fun y => minimum x l <= y) l.
Proof.
  revert x. induction l as [|y l IH]; intros x; simpl.
  - split; [lia | constructor].
  - destruct (IH (Z.min x y)) as [H1 H2]. split; [lia | ].
    constructor; [lia | exact H2].
Qed.

Lemma minimum_in (l : list Z) (x : Z) :
  minimum x l = x \/ In (minimum x l) l.
Proof.
  revert x. induction l as [|y l IH]; intros x; simpl.
  - now left.
  - destruct (IH (Z.min x y)) as [H | H].
    + destruct (Z.min_spec x y) as [[_ E] | [_ E]]; rewrite E in *; auto.
    + auto.
Qed.

Lemma find_option_token_cases (contract_df : list contract) (strike : Z)
    (option_type : string) (trade_date : timestamp) :
  let suffix := (str_of_int strike ++ upper option_type)%string in
  match find_option_token contract_df strike option_type trade_date with
  | Some (token, description) =>
      exists row,
        live_option contract_df trade_date row /\
        nearest_expiry contract_df trade_date row /\
        ends_with (Description row) suffix = true /\
        exchangeInstrumentID row = token /\
        Description row = description
  | None =>
      forall row,
        live_option contract_df trade_date row ->
        nearest_expiry contract_df trade_date row ->
        ends_with (Description row) suffix = false
  end.
Proof.
  intros suffix. unfold find_option_token. fold suffix.
  set (idx_opts := filter _ contract_df).
  set (candidates := filter _ idx_opts).
  assert (Hcand : forall row, In row candidates <-> live_option contract_df trade_date row).
  { intros row. unfold candidates, idx_opts, live_option.
    rewrite !filter_In, String.eqb_eq, Z.leb_le. tauto. }
  destruct candidates as [|first others] eqn:Ec.
  - intros row Hlive _. apply Hcand in Hlive. destruct Hlive.
  - set (nearest := minimum (expiry_date first) (map expiry_date others)).
    assert (Hmin : forall row, In row (first :: others) -> nearest <= expiry_date row).
    { intros row [<- | Hin].
      - apply minimum_le.
      - destruct (minimum_le (map expiry_date others) (expiry_date first)) as [_ H].
        rewrite Forall_forall in H. apply H. now apply in_map. }
    assert (Hnear : forall row,
               In row (first :: others) ->
               (expiry_date row = nearest <-> nearest_expiry contract_df trade_date row)).
    { intros row Hin. split.
      - intros E other Hother. rewrite E. apply Hmin. now apply Hcand.
      - intros Hrow. apply Z.le_antisymm; [ | now apply Hmin].
        destruct (minimum_in (map expiry_date others) (expiry_date first)) as [E | E];
          fold nearest in E.
        + rewrite E. apply Hrow. apply Hcand. now left.
        + apply in_map_iff in E. destruct E as [other [E Hin']].
          rewrite <- E. apply Hrow. apply Hcand. now right. }
    set (same_expiry := filter _ (first :: others)).
    destruct (filter _ same_expiry) as [|row rest] eqn:Ef.
    + intros row Hlive Hrow.
      destruct (ends_with (Description row) suffix) eqn:Es; [ | reflexivity].
      assert (Hin : In row (filter (fun row => ends_with (Description row) suffix) same_expiry)).
      { apply filter_In. split; [ | exact Es].
        apply filter_In. split; [now apply Hcand | ].
        apply Z.eqb_eq. apply Hnear; [now apply Hcand | exact Hrow]. }
      rewrite Ef in Hin. destruct Hin.
    + assert (Hin : In row (filter (fun row => ends_with (Description row) suffix) same_expiry))
        by (rewrite Ef; now left).
      apply filter_In in Hin. destruct Hin as [Hin Hs].
      apply filter_In in Hin. destruct Hin as [Hin Hd].
      apply Z.eqb_eq in Hd.
      exists row. split; [now apply Hcand | ].
      split; [now apply Hnear | ]. auto.
Qed.

Lemma unique_ids_inj (contract_df : list contract) (a b : contract) :
  unique_ids contract_df ->
  In a contract_df -> In b contract_df ->
  exchangeInstrumentID a = exchangeInstrumentID b -> a = b.
Proof.
  unfold unique_ids. induction contract_df as [|r l IH]; simpl; [tauto | ].
  intros Hnd Ha Hb E. inversion Hnd as [|? ? Hnot Hnd']; subst.
  destruct Ha as [-> | Ha], Hb as [-> | Hb]; auto.
  - exfalso. apply Hnot. rewrite E. now apply in_map.
  - exfalso. apply Hnot. rewrite <- E. now apply in_map.
Qed.

(** X23.  What [find_option_token] returns is in the table: the token and
    the description are those of one row, which is a NIFTY index option
    that has not expired on the trade date, whose description ends with
    the strike followed by the option type in upper case, and no live
    index option expires before it. *)
Theorem find_option_token_finds_nearest_expiry (contract_df : list contract)
    (strike : Z) (option_type : string) (trade_date : timestamp)
    (token : Z) (description : string) :
  find_option_token contract_df strike option_type trade_date
  = Some (token, description) ->
  exists row,
    live_option contract_df trade_date row /\
    nearest_expiry contract_df trade_date row /\
    exchangeInstrumentID row = token /\
    Description row = description /\
    exists pre,
      description = (pre ++ str_of_int strike ++ upper option_type)%string.
Proof.
  intros H.
  pose proof (find_option_token_cases contract_df strike option_type trade_date) as Hc.
  cbv zeta in Hc. rewrite H in Hc.
  destruct Hc as [row [Hlive [Hnear [Hs [Hid Hd]]]]].
  exists row. repeat (split; [assumption | ]).
  apply ends_with_iff in Hs. now rewrite <- Hd.
Qed.

Lemma find_option_token_finds_nearest_expiry_witness :
  exists row,
    live_option scenario_contracts 1995 row /\
    nearest_expiry scenario_contracts 1995 row /\
    exchangeInstrumentID row = 12 /\
    Description row = "NIFTY W2 26200PE"%string /\
    exists pre,
      "NIFTY W2 26200PE"%string
      = (pre ++ str_of_int 26200 ++ upper "pe")%string.
Proof.
  apply (find_option_token_finds_nearest_expiry scenario_contracts 26200 "pe" 1995).
  reflexivity.
Defined.

(** X24.  [find_option_token] never rolls over to a later expiry: it
    returns [None] exactly when no live index option of the nearest expiry
    has a description ending with the strike and the option type, whatever
    the later expiries list. *)
Theorem find_option_token_none_iff (contract_df : list contract)
    (strike : Z) (option_type : string) (trade_date : timestamp) :
  find_option_token contract_df strike option_type trade_date = None
  <-> forall row,
        live_option contract_df trade_date row ->
        nearest_expiry contract_df trade_date row ->
        ends_with (Description row) (str_of_int strike ++ upper option_type) = false.
Proof.
  pose proof (find_option_token_cases contract_df strike option_type trade_date) as Hc.
  cbv zeta in Hc.
  destruct (find_option_token contract_df strike option_type trade_date)
    as [[token description]|].
  - split; [discriminate | ]. intros H.
    destruct Hc as [row [Hlive [Hnear [Hs _]]]].
    rewrite (H row Hlive Hnear) in Hs. discriminate.
  - split; auto.
Qed.

(** The strike 26250 is listed for the later expiry only: no token. *)
Example later_expiry_is_not_used :
  find_option_token scenario_contracts 26250 "CE" 1995 = None
  /\ find_option_token scenario_contracts 26250 "CE" 11520 = Some (22, "NIFTY W3 26250CE"%string).
Proof. split; reflexivity. Qed.

(** X25.  The two lookups agree: when instrument ids are not repeated in
    the table, the description returned by [find_option_token] is the one
    [get_symbol_from_token] gives for the returned token. *)
Theorem option_token_has_its_symbol (contract_df : list contract)
    (strike : Z) (option_type : string) (trade_date : timestamp)
    (token : Z) (description : string) :
  unique_ids contract_df ->
  find_option_token contract_df strike option_type trade_date
  = Some (token, description) ->
  get_symbol_from_token contract_df token = Some description.
Proof.
  intros Hu H.
  pose proof (find_option_token_cases contract_df strike option_type trade_date) as Hc.
  cbv zeta in Hc. rewrite H in Hc.
  destruct Hc as [row [[Hin _] [_ [_ [Hid Hd]]]]].
  unfold get_symbol_from_token.
  destruct (filter _ contract_df) as [|row' rest] eqn:Ef.
  - assert (Hr : In row (filter (fun r => exchangeInstrumentID r =? token) contract_df)).
    { apply filter_In. split; [exact Hin | now apply Z.eqb_eq]. }
    rewrite Ef in Hr. destruct Hr.
  - assert (Hr : In row' (filter (fun r => exchangeInstrumentID r =? token) contract_df))
      by (rewrite Ef; now left).
    apply filter_In in Hr. destruct Hr as [Hin' Hid']. apply Z.eqb_eq in Hid'.
    rewrite (unique_ids_inj contract_df row' row Hu Hin' Hin) by congruence.
    now rewrite Hd.
Qed.

Lemma option_token_has_its_symbol_witness :
  get_symbol_from_token scenario_contracts 11 = Some "NIFTY W2 26200CE"%string.
Proof.
  apply (option_token_has_its_symbol scenario_contracts 26200 "CE" 1995).
  - unfold unique_ids. simpl.
    repeat (constructor; [simpl; intuition discriminate | ]). constructor.
  - reflexivity.
Defined.

(* ================================================================= *)
(** ** The mean-reversion strategy *)

Lemma quoted_filled token dt_index price ts token' symbol sd quantity price' ts' s :
  quoted token dt_index price ts s ->
  quoted token dt_index price ts (filled token' symbol sd quantity price' ts' s).
Proof.
  unfold quoted.
  destruct (filled_frame token' symbol sd quantity price' ts' s) as [Hmd [Hti _]].
  cbv zeta in Hmd, Hti. now rewrite Hmd, Hti.
Qed.

(** An order of a strategy at a quoted bar is filled. *)
Lemma simulator_place_order {St} token symbol sd quantity dt_index price ts
    (self : St) s :
  quoted token dt_index price ts s ->
  valid_side sd = true -> upper sd = sd ->
  simulator (place_order token symbol sd quantity dt_index) self s
  = (Next (order_of s token symbol sd quantity price ts), self,
     filled token symbol sd quantity price ts s).
Proof.
  intros [Hts [Hprice Hnan]] Hv Hu.
  destruct (place_order_filled token symbol sd quantity dt_index price s)
    as [ts' [Hts' Hrun]]; auto; [now rewrite Hu | ].
  rewrite Hu in Hrun. rewrite Hts in Hts'. injection Hts' as <-.
  unfold simulator. now rewrite Hrun.
Qed.

Section MeanReversionBlocks.

Import MeanReversion.

Variable contract_df : list contract.
Variable dt_index : Z.
Variable price : float.
Variable ts : timestamp.
Variable self : t.
Variable s : Simulator.
Hypothesis Hq : quoted (token self) dt_index price ts s.

Let symbol := symbol_or_token contract_df (token self).

Lemma enter_eq ema_val upper_val lower_val rsi_val :
  enter contract_df dt_index price ema_val upper_val lower_val rsi_val self s
  = if fle price lower_val && flt rsi_val (of_int 30) && fgt price ema_val then
      (Next tt,
       set_entry_price (Some price)
         (set_entry_index (Some dt_index) (set_in_position (Some "LONG"%string) self)),
       filled (token self) symbol "BUY" 1 price ts s)
    else if fge price upper_val && fgt rsi_val (of_int 70) && flt price ema_val then
      (Next tt,
       set_entry_price (Some price)
         (set_entry_index (Some dt_index) (set_in_position (Some "SHORT"%string) self)),
       filled (token self) symbol "SELL" 1 price ts s)
    else (Next tt, self, s).
Proof.
  unfold enter, and_then, attr, assign.
  destruct (fle price lower_val && flt rsi_val (of_int 30) && fgt price ema_val).
  - now rewrite (simulator_place_order _ _ _ _ _ price ts self s Hq).
  - destruct (fge price upper_val && fgt rsi_val (of_int 70) && flt price ema_val).
    + now rewrite (simulator_place_order _ _ _ _ _ price ts self s Hq).
    + reflexivity.
Qed.

Lemma manage_eq held ema_val rsi_val :
  manage contract_df dt_index held price ema_val rsi_val self s
  = match Dict.get (token self) (positions s) with
    | None => (Return, set_in_position None self, s)
    | Some pos =>
        if String.eqb held "LONG"
           && (flt price ema_val || fge rsi_val (of_int 50)) then
          (Next tt,
           set_entry_price None (set_entry_index None (set_in_position None self)),
           filled (token self) symbol "SELL" (Position.quantity pos) price ts s)
        else if String.eqb held "SHORT"
                && (fgt price ema_val || fle rsi_val (of_int 50)) then
          (Next tt,
           set_entry_price None (set_entry_index None (set_in_position None self)),
           filled (token self) symbol "BUY" (Position.quantity pos) price ts s)
        else (Next tt, self, s)
    end.
Proof.
  unfold manage, and_then, attr, assign, position_of, return_.
  unfold simulator at 1. unfold gets.
  destruct (Dict.get (token self) (positions s)) as [pos|]; [ | reflexivity].
  destruct (String.eqb held "LONG" && (flt price ema_val || fge rsi_val (of_int 50))).
  - now rewrite (simulator_place_order _ _ _ _ _ price ts self s Hq).
  - destruct (String.eqb held "SHORT" && (fgt price ema_val || fle rsi_val (of_int 50))).
    + now rewrite (simulator_place_order _ _ _ _ _ price ts self s Hq).
    + reflexivity.
Qed.

Lemma square_off_at_close_eq :
  square_off_at_close contract_df dt_index ts self s
  = if (time_of ts =? 15 * 60 + 15)
       && match in_position self with Some _ => true | None => false end then
      (Next tt, set_in_position None self,
       match Dict.get (token self) (positions s) with
       | Some pos =>
           filled (token self) symbol (closing_side pos) (Position.quantity pos)
             price ts s
       | None => s
       end)
    else (Next tt, self, s).
Proof.
  unfold square_off_at_close, and_then, attr, assign, position_of.
  destruct ((time_of ts =? 15 * 60 + 15)
            && match in_position self with Some _ => true | None => false end);
    [ | reflexivity].
  unfold simulator at 1. unfold gets.
  destruct (Dict.get (token self) (positions s)) as [pos|]; [ | reflexivity].
  fold (closing_side pos).
  rewrite (simulator_place_order _ _ _ _ _ price ts self s Hq);
    [reflexivity | apply valid_closing | apply upper_closing].
Qed.

End MeanReversionBlocks.

Lemma value_at_eq {St} series dt_index (self : St) s :
  value_at series dt_index self s
  = match reading series dt_index with
    | Some v => (Next v, self, s)
    | None => (Throw (EngineError IndexError), self, s)
    end.
Proof.
  unfold value_at, reading.
  destruct (dt_index <? Z.of_nat (List.length series)); [ | reflexivity].
  destruct (getitem series dt_index); reflexivity.
Qed.

(** [on_bar] up to its trading blocks. *)
Lemma on_bar_eq contract_df dt_index self s :
  MeanReversion.on_bar contract_df dt_index self s
  = match time_index s with
    | None => (Throw TypeError, self, s)
    | Some l =>
    match getitem l dt_index with
    | None => (Throw (EngineError IndexError), self, s)
    | Some ts =>
    match price_at (market_data s) (time_index s) (MeanReversion.token self) dt_index with
    | Raise e => (Throw (EngineError e), self, s)
    | Ok price =>
    if isnan price then (Return, self, s) else
    match reading (MeanReversion.ema_series self) dt_index with
    | None => (Throw (EngineError IndexError), self, s)
    | Some ema_val =>
    match reading (MeanReversion.upper_band self) dt_index with
    | None => (Throw (EngineError IndexError), self, s)
    | Some upper_val =>
    match reading (MeanReversion.lower_band self) dt_index with
    | None => (Throw (EngineError IndexError), self, s)
    | Some lower_val =>
    match reading (MeanReversion.rsi_series self) dt_index with
    | None => (Throw (EngineError IndexError), self, s)
    | Some rsi_val =>
    if existsb isnan [ema_val; upper_val; lower_val; rsi_val]
    then (Return, self, s)
    else
      and_then
        (match MeanReversion.in_position self with
         | None =>
             MeanReversion.enter contract_df dt_index price
               ema_val upper_val lower_val rsi_val
         | Some held =>
             MeanReversion.manage contract_df dt_index held price ema_val rsi_val
         end)
        (fun _ => MeanReversion.square_off_at_close contract_df dt_index ts)
        self s
    end end end end end end end.
Proof.
  unfold MeanReversion.on_bar, bar_time.
  unfold and_then at 1 2. unfold simulator at 1. unfold gets.
  destruct (time_index s) as [l|] eqn:Hti; [ | reflexivity].
  destruct (getitem l dt_index) as [ts|] eqn:Hg; [ | reflexivity].
  unfold pure. unfold and_then at 1. unfold attr at 1.
  unfold and_then at 1. unfold simulator at 1.
  rewrite get_market_price_eq, Hti.
  destruct (price_at (market_data s) (Some l) (MeanReversion.token self) dt_index)
    as [price|e]; [ | reflexivity].
  destruct (isnan price); [reflexivity | ].
  unfold and_then at 1 2. unfold attr at 1. rewrite value_at_eq.
  destruct (reading (MeanReversion.ema_series self) dt_index) as [ema_val|];
    [ | reflexivity].
  unfold and_then at 1 2. unfold attr at 1. rewrite value_at_eq.
  destruct (reading (MeanReversion.upper_band self) dt_index) as [upper_val|];
    [ | reflexivity].
  unfold and_then at 1 2. unfold attr at 1. rewrite value_at_eq.
  destruct (reading (MeanReversion.lower_band self) dt_index) as [lower_val|];
    [ | reflexivity].
  unfold and_then at 1 2. unfold attr at 1. rewrite value_at_eq.
  destruct (reading (MeanReversion.rsi_series self) dt_index) as [rsi_val|];
    [ | reflexivity].
  destruct (existsb isnan [ema_val; upper_val; lower_val; rsi_val]);
    [reflexivity | ].
  unfold and_then at 1. unfold attr at 1. reflexivity.
Qed.

(** [on_bar] either stops before it trades, leaving everything as it was,
    or reaches its trading blocks at a quoted bar with four readings that
    are numbers. *)
Lemma on_bar_cases contract_df dt_index self s :
  (exists r,
     MeanReversion.on_bar contract_df dt_index self s = (r, self, s) /\
     r <> Next tt)
  \/
  (exists ts price ema_val upper_val lower_val rsi_val,
     quoted (MeanReversion.token self) dt_index price ts s /\
     MeanReversion.on_bar contract_df dt_index self s
     = and_then
         (match MeanReversion.in_position self with
          | None =>
              MeanReversion.enter contract_df dt_index price
                ema_val upper_val lower_val rsi_val
          | Some held =>
              MeanReversion.manage contract_df dt_index held price ema_val rsi_val
          end)
         (fun _ => MeanReversion.square_off_at_close contract_df dt_index ts)
         self s).
Proof.
  rewrite on_bar_eq.
  destruct (time_index s) as [l|] eqn:Hti;
    [ | left; eexists; split; [reflexivity | discriminate]].
  destruct (getitem l dt_index) as [ts|] eqn:Hg;
    [ | left; eexists; split; [reflexivity | discriminate]].
  destruct (price_at (market_data s) (Some l) (MeanReversion.token self) dt_index)
    as [price|e] eqn:Hp;
    [ | left; eexists; split; [reflexivity | discriminate]].
  destruct (isnan price) eqn:Hnan;
    [left; eexists; split; [reflexivity | discriminate] | ].
  destruct (reading (MeanReversion.ema_series self) dt_index) as [ema_val|];
    [ | left; eexists; split; [reflexivity | discriminate]].
  destruct (reading (MeanReversion.upper_band self) dt_index) as [upper_val|];
    [ | left; eexists; split; [reflexivity | discriminate]].
  destruct (reading (MeanReversion.lower_band self) dt_index) as [lower_val|];
    [ | left; eexists; split; [reflexivity | discriminate]].
  destruct (reading (MeanReversion.rsi_series self) dt_index) as [rsi_val|];
    [ | left; eexists; split; [reflexivity | discriminate]].
  destruct (existsb isnan [ema_val; upper_val; lower_val; rsi_val]);
    [left; eexists; split; [reflexivity | discriminate] | ].
  right. exists ts, price, ema_val, upper_val, lower_val, rsi_val.
  split; [ | reflexivity].
  unfold quoted. rewrite Hti.
  split; [unfold ts_at; rewrite Hg; reflexivity | split; assumption].
Qed.

(** The run of [on_bar] at a quoted bar whose readings are numbers. *)
Lemma on_bar_run contract_df dt_index ts price ema_val upper_val lower_val rsi_val
    self s :
  quoted (MeanReversion.token self) dt_index price ts s ->
  reading (MeanReversion.ema_series self) dt_index = Some ema_val ->
  reading (MeanReversion.upper_band self) dt_index = Some upper_val ->
  reading (MeanReversion.lower_band self) dt_index = Some lower_val ->
  reading (MeanReversion.rsi_series self) dt_index = Some rsi_val ->
  existsb isnan [ema_val; upper_val; lower_val; rsi_val] = false ->
  MeanReversion.on_bar contract_df dt_index self s
  = and_then
      (match MeanReversion.in_position self with
       | None =>
           MeanReversion.enter contract_df dt_index price
             ema_val upper_val lower_val rsi_val
       | Some held =>
           MeanReversion.manage contract_df dt_index held price ema_val rsi_val
       end)
      (fun _ => MeanReversion.square_off_at_close contract_df dt_index ts)
      self s.
Proof.
  intros [Hts [Hp Hnan]] He Hu Hl Hr Hany.
  rewrite on_bar_eq, Hp, Hnan, He, Hu, Hl, Hr, Hany.
  unfold ts_at in Hts.
  destruct (time_index s) as [l|]; [ | discriminate].
  destruct (getitem l dt_index) as [ts'|]; [ | discriminate].
  now injection Hts as ->.
Qed.

Lemma fill_opens token symbol sd quantity price ts s :
  Dict.get token (positions s) = None ->
  Dict.get token (positions (filled token symbol sd quantity price ts s))
  = Some (Position.new token symbol
            (if String.eqb sd "BUY" then "LONG" else "SHORT") quantity
            (fill_price_of (slippage s) price sd) ts).
Proof.
  intros H.
  destruct (filled_open token symbol sd quantity price ts s H) as [Hp _].
  cbv zeta in Hp. rewrite Hp. apply DictFacts.get_setitem_same.
Qed.

Lemma fill_closes token symbol sd price ts s pos :
  Dict.get token (positions s) = Some pos ->
  adds_to pos sd = false ->
  Dict.get token
    (positions (filled token symbol sd (Position.quantity pos) price ts s))
  = None.
Proof.
  intros H Ha.
  destruct (filled_close token symbol sd (Position.quantity pos) price ts s pos
              H Ha ltac:(lia)) as [Hp _].
  cbv zeta in Hp. rewrite Hp. apply DictFacts.get_delitem_same.
Qed.

Lemma fill_orders token symbol sd quantity price ts s :
  orders (filled token symbol sd quantity price ts s)
  = orders s ++ [order_of s token symbol sd quantity price ts].
Proof.
  destruct (filled_orders token symbol sd quantity price ts s) as [H _].
  exact H.
Qed.

(** X26.  [MeanReversionStrategy.on_bar] raises only before it trades: if
    it ends in an exception, neither the strategy nor the engine has
    changed. *)
Theorem on_bar_raises_before_trading (contract_df : list contract)
    (dt_index : Z) (self self' : MeanReversion.t) (s s' : Simulator)
    (e : strategy_exn) :
  MeanReversion.on_bar contract_df dt_index self s = (Throw e, self', s') ->
  self' = self /\ s' = s.
Proof.
  intros H.
  destruct (on_bar_cases contract_df dt_index self s)
    as [[r [Hr _]] | (ts & price & ema_val & upper_val & lower_val & rsi_val
                      & Hq & Hrun)].
  { rewrite Hr in H. injection H as _ <- <-. auto. }
  exfalso. rewrite Hrun in H. clear Hrun. unfold and_then in H.
  destruct (MeanReversion.in_position self) as [held|].
  - rewrite (manage_eq contract_df dt_index price ts self s Hq) in H.
    destruct (Dict.get (MeanReversion.token self) (positions s)) as [pos|];
      [ | discriminate].
    destruct (String.eqb held "LONG" && _);
      [ | destruct (String.eqb held "SHORT" && _)].
    + rewrite (square_off_at_close_eq contract_df dt_index price ts) in H
        by (apply quoted_filled; exact Hq).
      destruct (_ && _) in H; discriminate.
    + rewrite (square_off_at_close_eq contract_df dt_index price ts) in H
        by (apply quoted_filled; exact Hq).
      destruct (_ && _) in H; discriminate.
    + rewrite (square_off_at_close_eq contract_df dt_index price ts) in H
        by exact Hq.
      destruct (_ && _) in H; discriminate.
  - rewrite (enter_eq contract_df dt_index price ts self s Hq) in H.
    destruct (fle price lower_val && _ && _);
      [ | destruct (fge price upper_val && _ && _)].
    + rewrite (square_off_at_close_eq contract_df dt_index price ts) in H
        by (apply quoted_filled; exact Hq).
      destruct (_ && _) in H; discriminate.
    + rewrite (square_off_at_close_eq contract_df dt_index price ts) in H
        by (apply quoted_filled; exact Hq).
      destruct (_ && _) in H; discriminate.
    + rewrite (square_off_at_close_eq contract_df dt_index price ts) in H
        by exact Hq.
      destruct (_ && _) in H; discriminate.
Qed.

Lemma on_bar_raises_before_trading_witness :
  MeanReversion.new 7 = MeanReversion.new 7 /\ fresh_engine = fresh_engine.
Proof.
  apply (on_bar_raises_before_trading [] 0 (MeanReversion.new 7)
           (MeanReversion.new 7) fresh_engine fresh_engine TypeError).
  reflexivity.
Defined.

(** The orders of one unit of the strategy's token. *)
Lemma unit_order_of s token symbol sd quantity price ts :
  quantity = 1 ->
  Order.token (order_of s token symbol sd quantity price ts) = token /\
  Order.quantity (order_of s token symbol sd quantity price ts) = 1.
Proof. intros ->. split; reflexivity. Qed.

(** X27.  The mean-reversion strategy holds at most one unit: if its flag
    agrees with the engine before [on_bar] (no flag and no position of its
    token, or a LONG/SHORT flag and a position of that side and of
    quantity 1), it agrees afterwards, however the call ends; the call
    places at most two orders, each of one unit of the token. *)
Theorem mean_reversion_holds_one_unit (contract_df : list contract)
    (dt_index : Z) (self self' : MeanReversion.t) (s s' : Simulator)
    (r : flow unit) :
  tracks self s ->
  MeanReversion.on_bar contract_df dt_index self s = (r, self', s') ->
  tracks self' s' /\
  MeanReversion.token self' = MeanReversion.token self /\
  exists placed,
    orders s' = orders s ++ placed /\
    (List.length placed <= 2)%nat /\
    Forall (fun o => Order.token o = MeanReversion.token self /\
                     Order.quantity o = 1) placed.
Proof.
  intros Ht H.
  assert (Hnone : forall self0 s0,
             tracks self0 s0 ->
             tracks self0 s0 /\
             MeanReversion.token self0 = MeanReversion.token self0 /\
             exists placed,
               orders s0 = orders s0 ++ placed /\
               (List.length placed <= 2)%nat /\
               Forall (fun o => Order.token o = MeanReversion.token self0 /\
                                Order.quantity o = 1) placed).
  { intros self0 s0 H0. split; [exact H0 | ]. split; [reflexivity | ].
    exists []. rewrite app_nil_r. repeat split; [simpl; lia | constructor]. }
  destruct (on_bar_cases contract_df dt_index self s)
    as [[r0 [Hr _]] | (ts & price & ema_val & upper_val & lower_val & rsi_val
                       & Hq & Hrun)].
  { rewrite Hr in H. injection H as _ <- <-. now apply Hnone. }
  rewrite Hrun in H. clear Hrun. unfold and_then in H.
  set (tok := MeanReversion.token self) in *.
  set (sym := symbol_or_token contract_df tok) in *.
  unfold tracks in Ht.
  destruct (MeanReversion.in_position self) as [held|] eqn:Hheld.
  - (* a position is held *)
    destruct Ht as [Hside [pos [Hget [Hps Hpq]]]]. fold tok in Hget.
    rewrite (manage_eq contract_df dt_index price ts self s Hq) in H.
    fold tok sym in H. rewrite Hget in H.
    destruct (String.eqb held "LONG" && _) eqn:C1;
      [ | destruct (String.eqb held "SHORT" && _) eqn:C2].
    + (* exit of the long *)
      apply andb_true_iff in C1. destruct C1 as [C1 _].
      apply String.eqb_eq in C1. rewrite C1 in Hps.
      rewrite (square_off_at_close_eq contract_df dt_index price ts) in H
        by (apply quoted_filled; exact Hq).
      cbn [MeanReversion.in_position MeanReversion.set_entry_price
           MeanReversion.set_entry_index MeanReversion.set_in_position] in H.
      rewrite andb_false_r in H. injection H as _ <- <-.
      split.
      { unfold tracks. cbn. fold tok. apply fill_closes; [exact Hget | ].
        unfold adds_to. now rewrite Hps. }
      split; [reflexivity | ].
      exists [order_of s tok sym "SELL" (Position.quantity pos) price ts].
      split; [apply fill_orders | ]. split; [simpl; lia | ].
      constructor; [now apply unit_order_of | constructor].
    + (* exit of the short *)
      apply andb_true_iff in C2. destruct C2 as [C2 _].
      apply String.eqb_eq in C2. rewrite C2 in Hps.
      rewrite (square_off_at_close_eq contract_df dt_index price ts) in H
        by (apply quoted_filled; exact Hq).
      cbn [MeanReversion.in_position MeanReversion.set_entry_price
           MeanReversion.set_entry_index MeanReversion.set_in_position] in H.
      rewrite andb_false_r in H. injection H as _ <- <-.
      split.
      { unfold tracks. cbn. fold tok. apply fill_closes; [exact Hget | ].
        unfold adds_to. now rewrite Hps. }
      split; [reflexivity | ].
      exists [order_of s tok sym "BUY" (Position.quantity pos) price ts].
      split; [apply fill_orders | ]. split; [simpl; lia | ].
      constructor; [now apply unit_order_of | constructor].
    + (* no exit *)
      rewrite (square_off_at_close_eq contract_df dt_index price ts) in H
        by exact Hq.
      fold tok sym in H. rewrite Hheld, Hget, andb_true_r in H.
      destruct (time_of ts =? 15 * 60 + 15); injection H as _ <- <-.
      * split.
        { unfold tracks. cbn. fold tok. apply fill_closes; [exact Hget | ].
          apply adds_to_closing. }
        split; [reflexivity | ].
        exists [order_of s tok sym (closing_side pos) (Position.quantity pos) price ts].
        split; [apply fill_orders | ]. split; [simpl; lia | ].
        constructor; [now apply unit_order_of | constructor].
      * apply Hnone. unfold tracks. rewrite Hheld. fold tok. eauto.
  - (* flat *)
    fold tok in Ht.
    rewrite (enter_eq contract_df dt_index price ts self s Hq) in H.
    fold tok sym in H.
    destruct (fle price lower_val && _ && _);
      [ | destruct (fge price upper_val && _ && _)].
    + (* long entry *)
      rewrite (square_off_at_close_eq contract_df dt_index price ts) in H
        by (apply quoted_filled; exact Hq).
      cbn [MeanReversion.in_position MeanReversion.set_entry_price
           MeanReversion.set_entry_index MeanReversion.set_in_position
           MeanReversion.token] in H.
      fold tok sym in H.
      rewrite andb_true_r, (fill_opens tok sym "BUY" 1 price ts s Ht) in H.
      set (s1 := filled tok sym "BUY" 1 price ts s) in *.
      set (pos1 := Position.new tok sym
                     (if String.eqb "BUY" "BUY" then "LONG" else "SHORT") 1
                     (fill_price_of (slippage s) price "BUY") ts) in *.
      assert (Hget1 : Dict.get tok (positions s1) = Some pos1)
        by (apply fill_opens; exact Ht).
      destruct (time_of ts =? 15 * 60 + 15); injection H as _ <- <-.
      * split.
        { unfold tracks. cbn. fold tok.
          apply (fill_closes tok sym (closing_side pos1) price ts s1 pos1 Hget1).
          apply adds_to_closing. }
        split; [reflexivity | ].
        exists [order_of s tok sym "BUY" 1 price ts;
                order_of s1 tok sym (closing_side pos1) (Position.quantity pos1)
                  price ts].
        split.
        { rewrite fill_orders. unfold s1 at 1. rewrite fill_orders.
          now rewrite <- app_assoc. }
        split; [simpl; lia | ].
        repeat constructor.
      * split.
        { unfold tracks. cbn. fold tok. split; [now left | ].
          exists pos1. repeat split. exact Hget1. }
        split; [reflexivity | ].
        exists [order_of s tok sym "BUY" 1 price ts].
        split; [apply fill_orders | ]. split; [simpl; lia | ].
        repeat constructor.
    + (* short entry *)
      rewrite (square_off_at_close_eq contract_df dt_index price ts) in H
        by (apply quoted_filled; exact Hq).
      cbn [MeanReversion.in_position MeanReversion.set_entry_price
           MeanReversion.set_entry_index MeanReversion.set_in_position
           MeanReversion.token] in H.
      fold tok sym in H.
      rewrite andb_true_r, (fill_opens tok sym "SELL" 1 price ts s Ht) in H.
      set (s1 := filled tok sym "SELL" 1 price ts s) in *.
      set (pos1 := Position.new tok sym
                     (if String.eqb "SELL" "BUY" then "LONG" else "SHORT") 1
                     (fill_price_of (slippage s) price "SELL") ts) in *.
      assert (Hget1 : Dict.get tok (positions s1) = Some pos1)
        by (apply fill_opens; exact Ht).
      destruct (time_of ts =? 15 * 60 + 15); injection H as _ <- <-.
      * split.
        { unfold tracks. cbn. fold tok.
          apply (fill_closes tok sym (closing_side pos1) price ts s1 pos1 Hget1).
          apply adds_to_closing. }
        split; [reflexivity | ].
        exists [order_of s tok sym "SELL" 1 price ts;
                order_of s1 tok sym (closing_side pos1) (Position.quantity pos1)
                  price ts].
        split.
        { rewrite fill_orders. unfold s1 at 1. rewrite fill_orders.
          now rewrite <- app_assoc. }
        split; [simpl; lia | ].
        repeat constructor.
      * split.
        { unfold tracks. cbn. fold tok. split; [now right | ].
          exists pos1. repeat split. exact Hget1. }
        split; [reflexivity | ].
        exists [order_of s tok sym "SELL" 1 price ts].
        split; [apply fill_orders | ]. split; [simpl; lia | ].
        repeat constructor.
    + (* no signal *)
      rewrite (square_off_at_close_eq contract_df dt_index price ts) in H
        by exact Hq.
      rewrite Hheld, andb_false_r in H. injection H as _ <- <-.
      apply Hnone. unfold tracks. now rewrite Hheld.
Qed.

Lemma mean_reversion_holds_one_unit_witness :
  tracks
    (snd (fst (MeanReversion.on_bar [] 0 scenario_strategy scenario_engine)))
    (snd (MeanReversion.on_bar [] 0 scenario_strategy scenario_engine)).
Proof.
  apply (mean_reversion_holds_one_unit [] 0 scenario_strategy
           (snd (fst (MeanReversion.on_bar [] 0 scenario_strategy scenario_engine)))
           scenario_engine
           (snd (MeanReversion.on_bar [] 0 scenario_strategy scenario_engine))
           (fst (fst (MeanReversion.on_bar [] 0 scenario_strategy scenario_engine)))).
  - reflexivity.
  - vm_compute. reflexivity.
Defined.

(* ----------------------------------------------------------------- *)
(** *** Signals *)

Lemma fcompare_antisym (x y : float) :
  fcompare x y = Some Lt -> fcompare y x = Some Gt.
Proof.
  destruct x as [| a | p], y as [| b | q]; simpl; try discriminate.
  - destruct a, b; simpl; congruence.
  - destruct a; congruence.
  - destruct b; congruence.
  - intros H. injection H as H. unfold Qccompare in *.
    rewrite <- (Qcompare_antisym p q), H. reflexivity.
Qed.

Lemma fgt_not_flt (x y : float) : fgt x y = true -> flt x y = false.
Proof.
  unfold fgt, flt. destruct (fcompare y x) as [[]|] eqn:E; try discriminate.
  intros _. now rewrite (fcompare_antisym y x E).
Qed.

Lemma flt_30_not_fge_50 (x : float) :
  flt x (of_int 30) = true -> fge x (of_int 50) = false.
Proof.
  unfold flt, fge, of_int. destruct x as [| a | q]; cbn [fcompare]; try discriminate.
  - destruct a; [reflexivity | discriminate].
  - destruct (q ?= Zc 30)%Qc eqn:E; try discriminate. intros _.
    apply Qclt_alt in E.
    assert (H : (q < Zc 50)%Qc).
    { apply Qclt_trans with (Zc 30); [exact E | ]. now apply Qclt_alt. }
    apply Qclt_alt in H. change ((q ?= Zc 50)%Qc = Lt) in H. now rewrite H.
Qed.

(** X28.  A long signal is taken once: at a quoted bar other than 15:15
    whose readings are numbers, with the close at or below the lower band,
    the oscillator below 30 and the close above the average, a flat
    strategy buys one unit and flags itself LONG, and a strategy that is
    already LONG places no order and changes nothing. *)
Theorem long_signal_enters_once (contract_df : list contract) (dt_index : Z)
    (ts : timestamp) (price ema_val upper_val lower_val rsi_val : float)
    (self : MeanReversion.t) (s : Simulator) :
  quoted (MeanReversion.token self) dt_index price ts s ->
  reading (MeanReversion.ema_series self) dt_index = Some ema_val ->
  reading (MeanReversion.upper_band self) dt_index = Some upper_val ->
  reading (MeanReversion.lower_band self) dt_index = Some lower_val ->
  reading (MeanReversion.rsi_series self) dt_index = Some rsi_val ->
  existsb isnan [ema_val; upper_val; lower_val; rsi_val] = false ->
  fle price lower_val && flt rsi_val (of_int 30) && fgt price ema_val = true ->
  time_of ts <> 15 * 60 + 15 ->
  tracks self s ->
  (MeanReversion.in_position self = None ->
   MeanReversion.on_bar contract_df dt_index self s
   = (Next tt,
      MeanReversion.set_entry_price (Some price)
        (MeanReversion.set_entry_index (Some dt_index)
           (MeanReversion.set_in_position (Some "LONG"%string) self)),
      filled (MeanReversion.token self)
        (symbol_or_token contract_df (MeanReversion.token self))
        "BUY" 1 price ts s))
  /\
  (MeanReversion.in_position self = Some "LONG"%string ->
   MeanReversion.on_bar contract_df dt_index self s = (Next tt, self, s)).
Proof.
  intros Hq He Hu Hl Hr Hany Hsig Htime Ht.
  rewrite (on_bar_run contract_df dt_index ts price ema_val upper_val lower_val
             rsi_val self s Hq He Hu Hl Hr Hany).
  apply Z.eqb_neq in Htime.
  unfold and_then. split; intros Hheld; rewrite Hheld.
  - rewrite (enter_eq contract_df dt_index price ts self s Hq), Hsig.
    rewrite (square_off_at_close_eq contract_df dt_index price ts)
      by (apply quoted_filled; exact Hq).
    now rewrite Htime.
  - unfold tracks in Ht. rewrite Hheld in Ht.
    destruct Ht as [_ [pos [Hget _]]].
    rewrite (manage_eq contract_df dt_index price ts self s Hq), Hget.
    apply andb_true_iff in Hsig. destruct Hsig as [Hsig Hgt].
    apply andb_true_iff in Hsig. destruct Hsig as [_ Hrsi].
    rewrite (fgt_not_flt _ _ Hgt), (flt_30_not_fge_50 _ Hrsi).
    cbn [String.eqb Ascii.eqb Bool.eqb andb orb].
    rewrite (square_off_at_close_eq contract_df dt_index price ts) by exact Hq.
    now rewrite Htime.
Qed.

Lemma long_signal_enters_once_witness :
  MeanReversion.on_bar [] 0 scenario_strategy scenario_engine
  = (Next tt,
     MeanReversion.set_entry_price (Some (of_int 100))
       (MeanReversion.set_entry_index (Some 0)
          (MeanReversion.set_in_position (Some "LONG"%string) scenario_strategy)),
     filled 7 (symbol_or_token [] 7) "BUY" 1 (of_int 100) 0 scenario_engine).
Proof.
  apply (long_signal_enters_once [] 0 0 (of_int 100) (of_int 90) (of_int 120)
           (of_int 100) (of_int 25) scenario_strategy scenario_engine);
    try reflexivity.
  - repeat split; reflexivity.
  - discriminate.
Defined.

(* ================================================================= *)
(** ** The short straddle *)

Lemma bar_time_run {St} dt_index ts (self : St) s :
  ts_at (time_index s) dt_index = Ok ts ->
  bar_time dt_index self s = (Next ts, self, s).
Proof.
  unfold ts_at, bar_time, and_then, simulator, gets.
  destruct (time_index s) as [l|]; [ | discriminate].
  destruct (getitem l dt_index); [ | discriminate].
  now intros [= ->].
Qed.

Lemma simulator_get_market_price {St} token dt_index price ts (self : St) s :
  quoted token dt_index price ts s ->
  simulator (get_market_price token dt_index) self s = (Next price, self, s).
Proof.
  intros [_ [Hp _]]. unfold simulator. now rewrite get_market_price_eq, Hp.
Qed.

Lemma fill_price_zero (c : Qc) (sd : string) :
  fill_price_of (Fin 0%Qc) (Fin c) sd = Fin c.
Proof.
  unfold fill_price_of.
  destruct (String.eqb sd "BUY"); cbn [fadd fsub fmul fneg];
    apply (f_equal Fin); ring.
Qed.

Lemma filled_slippage token symbol sd quantity price ts s :
  slippage (filled token symbol sd quantity price ts s) = slippage s.
Proof.
  destruct (filled_frame token symbol sd quantity price ts s) as [_ [_ [H _]]].
  exact H.
Qed.

(** The entry at 09:20, on an engine without slippage that holds neither
    leg. *)
Lemma straddle_enter_run contract_df dt_index ts self s
    underlying strike call call_symbol put put_symbol c p :
  quoted (Straddle.index_token self) dt_index underlying ts s ->
  nearest_strike underlying 50 = inr strike ->
  find_option_token contract_df strike "CE" ts = Some (call, call_symbol) ->
  find_option_token contract_df strike "PE" ts = Some (put, put_symbol) ->
  quoted call dt_index (Fin c) ts s ->
  quoted put dt_index (Fin p) ts s ->
  slippage s = Fin 0%Qc ->
  Straddle.enter contract_df dt_index ts self s
  = (Return,
     Straddle.set_open_trades true
       (Straddle.set_target (Some (Fin (Q2Qc (1 # 2) * (c + p))%Qc))
          (Straddle.set_stop_loss (Some (Fin (Q2Qc (-1 # 4) * (c + p))%Qc))
             (Straddle.set_premium_collected (Fin (c + p)%Qc)
                (Straddle.set_put_token (Some put)
                   (Straddle.set_call_token (Some call) self))))),
     filled put put_symbol "SELL" 1 (Fin p) ts
       (filled call call_symbol "SELL" 1 (Fin c) ts s)).
Proof.
  intros Hu Hk Hc Hp Hqc Hqp Hslip.
  unfold Straddle.enter.
  unfold and_then at 1. unfold attr at 1.
  unfold and_then at 1. rewrite (simulator_get_market_price _ _ _ _ _ _ Hu).
  destruct Hu as [_ [_ Hnan]]. rewrite Hnan.
  unfold and_then at 1. rewrite Hk. unfold pure at 1.
  rewrite Hc, Hp.
  unfold and_then, assign, pure, return_.
  rewrite (simulator_place_order call call_symbol "SELL" 1 dt_index (Fin c) ts)
    by (auto; reflexivity).
  rewrite (simulator_place_order put put_symbol "SELL" 1 dt_index (Fin p) ts)
    by (try apply quoted_filled; auto; reflexivity).
  cbn [Order.executed_price order_of].
  rewrite filled_slippage, Hslip, !fill_price_zero.
  reflexivity.
Qed.

Lemma short_unit_new token symbol c ts :
  short_unit
    (Position.new token symbol
       (if String.eqb "SELL" "BUY" then "LONG" else "SHORT") 1 (Fin c) ts) c.
Proof. repeat split. Qed.

(** The entry at 09:20 leaves an open straddle. *)
Lemma straddle_entry_opens (contract_df : list contract) (dt_index : Z)
    (ts : timestamp) (self : Straddle.t) (s : Simulator)
    (underlying : float) (strike call put : Z) (call_symbol put_symbol : string)
    (c p : Qc) :
  time_of ts = 9 * 60 + 20 ->
  Straddle.open_trades self = false ->
  quoted (Straddle.index_token self) dt_index underlying ts s ->
  nearest_strike underlying 50 = inr strike ->
  find_option_token contract_df strike "CE" ts = Some (call, call_symbol) ->
  find_option_token contract_df strike "PE" ts = Some (put, put_symbol) ->
  call <> put ->
  Dict.get call (positions s) = None ->
  Dict.get put (positions s) = None ->
  quoted call dt_index (Fin c) ts s ->
  quoted put dt_index (Fin p) ts s ->
  slippage s = Fin 0%Qc ->
  fst (fst (Straddle.on_bar contract_df dt_index self s)) = Return /\
  straddle_open
    (snd (fst (Straddle.on_bar contract_df dt_index self s)))
    (snd (Straddle.on_bar contract_df dt_index self s))
    call put c p.
Proof.
  intros Htime Hclosed Hu Hk Hc Hp Hne Hfc Hfp Hqc Hqp Hslip.
  assert (Hrun :
    Straddle.on_bar contract_df dt_index self s
    = Straddle.enter contract_df dt_index ts self s).
  { unfold Straddle.on_bar. unfold and_then at 1.
    rewrite (bar_time_run dt_index ts self s) by apply Hu.
    unfold and_then at 1. unfold attr at 1.
    rewrite Htime, Z.eqb_refl, Hclosed. cbn [negb andb].
    unfold and_then at 1.
    rewrite (straddle_enter_run contract_df dt_index ts self s underlying
               strike call call_symbol put put_symbol c p); auto. }
  rewrite Hrun.
  rewrite (straddle_enter_run contract_df dt_index ts self s underlying
             strike call call_symbol put put_symbol c p); auto.
  cbn [fst snd]. split; [reflexivity | ].
  set (s1 := filled call call_symbol "SELL" 1 (Fin c) ts s).
  assert (H1 : Dict.get call (positions s1)
               = Some (Position.new call call_symbol
                         (if String.eqb "SELL" "BUY" then "LONG" else "SHORT") 1
                         (Fin c) ts)).
  { unfold s1. rewrite (fill_opens call call_symbol "SELL" 1 (Fin c) ts s Hfc).
    now rewrite Hslip, fill_price_zero. }
  assert (H1p : Dict.get put (positions s1) = None).
  { unfold s1.
    destruct (filled_open call call_symbol "SELL" 1 (Fin c) ts s Hfc) as [Hpos _].
    cbv zeta in Hpos. rewrite Hpos.
    now rewrite DictFacts.get_setitem_other. }
  unfold straddle_open. do 6 (split; [reflexivity | ]). split.
  - exists (Position.new call call_symbol
              (if String.eqb "SELL" "BUY" then "LONG" else "SHORT") 1 (Fin c) ts).
    split; [ | apply short_unit_new].
    destruct (filled_open put put_symbol "SELL" 1 (Fin p) ts s1 H1p) as [Hpos _].
    cbv zeta in Hpos. rewrite Hpos.
    rewrite DictFacts.get_setitem_other by congruence. exact H1.
  - exists (Position.new put put_symbol
              (if String.eqb "SELL" "BUY" then "LONG" else "SHORT") 1 (Fin p) ts).
    split; [ | apply short_unit_new].
    rewrite (fill_opens put put_symbol "SELL" 1 (Fin p) ts s1 H1p).
    unfold s1. now rewrite filled_slippage, Hslip, fill_price_zero.
Qed.

(** X29.  The entry of the short straddle: at 09:20, with no straddle
    open, on an engine without slippage that holds neither leg, when the
    index has a price, both options of the at-the-money strike are found
    and are priced [c] and [p], [on_bar] returns with both legs short one
    unit at those prices, the premium [c + p] recorded, the stop at
    -0.25 times and the target at 0.5 times the premium, and the straddle
    flagged open. *)
Theorem straddle_entry_sets_levels (contract_df : list contract) (dt_index : Z)
    (ts : timestamp) (self : Straddle.t) (s : Simulator)
    (underlying : float) (strike call put : Z) (call_symbol put_symbol : string)
    (c p : Qc) :
  time_of ts = 9 * 60 + 20 ->
  Straddle.open_trades self = false ->
  quoted (Straddle.index_token self) dt_index underlying ts s ->
  nearest_strike underlying 50 = inr strike ->
  find_option_token contract_df strike "CE" ts = Some (call, call_symbol) ->
  find_option_token contract_df strike "PE" ts = Some (put, put_symbol) ->
  call <> put ->
  Dict.get call (positions s) = None ->
  Dict.get put (positions s) = None ->
  quoted call dt_index (Fin c) ts s ->
  quoted put dt_index (Fin p) ts s ->
  slippage s = Fin 0%Qc ->
  fst (fst (Straddle.on_bar contract_df dt_index self s)) = Return /\
  straddle_open
    (snd (fst (Straddle.on_bar contract_df dt_index self s)))
    (snd (Straddle.on_bar contract_df dt_index self s))
    call put c p.
Proof. apply straddle_entry_opens. Qed.

Lemma straddle_entry_sets_levels_witness :
  fst (fst (Straddle.on_bar scenario_contracts 0 (Straddle.new 1) straddle_engine))
  = Return /\
  straddle_open
    (snd (fst (Straddle.on_bar scenario_contracts 0 (Straddle.new 1) straddle_engine)))
    (snd (Straddle.on_bar scenario_contracts 0 (Straddle.new 1) straddle_engine))
    11 12 (Zc 12) (Zc 8).
Proof.
  apply (straddle_entry_sets_levels scenario_contracts 0 560 (Straddle.new 1)
           straddle_engine (of_int 26210) 26200 11 12
           "NIFTY W2 26200CE" "NIFTY W2 26200PE" (Zc 12) (Zc 8));
    try reflexivity.
  - repeat split; reflexivity.
  - discriminate.
  - repeat split; reflexivity.
  - repeat split; reflexivity.
Defined.

Lemma this_Q2Qc (q : Q) : (this (Q2Qc q) == q)%Q.
Proof. cbn [this Q2Qc]. apply Qred_correct. Qed.

(** The combined PnL of two short legs of one unit is the premium
    collected less the premium now. *)
Lemma straddle_total call_pos put_pos c p c' p' :
  short_unit call_pos c -> short_unit put_pos p ->
  fadd (fadd (fadd (Position.update_pnl call_pos (Fin c'))
                   (Position.update_pnl put_pos (Fin p')))
             (Position.realised_pnl call_pos))
       (Position.realised_pnl put_pos)
  = Fin ((c + p) - (c' + p'))%Qc.
Proof.
  intros (Hs1 & Hq1 & He1 & Hr1) (Hs2 & Hq2 & He2 & Hr2).
  unfold Position.update_pnl.
  rewrite Hs1, Hq1, He1, Hr1, Hs2, Hq2, He2, Hr2.
  change (String.eqb (upper "SHORT") "LONG") with false. cbv iota.
  unfold of_int. cbn [fadd fsub fmul fneg].
  apply (f_equal Fin). change (Zc 1) with 1%Qc. ring.
Qed.

Lemma stop_reached (c p c' p' : Qc) :
  fle (Fin ((c + p) - (c' + p'))%Qc) (Fin (Q2Qc (-1 # 4) * (c + p))%Qc) = true
  <-> (Q2Qc (5 # 4) * (c + p) <= c' + p')%Qc.
Proof.
  unfold fle. rewrite fge_Fin. unfold Qcle.
  rewrite !this_mult, !this_minus, !this_plus, !this_Q2Qc.
  split; intros H; lra.
Qed.

Lemma target_reached (c p c' p' : Qc) :
  fge (Fin ((c + p) - (c' + p'))%Qc) (Fin (Q2Qc (1 # 2) * (c + p))%Qc) = true
  <-> (c' + p' <= Q2Qc (1 # 2) * (c + p))%Qc.
Proof.
  rewrite fge_Fin. unfold Qcle.
  rewrite !this_mult, !this_minus, !this_plus, !this_Q2Qc.
  split; intros H; lra.
Qed.

(** The exit block on an open straddle whose legs are priced. *)
Lemma straddle_manage_run dt_index ts self s call put c p c' p' :
  straddle_open self s call put c p ->
  quoted call dt_index (Fin c') ts s ->
  quoted put dt_index (Fin p') ts s ->
  Straddle.manage dt_index self s
  = if fle (Fin ((c + p) - (c' + p'))%Qc) (Fin (Q2Qc (-1 # 4) * (c + p))%Qc)
       || fge (Fin ((c + p) - (c' + p'))%Qc) (Fin (Q2Qc (1 # 2) * (c + p))%Qc)
    then
      match square_off_all dt_index s with
      | (Ok _, s') => (Next tt, Straddle.set_open_trades false self, s')
      | (Raise e, s') => (Throw (EngineError e), self, s')
      end
    else (Next tt, self, s).
Proof.
  intros (Hopen & Hct & Hpt & _ & Hstop & Htarget
          & [call_pos [Hgc Hc]] & [put_pos [Hgp Hp]]) Hqc Hqp.
  unfold Straddle.manage.
  unfold and_then at 1. unfold attr at 1. rewrite Hopen.
  unfold and_then at 1. unfold attr at 1. rewrite Hct.
  unfold and_then at 1. unfold attr at 1. rewrite Hpt.
  unfold and_then at 1. unfold Straddle.leg at 1, position_of at 1.
  unfold simulator at 1. unfold gets at 1. rewrite Hgc.
  unfold and_then at 1. unfold Straddle.leg at 1, position_of at 1.
  unfold simulator at 1. unfold gets at 1. rewrite Hgp.
  unfold and_then at 1.
  rewrite (simulator_get_market_price call dt_index (Fin c') ts self s Hqc).
  unfold and_then at 1.
  rewrite (simulator_get_market_price put dt_index (Fin p') ts self s Hqp).
  rewrite (straddle_total call_pos put_pos c p c' p' Hc Hp).
  unfold and_then at 1. unfold attr at 1. rewrite Hstop.
  unfold and_then at 1.
  destruct (fle (Fin (c + p - (c' + p'))%Qc) (Fin (Q2Qc (-1 # 4) * (c + p))%Qc)).
  - unfold pure at 1. cbn [orb].
    unfold and_then, assign, simulator.
    destruct (square_off_all dt_index s) as [[[]|e] s']; reflexivity.
  - unfold and_then at 1. unfold attr at 1. rewrite Htarget. unfold pure at 1.
    cbn [orb].
    destruct (fge (Fin (c + p - (c' + p'))%Qc) (Fin (Q2Qc (1 # 2) * (c + p))%Qc)).
    + unfold and_then, assign, simulator.
      destruct (square_off_all dt_index s) as [[[]|e] s']; reflexivity.
    + reflexivity.
Qed.

(** The exits of the short straddle over the exact arithmetic: at or
    beyond a level [on_bar] squares off and clears the flag, strictly
    between the two levels it changes nothing. *)
Lemma straddle_exits_exact (contract_df : list contract)
    (dt_index : Z) (ts : timestamp) (self : Straddle.t) (s : Simulator)
    (call put : Z) (c p c' p' : Qc) :
  straddle_open self s call put c p ->
  quoted call dt_index (Fin c') ts s ->
  quoted put dt_index (Fin p') ts s ->
  (((Q2Qc (5 # 4) * (c + p) <= c' + p')%Qc \/
    (c' + p' <= Q2Qc (1 # 2) * (c + p))%Qc) ->
   Dict.wf (positions s) ->
   (forall token, In token (Dict.keys (positions s)) ->
                  priced s token dt_index = true) ->
   exists s',
     Straddle.on_bar contract_df dt_index self s
     = (Next tt, Straddle.set_open_trades false self, s') /\
     positions s' = [])
  /\
  ((Q2Qc (1 # 2) * (c + p) < c' + p')%Qc ->
   (c' + p' < Q2Qc (5 # 4) * (c + p))%Qc ->
   time_of ts <> 15 * 60 + 10 ->
   Straddle.on_bar contract_df dt_index self s = (Next tt, self, s)).
Proof.
  intros Hopen Hqc Hqp.
  assert (Hflag : Straddle.open_trades self = true) by apply Hopen.
  assert (Hrun :
    Straddle.on_bar contract_df dt_index self s
    = and_then (Straddle.manage dt_index)
        (fun _ => Straddle.square_off_before_close dt_index ts) self s).
  { unfold Straddle.on_bar. unfold and_then at 1.
    rewrite (bar_time_run dt_index ts self s) by apply Hqc.
    unfold and_then at 1. unfold attr at 1.
    rewrite Hflag, andb_false_r.
    unfold and_then at 1. unfold pure at 1. reflexivity. }
  rewrite Hrun. unfold and_then.
  rewrite (straddle_manage_run dt_index ts self s call put c p c' p' Hopen Hqc Hqp).
  split.
  - intros Hlevel Hwf Hpriced.
    assert (Hb : fle (Fin ((c + p) - (c' + p'))%Qc)
                     (Fin (Q2Qc (-1 # 4) * (c + p))%Qc)
                 || fge (Fin ((c + p) - (c' + p'))%Qc)
                        (Fin (Q2Qc (1 # 2) * (c + p))%Qc) = true).
    { apply orb_true_iff. destruct Hlevel as [H | H].
      - left. now apply stop_reached.
      - right. now apply target_reached. }
    rewrite Hb.
    destruct (square_off_loop_run dt_index (positions s) s eq_refl Hwf Hpriced)
      as (s' & trades & closing_orders & Hloop & Hflat & _).
    rewrite square_off_all_eq, Hloop.
    exists s'. split; [ | exact Hflat].
    unfold Straddle.square_off_before_close, and_then, attr.
    cbn [Straddle.open_trades Straddle.set_open_trades].
    now rewrite andb_false_r.
  - intros Hlo Hhi Htime.
    assert (Hb : fle (Fin ((c + p) - (c' + p'))%Qc)
                     (Fin (Q2Qc (-1 # 4) * (c + p))%Qc)
                 || fge (Fin ((c + p) - (c' + p'))%Qc)
                        (Fin (Q2Qc (1 # 2) * (c + p))%Qc) = false).
    { apply orb_false_iff. split; apply not_true_is_false; intros H.
      - apply stop_reached in H. apply Qcle_not_lt in H. contradiction.
      - apply target_reached in H. apply Qcle_not_lt in H. contradiction. }
    rewrite Hb.
    unfold Straddle.square_off_before_close, and_then, attr.
    apply Z.eqb_neq in Htime. now rewrite Htime.
Qed.

(* ================================================================= *)
(** ** Rounding to a double *)

Lemma pow2_pos k : (0 < pow2 k)%Q.
Proof. apply Qpower_0_lt. reflexivity. Qed.

Lemma pow2_plus a b : (pow2 (a + b) == pow2 a * pow2 b)%Q.
Proof. apply Qpower_plus. discriminate. Qed.

Lemma pow2_le a b : a <= b -> (pow2 a <= pow2 b)%Q.
Proof. intros H. apply Qpower_le_compat_l; [exact H | discriminate]. Qed.

Lemma pow2_lt a b : a < b -> (pow2 a < pow2 b)%Q.
Proof. intros H. apply Qpower_lt_compat_l; [exact H | reflexivity]. Qed.

Lemma pow2_lt_inv a b : (pow2 a < pow2 b)%Q -> a < b.
Proof. intros H. apply (Qpower_lt_compat_l_inv 2); [exact H | reflexivity]. Qed.

Lemma pow2_Z k : 0 <= k -> (pow2 k == inject_Z (2 ^ k))%Q.
Proof. intros H. unfold pow2. now rewrite Zpower_Qpower. Qed.

(** The binary exponent of a positive rational. *)
Lemma ulp_exponent_spec (q : Q) :
  (0 < q)%Q ->
  exists e, ulp_exponent q = Z.max (e - 52) (-1074) /\
            (pow2 e <= q)%Q /\ (q < pow2 (e + 1))%Q.
Proof.
  intros Hq. destruct q as [n d]. 
  assert (Hn : 0 < n) by (unfold Qlt in Hq; simpl in Hq; lia).
  unfold ulp_exponent. cbn [Qnum Qden].
  set (ln := Z.log2 n). set (ld := Z.log2 (Z.pos d)).
  destruct (Z.log2_spec n Hn) as [Hn1 Hn2]. fold ln in Hn1, Hn2.
  destruct (Z.log2_spec (Z.pos d) eq_refl) as [Hd1 Hd2]. fold ld in Hd1, Hd2.
  assert (Hln : 0 <= ln) by apply Z.log2_nonneg.
  assert (Hld : 0 <= ld) by apply Z.log2_nonneg.
  set (D := inject_Z (Z.pos d)).
  assert (HD : (0 < D)%Q) by reflexivity.
  assert (HqD : ((n # d) * D == inject_Z n)%Q).
  { unfold D, Qeq, inject_Z. simpl. lia. }
  assert (Hn1' : (pow2 ln <= inject_Z n)%Q) by (rewrite pow2_Z by lia; now rewrite <- Zle_Qle).
  assert (Hn2' : (inject_Z n < pow2 (ln + 1))%Q).
  { rewrite pow2_Z by lia. rewrite <- Zlt_Qlt. now rewrite <- Z.add_1_r in Hn2. }
  assert (Hd1' : (pow2 ld <= D)%Q) by (rewrite pow2_Z by lia; unfold D; now rewrite <- Zle_Qle).
  assert (Hd2' : (D < pow2 (ld + 1))%Q).
  { rewrite pow2_Z by lia. unfold D. rewrite <- Zlt_Qlt. now rewrite <- Z.add_1_r in Hd2. }
  assert (Hup : ((n # d) < pow2 (ln - ld + 1))%Q).
  { apply (Qmult_lt_r _ _ D HD). rewrite HqD.
    eapply Qlt_le_trans; [exact Hn2' | ].
    replace (ln + 1) with ((ln - ld + 1) + ld) by lia. rewrite pow2_plus.
    apply Qmult_le_l; [apply pow2_pos | exact Hd1']. }
  assert (Hlo : (pow2 (ln - ld - 1) < (n # d))%Q).
  { apply (Qmult_lt_r _ _ D HD). rewrite HqD.
    eapply Qlt_le_trans; [ | exact Hn1'].
    replace ln with ((ln - ld - 1) + (ld + 1)) at 2 by lia. rewrite pow2_plus.
    apply Qmult_lt_l; [apply pow2_pos | exact Hd2']. }
  destruct (Qle_bool (pow2 (ln - ld)) (n # d)) eqn:E.
  - exists (ln - ld). split; [reflexivity | ]. split; [ | exact Hup].
    now apply Qle_bool_iff.
  - exists (ln - ld - 1). split; [reflexivity | ]. split; [now apply Qlt_le_weak | ].
    replace (ln - ld - 1 + 1) with (ln - ld) by lia.
    apply Qnot_le_lt. intros H. apply Qle_bool_iff in H. congruence.
Qed.

Lemma round_half_even_Z (x : Q) (m : Z) :
  (x == inject_Z m)%Q -> round_half_even x = m.
Proof.
  intros H. unfold round_half_even.
  assert (Hf : Qfloor x = m) by (rewrite H; apply Qfloor_Z).
  rewrite Hf.
  assert (E : (x - inject_Z m ?= 1 # 2)%Q = Lt).
  { apply Qlt_alt. rewrite H.
    setoid_replace (inject_Z m - inject_Z m)%Q with 0%Q by ring. reflexivity. }
  now rewrite E.
Qed.

(** A multiple [n * 2 ^ k] of a power of two with fewer than 54 binary
    digits and [k] at least -1074 is a double. *)
Lemma round64_pos_exact (q : Q) (n k : Z) :
  0 < n < 2 ^ 53 -> -1074 <= k ->
  (q == inject_Z n * pow2 k)%Q -> (q < pow2 1024)%Q ->
  round64_pos q = Fin (Q2Qc q).
Proof.
  intros Hn Hk Hq Hbig.
  assert (Hn' : (0 < inject_Z n)%Q) by (apply inject_Z_pos; lia).
  assert (Hqpos : (0 < q)%Q).
  { rewrite Hq. apply Qmult_lt_0_compat; [exact Hn' | apply pow2_pos]. }
  destruct (ulp_exponent_spec q Hqpos) as [e [Hu [He1 He2]]].
  assert (He : e < 53 + k).
  { apply pow2_lt_inv. eapply Qle_lt_trans; [exact He1 | ].
    rewrite Hq, pow2_plus. apply Qmult_lt_r; [apply pow2_pos | ].
    rewrite pow2_Z by lia. rewrite <- Zlt_Qlt. lia. }
  unfold round64_pos. set (u := ulp_exponent q) in *.
  assert (Huk : u <= k) by lia.
  assert (Hx : (q / pow2 u == inject_Z (n * 2 ^ (k - u)))%Q).
  { rewrite Hq. replace k with ((k - u) + u) at 1 by lia.
    rewrite pow2_plus, inject_Z_mult, <- (pow2_Z (k - u)) by lia.
    pose proof (pow2_pos u). field. lra. }
  rewrite (round_half_even_Z _ _ Hx).
  assert (Hv : (inject_Z (n * 2 ^ (k - u)) * pow2 u == q)%Q).
  { rewrite <- Hx. pose proof (pow2_pos u). field. lra. }
  cbv zeta.
  assert (E : Qle_bool (pow2 1024) (inject_Z (n * 2 ^ (k - u)) * pow2 u) = false).
  { apply not_true_is_false. intros H. apply Qle_bool_iff in H.
    rewrite Hv in H. lra. }
  rewrite E. f_equal. now apply Q2Qc_eq_iff.
Qed.

Lemma Q2Qc_this (q : Qc) : Q2Qc (this q) = q.
Proof. apply Qc_is_canon. apply this_Q2Qc. Qed.

Lemma round64_exact (q : Qc) (n k : Z) :
  Z.abs n < 2 ^ 53 -> -1074 <= k <= 970 ->
  (this q == inject_Z n * pow2 k)%Q ->
  round64 (Fin q) = Fin q.
Proof.
  intros Hn Hk Hq. unfold round64.
  pose proof (pow2_pos k) as Hp.
  assert (Hbig : forall m, 0 < m < 2 ^ 53 -> (inject_Z m * pow2 k < pow2 1024)%Q).
  { intros m Hm. apply Qlt_le_trans with (pow2 53 * pow2 k)%Q.
    - apply Qmult_lt_r; [exact Hp | ]. rewrite pow2_Z by lia.
      rewrite <- Zlt_Qlt. lia.
    - rewrite <- pow2_plus. apply pow2_le. lia. }
  destruct (this q ?= 0)%Q eqn:E; [reflexivity | | ].
  - apply Qlt_alt in E.
    assert (Hn0 : n < 0).
    { destruct (Z_lt_le_dec n 0) as [H|H]; [exact H | exfalso].
      assert ((0 <= inject_Z n)%Q) by (change 0%Q with (inject_Z 0); now rewrite <- Zle_Qle).
      assert ((0 <= inject_Z n * pow2 k)%Q) by (apply Qmult_le_0_compat; lra).
      lra. }
    rewrite (round64_pos_exact (- this q) (- n) k).
    + cbn [fneg]. f_equal. apply Qc_is_canon.
      rewrite this_opp, this_Q2Qc. ring.
    + lia.
    + lia.
    + rewrite Hq, inject_Z_opp. ring.
    + rewrite Hq. setoid_replace (- (inject_Z n * pow2 k))%Q
        with (inject_Z (- n) * pow2 k)%Q by (rewrite inject_Z_opp; ring).
      apply Hbig. lia.
  - apply Qgt_alt in E.
    assert (Hn0 : 0 < n).
    { destruct (Z_lt_le_dec 0 n) as [H|H]; [exact H | exfalso].
      assert ((inject_Z n <= 0)%Q) by (change 0%Q with (inject_Z 0); now rewrite <- Zle_Qle).
      assert ((0 <= (- inject_Z n) * pow2 k)%Q) by (apply Qmult_le_0_compat; lra).
      lra. }
    rewrite (round64_pos_exact (this q) n k); try lia; auto.
    + f_equal. apply Q2Qc_this.
    + rewrite Hq. apply Hbig. lia.
Qed.

Lemma round64_of_int (n : Z) : Z.abs n < 2 ^ 53 -> round64 (of_int n) = of_int n.
Proof.
  intros Hn. apply (round64_exact (Zc n) n 0); [exact Hn | lia | ].
  rewrite this_Zc. change (pow2 0) with 1%Q. ring.
Qed.

(** The double nearest to a positive rational is within half a unit of
    the last place. *)
Lemma round64_pos_near (q : Q) :
  (0 < q)%Q -> (q <= pow2 1023)%Q ->
  exists (r : Qc) (u : Z),
    round64_pos q = Fin r /\
    ((pow2 u <= q * pow2 (-52))%Q \/ u = -1074) /\ u <= 971 /\
    (this r - q <= pow2 u * (1 # 2))%Q /\ (q - this r <= pow2 u * (1 # 2))%Q.
Proof.
  intros Hq Hbig.
  destruct (ulp_exponent_spec q Hq) as [e [Hu [He1 He2]]].
  assert (He : e < 1024).
  { apply pow2_lt_inv. eapply Qle_lt_trans; [exact He1 | ].
    eapply Qle_lt_trans; [exact Hbig | ]. now apply pow2_lt. }
  unfold round64_pos. set (u := ulp_exponent q) in *.
  pose proof (pow2_pos u) as Hpu.
  set (x := (q / pow2 u)%Q).
  assert (Hx : (q == x * pow2 u)%Q) by (unfold x; field; lra).
  destruct (round_half_even_near x) as [Hlo Hhi].
  set (k := round_half_even x) in *. cbv zeta.
  assert (H1 : ((inject_Z k - (1 # 2)) * pow2 u <= x * pow2 u)%Q)
    by (apply Qmult_le_compat_r; lra).
  assert (H2 : (x * pow2 u <= (inject_Z k + (1 # 2)) * pow2 u)%Q)
    by (apply Qmult_le_compat_r; lra).
  assert (Hu971 : u <= 971) by lia.
  assert (Hp971 : (pow2 u <= pow2 971)%Q) by now apply pow2_le.
  assert (E : Qle_bool (pow2 1024) (inject_Z k * pow2 u) = false).
  { apply not_true_is_false. intros H. apply Qle_bool_iff in H.
    assert (Hc : (pow2 1023 + pow2 971 * (1 # 2) < pow2 1024)%Q) by (vm_compute; reflexivity).
    lra. }
  rewrite E. exists (Q2Qc (inject_Z k * pow2 u)), u.
  split; [reflexivity | ]. rewrite this_Q2Qc.
  split; [ | split; [exact Hu971 | split; lra]].
  destruct (Z.max_spec (e - 52) (-1074)) as [[_ Hm] | [_ Hm]]; [right; lia | left].
  replace u with (e + -52) by lia. rewrite pow2_plus.
  apply Qmult_le_compat_r; [exact He1 | apply Qlt_le_weak, pow2_pos].
Qed.

Lemma round64_near (q : Qc) :
  ~ (this q == 0)%Q -> (Qabs (this q) <= pow2 1023)%Q ->
  exists (r : Qc) (u : Z),
    round64 (Fin q) = Fin r /\
    ((pow2 u <= Qabs (this q) * pow2 (-52))%Q \/ u = -1074) /\ u <= 971 /\
    (Qabs (this r - this q) <= pow2 u * (1 # 2))%Q.
Proof.
  intros Hnz Hbig. unfold round64.
  destruct (this q ?= 0)%Q eqn:E.
  - apply Qeq_alt in E. contradiction.
  - apply Qlt_alt in E.
    assert (Ha : (Qabs (this q) == - this q)%Q) by (apply Qabs_neg; lra).
    rewrite Ha in *.
    destruct (round64_pos_near (- this q)) as (r & u & Hr & Hu & Hu' & H1 & H2);
      [lra | exact Hbig | ].
    exists (- r)%Qc, u. rewrite Hr. split; [reflexivity | ].
    split; [destruct Hu as [Hu|Hu]; [left; now rewrite Ha | now right] | ].
    split; [exact Hu' | ].
    rewrite this_opp. apply Qabs_case; intros; lra.
  - apply Qgt_alt in E.
    assert (Ha : (Qabs (this q) == this q)%Q) by (apply Qabs_pos; lra).
    rewrite Ha in *.
    destruct (round64_pos_near (this q)) as (r & u & Hr & Hu & Hu' & H1 & H2);
      [lra | exact Hbig | ].
    exists r, u. split; [exact Hr | ].
    split; [destruct Hu as [Hu|Hu]; [left; now rewrite Ha | now right] | ].
    split; [exact Hu' | ].
    apply Qabs_case; intros; lra.
Qed.

Lemma inject_Z_pred (k : Z) : (inject_Z (k - 1) == inject_Z k - 1)%Q.
Proof.
  unfold Z.sub. rewrite inject_Z_plus, inject_Z_opp. reflexivity.
Qed.

Lemma round_half_even_within (y : Q) (k : Z) :
  (inject_Z k - (1 # 2) < y)%Q -> (y < inject_Z k + (1 # 2))%Q ->
  round_half_even y = k.
Proof.
  intros Hlo Hhi. unfold round_half_even.
  destruct (Qlt_le_dec y (inject_Z k)) as [Hlt | Hge].
  - assert (Hf : Qfloor y = k - 1).
    { apply Qfloor_between; rewrite inject_Z_pred; lra. }
    rewrite Hf.
    assert (E : (y - inject_Z (k - 1) ?= 1 # 2)%Q = Gt)
      by (apply Qgt_alt; rewrite inject_Z_pred; lra).
    rewrite E. lia.
  - assert (Hf : Qfloor y = k) by (apply Qfloor_between; lra).
    rewrite Hf.
    assert (E : (y - inject_Z k ?= 1 # 2)%Q = Lt)
      by (apply (proj1 (Qlt_alt _ _)); lra).
    now rewrite E.
Qed.

Lemma Zc_minus (a b : Z) : (Zc a - Zc b)%Qc = Zc (a - b).
Proof.
  apply Qc_is_canon. unfold Z.sub.
  rewrite this_minus, !this_Zc, inject_Z_plus, inject_Z_opp. reflexivity.
Qed.

Lemma Zc_mult (a b : Z) : (Zc a * Zc b)%Qc = Zc (a * b).
Proof.
  apply Qc_is_canon. rewrite this_mult, !this_Zc, inject_Z_mult. reflexivity.
Qed.

(** On integers below 2 ^ 53 the sums, differences and products of doubles
    are exact. *)
Lemma integer_sums_are_exact (a b : Z) :
  Z.abs (a + b) < 2 ^ 53 ->
  radd (Fin (Zc a)) (Fin (Zc b)) = Fin (Zc (a + b)).
Proof.
  intros H. unfold radd. cbn [fadd]. rewrite <- Zc_add.
  now apply round64_of_int.
Qed.

Lemma integer_differences_are_exact (a b : Z) :
  Z.abs (a - b) < 2 ^ 53 ->
  rsub (Fin (Zc a)) (Fin (Zc b)) = Fin (Zc (a - b)).
Proof.
  intros H. unfold rsub. cbn [fsub fadd fneg].
  change (Zc a + - Zc b)%Qc with (Zc a - Zc b)%Qc. rewrite Zc_minus.
  now apply round64_of_int.
Qed.

Lemma integer_products_are_exact (a b : Z) :
  Z.abs (a * b) < 2 ^ 53 ->
  rmul (Fin (Zc a)) (Fin (Zc b)) = Fin (Zc (a * b)).
Proof.
  intros H. unfold rmul. cbn [fmul]. rewrite Zc_mult.
  now apply round64_of_int.
Qed.

(** The levels of the straddle, -0.25 and 0.5 times a whole premium, are
    doubles. *)
Lemma straddle_levels_are_exact (n : Z) :
  Z.abs n < 2 ^ 53 ->
  rmul (double (-25) 100) (of_int n) = Fin (Q2Qc (-1 # 4) * Zc n)%Qc /\
  rmul (double 5 10) (of_int n) = Fin (Q2Qc (1 # 2) * Zc n)%Qc.
Proof.
  intros H.
  assert (E1 : double (-25) 100 = Fin (Q2Qc (-1 # 4)))
    by (apply float_eqb_eq; vm_compute; reflexivity).
  assert (E2 : double 5 10 = Fin (Q2Qc (1 # 2)))
    by (apply float_eqb_eq; vm_compute; reflexivity).
  rewrite E1, E2. unfold rmul, of_int. cbn [fmul]. split.
  - apply (round64_exact _ (- n) (-2)); [lia | lia | ].
    rewrite this_mult, this_Q2Qc, this_Zc, inject_Z_opp.
    change (pow2 (-2)) with (1 # 4)%Q. lra.
  - apply (round64_exact _ n (-1)); [lia | lia | ].
    rewrite this_mult, this_Q2Qc, this_Zc.
    change (pow2 (-1)) with (1 # 2)%Q. lra.
Qed.

(** The PnL the exit block compares with the levels, computed on doubles
    from whole prices, is the exact one. *)
Lemma straddle_total_is_exact call_pos put_pos (c p c' p' : Z) :
  Z.abs c < 2 ^ 50 -> Z.abs p < 2 ^ 50 ->
  Z.abs c' < 2 ^ 50 -> Z.abs p' < 2 ^ 50 ->
  short_unit call_pos (Zc c) -> short_unit put_pos (Zc p) ->
  radd (radd (radd (Binary64.update_pnl call_pos (of_int c'))
                   (Binary64.update_pnl put_pos (of_int p')))
             (Position.realised_pnl call_pos))
       (Position.realised_pnl put_pos)
  = fadd (fadd (fadd (Position.update_pnl call_pos (of_int c'))
                     (Position.update_pnl put_pos (of_int p')))
               (Position.realised_pnl call_pos))
         (Position.realised_pnl put_pos).
Proof.
  intros Hc Hp Hc' Hp' (Hs1 & Hq1 & He1 & Hr1) (Hs2 & Hq2 & He2 & Hr2).
  unfold Binary64.update_pnl, Position.update_pnl.
  rewrite Hs1, Hq1, He1, Hr1, Hs2, Hq2, He2, Hr2.
  change (String.eqb (upper "SHORT") "LONG") with false. cbv iota.
  unfold of_int. change (Fin 0%Qc) with (Fin (Zc 0)).
  change (round64 (Fin (Zc 1))) with (round64 (of_int 1)).
  rewrite (round64_of_int 1) by lia. unfold of_int.
  rewrite !integer_differences_are_exact by lia.
  rewrite !integer_products_are_exact by lia.
  rewrite !integer_sums_are_exact by lia.
  cbn [fsub fadd fneg fmul].
  change (Zc c + - Zc c')%Qc with (Zc c - Zc c')%Qc.
  change (Zc p + - Zc p')%Qc with (Zc p - Zc p')%Qc.
  now rewrite !Zc_minus, !Zc_mult, <- !Zc_add.
Qed.

(* ================================================================= *)
(** ** Strikes on doubles *)

Lemma inject_Z_lt_0 (z : Z) : (inject_Z z < 0)%Q -> (inject_Z z <= -1)%Q.
Proof.
  intros H. change 0%Q with (inject_Z 0) in H. rewrite <- Zlt_Qlt in H.
  change (-1)%Q with (inject_Z (-1)). rewrite <- Zle_Qle. lia.
Qed.

Lemma inject_Z_gt_0 (z : Z) : (0 < inject_Z z)%Q -> (1 <= inject_Z z)%Q.
Proof.
  intros H. change 0%Q with (inject_Z 0) in H. rewrite <- Zlt_Qlt in H.
  change 1%Q with (inject_Z 1). rewrite <- Zle_Qle. lia.
Qed.

(** The quotient of an integer below 2 ^ 52 by a step below 2 ^ 53 is
    either halfway between two integers, and then a double, or further from
    the halfway points than rounding to a double moves it: either way the
    double rounds to the integer the quotient rounds to. *)
Lemma quotient_rounds (price step : Z) :
  Z.abs price < 2 ^ 52 -> 0 < step < 2 ^ 53 ->
  exists r : Qc,
    round64 (Fin (Zc price / Zc step)%Qc) = Fin r /\
    round_half_even r = round_half_even (Zc price / Zc step)%Qc.
Proof.
  intros Hp Hs.
  set (q := (Zc price / Zc step)%Qc).
  set (x := this q).
  set (P := inject_Z price). set (S := inject_Z step).
  assert (HS : (1 <= S)%Q).
  { change 1%Q with (inject_Z 1). unfold S. rewrite <- Zle_Qle. lia. }
  assert (HS53 : (S < pow2 53)%Q).
  { unfold S. rewrite pow2_Z by lia. rewrite <- Zlt_Qlt. lia. }
  assert (Hq : (x == P / S)%Q).
  { unfold x, q. rewrite this_div_Zc, this_Zc. reflexivity. }
  assert (HqS : (x * S == P)%Q) by (rewrite Hq; field; lra).
  set (eps := (/ (2 * S))%Q).
  assert (Heps : (eps * (2 * S) == 1)%Q) by (unfold eps; field; lra).
  assert (Heps0 : (0 < eps)%Q) by (apply Qinv_lt_0_compat; lra).
  assert (Heps1 : (eps <= 1 # 2)%Q).
  { assert (H : (0 <= eps * (S - 1))%Q) by (apply Qmult_le_0_compat; lra). lra. }
  set (A := Qabs x).
  assert (HA0 : (0 <= A)%Q) by apply Qabs_nonneg.
  assert (HAS : (A * S < pow2 52)%Q).
  { unfold A. rewrite <- (Qabs_pos S) at 1 by lra.
    rewrite <- Qabs_Qmult, HqS. unfold P.
    change (Qabs (inject_Z price)) with (inject_Z (Z.abs price)).
    rewrite pow2_Z by lia. rewrite <- Zlt_Qlt. exact Hp. }
  assert (HA : (A < pow2 52)%Q).
  { assert (H : (0 <= A * (S - 1))%Q) by (apply Qmult_le_0_compat; lra). lra. }
  assert (Hx52 : (- pow2 52 < x)%Q /\ (x < pow2 52)%Q).
  { unfold A in HA. revert HA. apply Qabs_case; intros; lra. }
  destruct (Qeq_dec x 0) as [Hz | Hnz].
  { exists q. split; [ | reflexivity]. unfold round64. fold x.
    rewrite (proj1 (Qeq_alt x 0) Hz). reflexivity. }
  destruct (round64_near q) as (r & u & Hr & Hu & _ & Herr).
  { exact Hnz. }
  { fold x. fold A. apply Qlt_le_weak. eapply Qlt_le_trans; [exact HA | ].
    apply pow2_le. lia. }
  fold x in Hu, Herr. fold A in Hu.
  assert (Hulp : (pow2 u < 2 * eps)%Q).
  { destruct Hu as [Hu | ->].
    - eapply Qle_lt_trans; [exact Hu | ].
      apply (Qmult_lt_r _ _ S); [lra | ].
      setoid_replace (A * pow2 (-52) * S)%Q with (A * S * pow2 (-52))%Q by ring.
      setoid_replace (2 * eps * S)%Q with (pow2 52 * pow2 (-52))%Q
        by (rewrite <- pow2_plus; change (pow2 (52 + -52)) with 1%Q; lra).
      apply Qmult_lt_r; [apply pow2_pos | exact HAS].
    - apply (Qmult_lt_r _ _ S); [lra | ].
      setoid_replace (2 * eps * S)%Q with (pow2 (-53) * pow2 53)%Q
        by (rewrite <- pow2_plus; change (pow2 (-53 + 53)) with 1%Q; lra).
      apply Qle_lt_trans with (pow2 (-53) * S)%Q.
      + apply Qmult_le_compat_r; [apply pow2_le; lia | lra].
      + apply Qmult_lt_l; [apply pow2_pos | exact HS53]. }
  assert (Hnear : (this r - x < eps)%Q /\ (x - this r < eps)%Q).
  { revert Herr. apply Qabs_case; intros; split; lra. }
  pose proof (Qfloor_le x) as Hfl. pose proof (Qlt_floor x) as Hfu.
  rewrite inject_Z_plus in Hfu. change (inject_Z 1) with 1%Q in Hfu.
  set (f := Qfloor x) in *.
  set (t := (x - inject_Z f - (1 # 2))%Q).
  set (d := 2 * price + - ((2 * f + 1) * step)).
  assert (Hd : (inject_Z d == t * (2 * S))%Q).
  { unfold d, t. rewrite inject_Z_plus, inject_Z_opp, !inject_Z_mult, inject_Z_plus,
      inject_Z_mult. fold P S. rewrite <- HqS.
    change (inject_Z 2) with 2%Q. change (inject_Z 1) with 1%Q. ring. }
  destruct (x - inject_Z f ?= 1 # 2)%Q eqn:E.
  - apply Qeq_alt in E. exists q. split; [ | reflexivity].
    apply (round64_exact q (2 * f + 1) (-1)).
    + assert (H1 : (inject_Z (2 * f + 1) == 2 * x)%Q).
      { rewrite inject_Z_plus, inject_Z_mult.
        change (inject_Z 2) with 2%Q. change (inject_Z 1) with 1%Q. lra. }
      assert (H2 : (inject_Z (- 2 ^ 53) < inject_Z (2 * f + 1))%Q).
      { rewrite H1. change (inject_Z (- 2 ^ 53)) with (- (2 * inject_Z (2 ^ 52)))%Q.
        rewrite <- pow2_Z by lia. lra. }
      assert (H3 : (inject_Z (2 * f + 1) < inject_Z (2 ^ 53))%Q).
      { rewrite H1. change (inject_Z (2 ^ 53)) with (2 * inject_Z (2 ^ 52))%Q.
        rewrite <- pow2_Z by lia. lra. }
      rewrite <- Zlt_Qlt in H2, H3. lia.
    + lia.
    + fold x. rewrite inject_Z_plus, inject_Z_mult.
      change (inject_Z 2) with 2%Q. change (inject_Z 1) with 1%Q.
      change (pow2 (-1)) with (1 # 2)%Q. lra.
  - apply Qlt_alt in E.
    assert (Ht : (t <= - eps)%Q).
    { apply (Qmult_le_r _ _ (2 * S)); [lra | ].
      rewrite <- Hd.
      setoid_replace (- eps * (2 * S))%Q with (-1)%Q by lra.
      apply inject_Z_lt_0. rewrite Hd.
      setoid_replace 0%Q with (0 * (2 * S))%Q by ring.
      apply Qmult_lt_r; [lra | unfold t; lra]. }
    exists r. split; [exact Hr | ].
    unfold t in Ht.
    transitivity f.
    + apply round_half_even_within; lra.
    + unfold round_half_even. fold x f.
      rewrite (proj1 (Qlt_alt _ _) E). reflexivity.
  - apply Qgt_alt in E.
    assert (Ht : (eps <= t)%Q).
    { apply (Qmult_le_r _ _ (2 * S)); [lra | ].
      rewrite <- Hd.
      setoid_replace (eps * (2 * S))%Q with 1%Q by lra.
      apply inject_Z_gt_0. rewrite Hd.
      setoid_replace 0%Q with (0 * (2 * S))%Q by ring.
      apply Qmult_lt_r; [lra | unfold t; lra]. }
    exists r. split; [exact Hr | ].
    unfold t in Ht.
    transitivity (f + 1).
    + apply round_half_even_within; rewrite inject_Z_plus;
        change (inject_Z 1) with 1%Q; lra.
    + unfold round_half_even. fold x f.
      rewrite (proj1 (Qgt_alt _ _) E). reflexivity.
Qed.

(** X18.  [nearest_strike] returns a nearest multiple of the step, on the
    arithmetic of doubles, for whole prices: for a price that is an integer
    below 2 ^ 52 in absolute value and a step s with 0 < s < 2 ^ 53 it
    returns k * s for an integer k, and no multiple of the step is closer
    to the price. *)
Theorem nearest_strike_is_nearest (price step : Z) :
  Z.abs price < 2 ^ 52 -> 0 < step < 2 ^ 53 ->
  exists k,
    Binary64.nearest_strike (of_int price) step = inr (k * step) /\
    forall m : Z, Z.abs (price - k * step) <= Z.abs (price - m * step).
Proof.
  intros Hp Hs.
  destruct (quotient_rounds price step Hp Hs) as [r [Hr Hk]].
  exists (round_half_even (Zc price / Zc step)%Qc). split.
  - unfold Binary64.nearest_strike, rdiv.
    rewrite round64_of_int by lia.
    unfold of_int, fdiv.
    rewrite (is_zero_false (Zc step) (Zc_nonzero step ltac:(lia))).
    rewrite Hr. now rewrite Hk.
  - intros m.
    destruct (nearest_multiple (Zc price) step ltac:(lia)) as [k [Hn Hnear]].
    rewrite nearest_strike_finite in Hn by lia.
    assert (Ek : k * step = round_half_even (Zc price / Zc step)%Qc * step)
      by congruence.
    apply Z.mul_reg_r in Ek; [ | lia]. subst k. specialize (Hnear m).
    rewrite this_Zc in Hnear.
    assert (Hz : forall j, (Qabs (inject_Z price - inject_Z (j * step))
                            == inject_Z (Z.abs (price - j * step)))%Q).
    { intros j. change (inject_Z (Z.abs (price - j * step)))
        with (Qabs (inject_Z (price - j * step))).
      apply Qabs_wd. unfold Z.sub. rewrite inject_Z_plus, inject_Z_opp. reflexivity. }
    rewrite !Hz in Hnear. now rewrite <- Zle_Qle in Hnear.
Qed.

Lemma nearest_strike_is_nearest_witness :
  exists k, Binary64.nearest_strike (of_int 24980) 50 = inr (k * 50).
Proof.
  destruct (nearest_strike_is_nearest 24980 50 eq_refl ltac:(lia)) as [k [H _]].
  exists k. exact H.
Defined.

(** Beyond the integers that doubles hold exactly the rounding of the
    quotient shows: a third of 10 ^ 22 is rounded up by more than a
    hundred thousand, and the strike returned is not the nearest. *)
Example nearest_strike_of_a_large_price :
  Binary64.nearest_strike (of_int (10 ^ 22)) 3 = inr (10 ^ 22 + 524288) /\
  nearest_strike (of_int (10 ^ 22)) 3 = inr (10 ^ 22 - 1).
Proof. split; vm_compute; reflexivity. Qed.

(* ================================================================= *)
(** ** The loss breaker after a purchase *)

(** Equity on doubles right after a position is opened on a flat engine,
    at whole prices. *)
Lemma equity_after_opening64 token symbol side quantity dt_index s (c p : Z) :
  Z.abs c < 2 ^ 52 -> Z.abs (p * quantity) < 2 ^ 52 ->
  Z.abs p < 2 ^ 53 -> Z.abs quantity < 2 ^ 53 ->
  positions s = [] ->
  cash s = of_int c ->
  slippage s = Fin 0%Qc ->
  valid_side (upper side) = true ->
  price_at (market_data s) (time_index s) token dt_index = Ok (of_int p) ->
  let s' := snd (place_order token symbol side quantity dt_index s) in
  Binary64.total_equity dt_index s'
  = (Ok (of_int (if String.eqb (upper side) "BUY"
                 then c - p * quantity else c + p * quantity)), s').
Proof.
  intros Bc Bpq Bp Bq Hflat Hc Hsl Hv Hprice s'.
  destruct (place_order_filled token symbol side quantity dt_index (of_int p) s
              Hv Hprice eq_refl) as [ts [_ Hrun]].
  set (sd := upper side) in *.
  assert (E : s' = filled token symbol sd quantity (of_int p) ts s).
  { subst s'. now rewrite Hrun. }
  clearbody s'. clear Hrun.
  destruct (filled_frame token symbol sd quantity (of_int p) ts s)
    as [Fmd [Fti _]].
  assert (Hget : Dict.get token (positions s) = None) by now rewrite Hflat.
  destruct (filled_open token symbol sd quantity (of_int p) ts s Hget) as [Hpos _].
  pose proof (filled_cash_finite token symbol sd quantity (Zc p) ts s (Zc c) 0%Qc Hc Hsl)
    as Hcash.
  change (Fin (Zc p)) with (of_int p) in Hcash.
  rewrite <- E in Fmd, Fti, Hpos, Hcash.
  unfold of_int in Hpos.
  rewrite Hflat, Hsl, fill_price_finite, exec_price_no_slippage in Hpos.
  rewrite exec_price_no_slippage in Hcash.
  simpl in Hpos.
  unfold Binary64.total_equity, Binary64.mark_to_market, bind, gets.
  rewrite Hcash, Hpos.
  unfold Dict.items. simpl Binary64.mark_to_market_loop. unfold bind.
  rewrite get_market_price_eq, (price_at_frame s' s token dt_index Fmd Fti), Hprice.
  unfold ret, of_int. simpl isnan. cbn [negb]. do 2 f_equal.
  unfold Binary64.update_pnl. cbn [Position.side Position.entry_price Position.quantity Position.new].
  change (round64 (Fin (Zc quantity))) with (round64 (of_int quantity)).
  rewrite (round64_of_int quantity Bq). unfold of_int.
  assert (Hm' : rmul (rsub (Fin (Zc p)) (Fin (Zc p))) (Fin (Zc quantity)) = Fin (Zc 0)).
  { rewrite integer_differences_are_exact by (rewrite Z.sub_diag; simpl; lia).
    rewrite integer_products_are_exact by (rewrite Z.sub_diag; simpl; lia).
    now rewrite Z.sub_diag. }
  assert (Hu : (if String.eqb (upper (if String.eqb sd "BUY" then "LONG" else "SHORT")) "LONG"
                then rmul (rsub (Fin (Zc p)) (Fin (Zc p))) (Fin (Zc quantity))
                else rmul (rsub (Fin (Zc p)) (Fin (Zc p))) (Fin (Zc quantity)))
               = Fin (Zc 0)).
  { destruct (String.eqb (upper (if String.eqb sd "BUY" then "LONG" else "SHORT")) "LONG");
      exact Hm'. }
  rewrite Hu. change (Fin 0%Qc) with (Fin (Zc 0)).
  rewrite (integer_sums_are_exact 0 0) by (simpl; lia). cbn [Z.add].
  unfold order_sign.
  destruct (valid_side_cases sd Hv) as [Hs|Hs]; rewrite Hs; cbn [String.eqb Ascii.eqb Bool.eqb].
  - replace (Zc c - 1 * Zc p * Zc quantity)%Qc with (Zc (c - p * quantity))
      by (rewrite <- Zc_minus, <- Zc_mult; ring).
    rewrite integer_sums_are_exact by lia. now rewrite Z.add_0_r.
  - replace (Zc c - - (1) * Zc p * Zc quantity)%Qc with (Zc (c + p * quantity))
      by (rewrite Zc_add, <- Zc_mult; ring).
    rewrite integer_sums_are_exact by lia. now rewrite Z.add_0_r.
Qed.

(** X12.  The loss breaker trips on purchases, on doubles and at whole
    prices: on a flat engine whose cash is its starting cash, a whole
    number c, with zero slippage and a threshold, right after a BUY of
    quantity q at a whole price p [check_max_loss] at that bar returns true
    exactly when p times q is at least the threshold (for a SELL, when
    minus p times q is), although nothing has been lost.  The numbers are
    small enough for every operation of the engine to be exact. *)
Theorem breaker_trips_on_cost token symbol side quantity dt_index s (c p : Z) limit :
  Z.abs c < 2 ^ 52 -> Z.abs (p * quantity) < 2 ^ 52 ->
  Z.abs p < 2 ^ 53 -> Z.abs quantity < 2 ^ 53 ->
  positions s = [] ->
  cash s = of_int c ->
  starting_cash s = of_int c ->
  max_daily_loss s = Some limit ->
  slippage s = Fin 0%Qc ->
  valid_side (upper side) = true ->
  price_at (market_data s) (time_index s) token dt_index = Ok (of_int p) ->
  let s' := snd (place_order token symbol side quantity dt_index s) in
  exists tripped,
    Binary64.check_max_loss dt_index s' = (Ok tripped, s') /\
    (tripped = true
     <-> at_least (of_int (if String.eqb (upper side) "BUY"
                           then p * quantity else - (p * quantity))) limit).
Proof.
  intros Bc Bpq Bp Bq Hflat Hc Hsc Hm Hsl Hv Hprice s'.
  pose proof (equity_after_opening64 token symbol side quantity dt_index s c p
                Bc Bpq Bp Bq Hflat Hc Hsl Hv Hprice) as Heq.
  fold s' in Heq.
  destruct (run_call_frame (PlaceOrder token symbol side quantity dt_index) s)
    as [[_ [Fsc [_ [Fm _]]]] _].
  simpl run_call in Fsc, Fm. fold s' in Fsc, Fm.
  eexists. split.
  - unfold Binary64.check_max_loss, bind, gets. rewrite Fm, Hm, Heq, Fsc, Hsc.
    reflexivity.
  - rewrite fge_at_least. unfold of_int.
    destruct (String.eqb (upper side) "BUY").
    + rewrite integer_differences_are_exact by lia.
      replace (c - (c - p * quantity)) with (p * quantity) by lia. tauto.
    + rewrite integer_differences_are_exact by lia.
      replace (c - (c + p * quantity)) with (- (p * quantity)) by lia. tauto.
Qed.

Lemma breaker_trips_on_cost_witness :
  exists tripped,
    Binary64.check_max_loss 0
      (snd (place_order 7 "A" "BUY" 10 0
              (snd (set_time_index [0; 1; 2]
                      (init scenario_data (of_int 1000000) (Fin 0%Qc)
                         (Some (of_int 500)) false)))))
    = (Ok tripped,
       snd (place_order 7 "A" "BUY" 10 0
              (snd (set_time_index [0; 1; 2]
                      (init scenario_data (of_int 1000000) (Fin 0%Qc)
                         (Some (of_int 500)) false))))) /\
    tripped = true.
Proof.
  destruct (breaker_trips_on_cost 7 "A" "BUY" 10 0
           (snd (set_time_index [0; 1; 2]
                   (init scenario_data (of_int 1000000) (Fin 0%Qc)
                      (Some (of_int 500)) false)))
           1000000 100 (of_int 500)
           ltac:(vm_compute; reflexivity) ltac:(vm_compute; reflexivity)
           ltac:(vm_compute; reflexivity) ltac:(vm_compute; reflexivity)
           eq_refl eq_refl eq_refl eq_refl eq_refl eq_refl eq_refl)
    as [tripped [Hrun Hiff]].
  exists tripped. split; [exact Hrun | ].
  apply Hiff. vm_compute. discriminate.
Defined.

(* ================================================================= *)
(** ** The exits of the short straddle *)

Lemma Zc_le (a b : Z) : (Zc a <= Zc b)%Qc <-> a <= b.
Proof. unfold Qcle. rewrite !this_Zc, <- Zle_Qle. reflexivity. Qed.

Lemma Zc_lt (a b : Z) : (Zc a < Zc b)%Qc <-> a < b.
Proof. unfold Qclt. rewrite !this_Zc, <- Zlt_Qlt. reflexivity. Qed.

Lemma stop_level_Z (a b : Z) :
  (Q2Qc (5 # 4) * Zc a <= Zc b)%Qc <-> 5 * a <= 4 * b.
Proof.
  rewrite <- Zc_le. unfold Qcle.
  rewrite this_mult, this_Q2Qc, !this_Zc, !inject_Z_mult.
  change (inject_Z 5) with 5%Q. change (inject_Z 4) with 4%Q.
  split; intros H; lra.
Qed.

Lemma target_level_Z (a b : Z) :
  (Zc b <= Q2Qc (1 # 2) * Zc a)%Qc <-> 2 * b <= a.
Proof.
  rewrite <- Zc_le. unfold Qcle.
  rewrite this_mult, this_Q2Qc, !this_Zc, !inject_Z_mult.
  change (inject_Z 2) with 2%Q.
  split; intros H; lra.
Qed.

Lemma stop_level_Z_lt (a b : Z) :
  (Zc b < Q2Qc (5 # 4) * Zc a)%Qc <-> 4 * b < 5 * a.
Proof.
  rewrite <- Zc_lt. unfold Qclt.
  rewrite this_mult, this_Q2Qc, !this_Zc, !inject_Z_mult.
  change (inject_Z 5) with 5%Q. change (inject_Z 4) with 4%Q.
  split; intros H; lra.
Qed.

Lemma target_level_Z_lt (a b : Z) :
  (Q2Qc (1 # 2) * Zc a < Zc b)%Qc <-> a < 2 * b.
Proof.
  rewrite <- Zc_lt. unfold Qclt.
  rewrite this_mult, this_Q2Qc, !this_Zc, !inject_Z_mult.
  change (inject_Z 2) with 2%Q.
  split; intros H; lra.
Qed.

(** X30.  The exits of the short straddle, at whole prices.  On an open
    straddle whose legs were sold at the whole numbers [c] and [p] and are
    now priced at the whole numbers [c'] and [p'], all below 2 ^ 50: the
    levels the strategy holds are those its entry computes on doubles, and
    the PnL its exit block computes on doubles is (c + p) - (c' + p');
    when buying the straddle back costs at least 1.25 times the premium
    collected, or at most half of it, [on_bar] squares off every position
    of the engine (each being priced) and clears the flag; strictly
    between the two levels, at a bar other than 15:10, it changes
    nothing. *)
Theorem straddle_exits_at_its_levels (contract_df : list contract)
    (dt_index : Z) (ts : timestamp) (self : Straddle.t) (s : Simulator)
    (call put : Z) (c p c' p' : Z) :
  Z.abs c < 2 ^ 50 -> Z.abs p < 2 ^ 50 ->
  Z.abs c' < 2 ^ 50 -> Z.abs p' < 2 ^ 50 ->
  straddle_open self s call put (Zc c) (Zc p) ->
  quoted call dt_index (of_int c') ts s ->
  quoted put dt_index (of_int p') ts s ->
  (exists call_pos put_pos,
     Dict.get call (positions s) = Some call_pos /\
     Dict.get put (positions s) = Some put_pos /\
     Straddle.stop_loss self
     = Some (fst (Binary64.straddle_levels (of_int c) (of_int p))) /\
     Straddle.target self
     = Some (snd (Binary64.straddle_levels (of_int c) (of_int p))) /\
     Binary64.straddle_pnl call_pos put_pos (of_int c') (of_int p')
     = of_int ((c + p) - (c' + p')))
  /\
  (5 * (c + p) <= 4 * (c' + p') \/ 2 * (c' + p') <= c + p ->
   Dict.wf (positions s) ->
   (forall token, In token (Dict.keys (positions s)) ->
                  priced s token dt_index = true) ->
   exists s',
     Straddle.on_bar contract_df dt_index self s
     = (Next tt, Straddle.set_open_trades false self, s') /\
     positions s' = [])
  /\
  (c + p < 2 * (c' + p') ->
   4 * (c' + p') < 5 * (c + p) ->
   time_of ts <> 15 * 60 + 10 ->
   Straddle.on_bar contract_df dt_index self s = (Next tt, self, s)).
Proof.
  intros Bc Bp Bc' Bp' Hopen Hqc Hqp.
  destruct (straddle_exits_exact contract_df dt_index ts self s call put
              (Zc c) (Zc p) (Zc c') (Zc p') Hopen Hqc Hqp) as [Hexit Hstay].
  rewrite <- !Zc_add in Hexit, Hstay.
  split; [ | split].
  - destruct Hopen as (_ & _ & _ & _ & Hstop & Htarget
                       & [call_pos [Hgc Hc]] & [put_pos [Hgp Hp]]).
    exists call_pos, put_pos. split; [exact Hgc | ]. split; [exact Hgp | ].
    unfold Binary64.straddle_levels. cbn [fst snd]. unfold of_int at 1 2 3 4.
    rewrite integer_sums_are_exact by lia.
    destruct (straddle_levels_are_exact (c + p) ltac:(lia)) as [L1 L2].
    unfold of_int in L1, L2. rewrite L1, L2, Zc_add.
    split; [exact Hstop | ]. split; [exact Htarget | ].
    unfold Binary64.straddle_pnl. cbv zeta.
    etransitivity;
      [exact (straddle_total_is_exact call_pos put_pos c p c' p'
                Bc Bp Bc' Bp' Hc Hp) | ].
    etransitivity;
      [exact (straddle_total call_pos put_pos (Zc c) (Zc p) (Zc c') (Zc p')
                Hc Hp) | ].
    unfold of_int. now rewrite <- !Zc_add, Zc_minus.
  - intros Hlevel. apply Hexit.
    destruct Hlevel as [H | H];
      [left; now apply stop_level_Z | right; now apply target_level_Z].
  - intros Hlo Hhi. apply Hstay;
      [now apply target_level_Z_lt | now apply stop_level_Z_lt].
Qed.

Lemma straddle_exits_at_its_levels_witness :
  exists s',
    Straddle.on_bar scenario_contracts 1
      (snd (fst (Straddle.on_bar scenario_contracts 0 (Straddle.new 1)
                   straddle_engine)))
      (snd (Straddle.on_bar scenario_contracts 0 (Straddle.new 1) straddle_engine))
    = (Next tt,
       Straddle.set_open_trades false
         (snd (fst (Straddle.on_bar scenario_contracts 0 (Straddle.new 1)
                      straddle_engine))),
       s') /\
    positions s' = [].
Proof.
  assert (Hopen :
    straddle_open
      (snd (fst (Straddle.on_bar scenario_contracts 0 (Straddle.new 1)
                   straddle_engine)))
      (snd (Straddle.on_bar scenario_contracts 0 (Straddle.new 1) straddle_engine))
      11 12 (Zc 12) (Zc 8)).
  { apply (straddle_entry_opens scenario_contracts 0 560 (Straddle.new 1)
             straddle_engine (of_int 26210) 26200 11 12
             "NIFTY W2 26200CE" "NIFTY W2 26200PE" (Zc 12) (Zc 8));
      try reflexivity; try discriminate; repeat split; reflexivity. }
  apply (proj1 (proj2 (straddle_exits_at_its_levels scenario_contracts 1 561 _ _
                  11 12 12 8 16 10
                  ltac:(vm_compute; reflexivity) ltac:(vm_compute; reflexivity)
                  ltac:(vm_compute; reflexivity) ltac:(vm_compute; reflexivity)
                  Hopen
                  ltac:(repeat split; vm_compute; reflexivity)
                  ltac:(repeat split; vm_compute; reflexivity)))).
  - left. lia.
  - unfold Dict.wf. vm_compute.
    constructor; [intros [H | []]; discriminate H | ].
    constructor; [intros [] | constructor].
  - intros token Hin. vm_compute in Hin.
    destruct Hin as [<- | [<- | []]]; vm_compute; reflexivity.
Defined.
